(** * Scene loop, particle field and pattern renderer of the portfolio site

    The repository holds two near-duplicate copies of one script:
    [src/app.js] (the earlier copy) and [src/unnamed/part_000] (the later
    copy with pointer repulsion, connection lines, a base-class time
    accumulator and a layered-network pattern).  Each copy is embedded in
    a module of its own ([AppJs], [Part000]); the frame scheduler of the
    base class, which the copies share up to two statements, is a section
    parameterised by the copy.

    Numbers.  A JavaScript number is modelled as a real number: [Math.sqrt],
    [Math.cos], [Math.sin], [Math.max] and [Math.min] are the functions of
    the same name on [R], [Math.atan2] is defined below from [atan].
    Rounding, signed zeros, infinities and NaN are outside the model. *)

From Stdlib Require Import Reals Lra Lia.
From stdpp Require Import base list strings.

Open Scope R_scope.

(** ** JavaScript arithmetic on reals *)

#[global] Instance Rlt_decision : RelDecision Rlt := Rlt_dec.
#[global] Instance Rle_decision : RelDecision Rle := Rle_dec.
#[global] Instance Rgt_decision : RelDecision Rgt := Rgt_dec.
#[global] Instance Req_decision : EqDecision R := Req_dec_T.

Module JS.

(** [Math.max(a, b)] and [Math.min(a, b)]. *)
Definition Math_max (a b : R) : R := Rmax a b.
Definition Math_min (a b : R) : R := Rmin a b.

(** [Math.pow(v, 2)]. *)
Definition Math_pow2 (v : R) : R := v ^ 2.

(** [Math.atan2(y, x)]: the angle of the point [(x, y)], in (-PI, PI];
    [Math.atan2(0, 0)] is [0]. *)
Definition Math_atan2 (y x : R) : R :=
  if decide (0 < x) then atan (y / x)
  else if decide (x < 0) then
    (if decide (y < 0) then atan (y / x) - PI else atan (y / x) + PI)
  else if decide (0 < y) then PI / 2
  else if decide (y < 0) then - (PI / 2)
  else 0.

(** [a || b] on numbers: [b] when [a] is zero. *)
Definition or_else (a b : R) : R := if decide (a = 0) then b else a.

(** [Math.floor(v)]. *)
Definition Math_floor (v : R) : Z := Int_part v.

(** [Math.round(v)]: the nearest integer, halves rounded up. *)
Definition Math_round (v : R) : Z := Int_part (v + 0.5).

(** [a % b] on numbers: the remainder has the sign of the dividend. *)
Definition rem (a b : R) : R :=
  let q := a / b in
  let t := if decide (q < 0) then (- Int_part (- q))%Z else Int_part q in
  a - b * IZR t.

(** Euclidean distance as the source writes it:
    [Math.sqrt(Math.pow(ax - bx, 2) + Math.pow(ay - by, 2))]. *)
Definition distance (ax ay bx by_ : R) : R :=
  sqrt (Math_pow2 (ax - bx) + Math_pow2 (ay - by_)).

(** Numbers are IEEE 754 doubles: an arithmetic operation returns the
    exact result rounded to the nearest double.  Where a property
    depends on that rounding, the operation is written with the
    rounding [fl] applied to the exact result.  [normal x]: [x] lies
    between the smallest normal double and the largest power of two.
    [rounds fl]: what is used of the rounding, that 0 is a double and
    that a result in the normal range has a relative error of at most
    2^-53. *)
Definition normal (x : R) : Prop := / 2 ^ 1022 <= Rabs x <= 2 ^ 1023.

Definition rounds (fl : R -> R) : Prop :=
  fl 0 = 0 /\ forall x, normal x -> Rabs (fl x - x) <= Rabs x / 2 ^ 53.

End JS.

(** ** Drawing surfaces *)

(** The result of [getBoundingClientRect()]. *)
Record DOMRect := {
  rect_left : R;
  rect_top : R;
  rect_width : R;
  rect_height : R
}.

(** A canvas element, as far as the scenes look at it: its layout box,
    its [clientWidth] and [clientHeight], whether [getContext('2d')]
    yields a context ([false]: it returns [null]), the size of its
    backing buffer ([canvas.width], [canvas.height]) and the pixel sizes
    written to [canvas.style] ([None] while the script has written none). *)
Record Canvas := {
  boundingClientRect : DOMRect;
  clientWidth : R;
  clientHeight : R;
  context2d : bool;
  canvas_width : R;
  canvas_height : R;
  style_width : option R;
  style_height : option R
}.

(** ** The page around the scenes *)

(** The numeric helpers of [Utils], the same in both copies. *)
Module Utils.

Definition clamp (value min max : R) : R :=
  JS.Math_max min (JS.Math_min max value).

Definition smoothStep (edge0 edge1 x : R) : R :=
  let t := clamp ((x - edge0) / (edge1 - edge0)) 0 1 in
  t * t * (3 - 2 * t).

(** [Utils.easing.easeInOutCubic]. *)
Definition easeInOutCubic (t : R) : R :=
  if decide (t < 0.5) then 4 * t * t * t
  else (t - 1) * (2 * t - 2) * (2 * t - 2) + 1.

(** [Utils.easing.easeOutElastic]; [Math.pow(2, x)] is [Rpower 2 x]. *)
Definition easeOutElastic (t : R) : R :=
  sin (- 13 * (t + 1) * PI / 2) * Rpower 2 (- 10 * t) + 1.

(** [Utils.easing.easeInOutQuart]: in [1 - 8 * (--t) * t * t * t] the
    decrement happens first, so all four factors are [t - 1]. *)
Definition easeInOutQuart (t : R) : R :=
  if decide (t < 0.5) then 8 * t * t * t * t
  else
    let t1 := t - 1 in
    1 - 8 * t1 * t1 * t1 * t1.

End Utils.

(** A call on a [CanvasRenderingContext2D], or an assignment to one of its
    style properties. *)
Inductive Cmd :=
| Save
| Restore
| Translate (x y : R)
| Rotate (angle : R)
| Scale (x y : R)
| ClearRect (x y w h : R)
| StrokeRect (x y w h : R)
| BeginPath
| ClosePath
| MoveTo (x y : R)
| LineTo (x y : R)
| Arc (x y radius startAngle endAngle : R)
| Fill
| Stroke
| StrokeStyle (style : string)
| FillStyle (style : string)
| LineWidth (w : R)
| ShadowColor (color : string)
| ShadowBlur (blur : R)
| GlobalAlpha (alpha : R).

(** [PerformanceMonitor] (one global instance, [performanceMonitor]). *)
Record PerformanceMonitor := {
  frameCount : nat;
  fps : R;
  lastTime : R;
  fpsArray : list R;
  qualityLevel : R
}.

(** What the scripts reach outside the scene object: [appState], the
    window, the clocks, the source of [Math.random()] (the sequence of all
    its future results and the number already handed out), the global
    performance monitor, and the calls received so far by the 2D context
    of the scene's canvas. *)
Record Globals := {
  mousePosition : R * R;
  isMobile : bool;
  isReducedMotion : bool;
  devicePixelRatio : R;
  randomSource : nat -> R;
  randomUsed : nat;
  dateNow : R;
  performanceNow : R;
  performanceMonitor : PerformanceMonitor;
  canvasLog : list Cmd
}.

Definition set_randomUsed (g : Globals) (n : nat) : Globals :=
  {| mousePosition := mousePosition g; isMobile := isMobile g;
     isReducedMotion := isReducedMotion g;
     devicePixelRatio := devicePixelRatio g; randomSource := randomSource g;
     randomUsed := n; dateNow := dateNow g; performanceNow := performanceNow g;
     performanceMonitor := performanceMonitor g; canvasLog := canvasLog g |}.

Definition set_canvasLog (g : Globals) (log : list Cmd) : Globals :=
  {| mousePosition := mousePosition g; isMobile := isMobile g;
     isReducedMotion := isReducedMotion g;
     devicePixelRatio := devicePixelRatio g; randomSource := randomSource g;
     randomUsed := randomUsed g; dateNow := dateNow g;
     performanceNow := performanceNow g;
     performanceMonitor := performanceMonitor g; canvasLog := log |}.

Definition set_performanceMonitor (g : Globals) (pm : PerformanceMonitor)
  : Globals :=
  {| mousePosition := mousePosition g; isMobile := isMobile g;
     isReducedMotion := isReducedMotion g;
     devicePixelRatio := devicePixelRatio g; randomSource := randomSource g;
     randomUsed := randomUsed g; dateNow := dateNow g;
     performanceNow := performanceNow g;
     performanceMonitor := pm; canvasLog := canvasLog g |}.

(** [PerformanceMonitor.adjustQuality] ([CONFIG.performance.adaptiveQuality]
    is [true] in both copies). *)
Definition adjustQuality (pm : PerformanceMonitor) : PerformanceMonitor :=
  let averageFPS := foldl Rplus 0 (fpsArray pm) / INR (length (fpsArray pm)) in
  let q := qualityLevel pm in
  let q1 :=
    if bool_decide (averageFPS < 30) && bool_decide (q > 0.5) then q - 0.1
    else if bool_decide (averageFPS > 50) && bool_decide (q < 1) then q + 0.1
    else q in
  {| frameCount := frameCount pm; fps := fps pm; lastTime := lastTime pm;
     fpsArray := fpsArray pm; qualityLevel := Utils.clamp q1 0.3 1 |}.

(** [PerformanceMonitor.update], [currentTime] being [performance.now()]. *)
Definition monitorUpdate (currentTime : R) (pm : PerformanceMonitor)
  : PerformanceMonitor :=
  let count := S (frameCount pm) in
  if decide (currentTime >= lastTime pm + 1000) then
    let fps' :=
      IZR (JS.Math_round (INR count * 1000 / (currentTime - lastTime pm))) in
    let pushed := fpsArray pm ++ [fps'] in
    let kept := if decide (10 < length pushed)%nat then tail pushed else pushed in
    let adjusted :=
      adjustQuality {| frameCount := count; fps := fps'; lastTime := lastTime pm;
                       fpsArray := kept; qualityLevel := qualityLevel pm |} in
    {| frameCount := 0; fps := fps adjusted; lastTime := currentTime;
       fpsArray := fpsArray adjusted; qualityLevel := qualityLevel adjusted |}
  else
    {| frameCount := count; fps := fps pm; lastTime := lastTime pm;
       fpsArray := fpsArray pm; qualityLevel := qualityLevel pm |}.

(** [new PerformanceMonitor()], [now] being [performance.now()]. *)
Definition newMonitor (now : R) : PerformanceMonitor :=
  {| frameCount := 0; fps := 60; lastTime := now; fpsArray := [];
     qualityLevel := 1 |}.

(** [performanceMonitor.update()] as a step of the globals. *)
Definition monitorTick (g : Globals) : Globals :=
  set_performanceMonitor g
    (monitorUpdate (performanceNow g) (performanceMonitor g)).

(** *** Scripts: code that reads and writes the globals *)

Definition Script (A : Type) : Type := Globals -> A * Globals.

#[global] Instance Script_ret : MRet Script := fun A a g => (a, g).
#[global] Instance Script_bind : MBind Script :=
  fun A B f m g => let '(a, g1) := m g in f a g1.

(** [Math.random()]: the next element of the source. *)
Definition Math_random : Script R :=
  fun g => (randomSource g (randomUsed g), set_randomUsed g (S (randomUsed g))).

(** [Date.now()]. *)
Definition Date_now : Script R := fun g => (dateNow g, g).

(** One call on [this.ctx]. *)
Definition ctx_do (c : Cmd) : Script unit :=
  fun g => (tt, set_canvasLog g (canvasLog g ++ [c])).

(** [array.forEach(a => ...)] for a callback that leaves the array alone. *)
Fixpoint forEach {A} (l : list A) (f : A -> Script unit) : Script unit :=
  match l with
  | [] => mret tt
  | a :: l' => f a ;; forEach l' f
  end.

(** [for (let i = 0; i < n; i++) ...]. *)
Definition for_upto (n : nat) (f : nat -> Script unit) : Script unit :=
  forEach (seq 0 n) f.

(** A loop that collects one value per round ([positions.push(...)]) or
    that rewrites each element of the array in place. *)
Fixpoint forEachCollect {A B} (l : list A) (f : A -> Script B) : Script (list B) :=
  match l with
  | [] => mret []
  | a :: l' => b ← f a; bs ← forEachCollect l' f; mret (b :: bs)
  end.

(** The elements of an array with their indices. *)
Definition indexed {A} (l : list A) : list (nat * A) := imap pair l.


(** ** The frame scheduler: class [Scene3D] *)

(** Which copy of the script runs. *)
Inductive Copy := app_js | part_000.

(** The fields the base class gives to every scene.  [ctx] tells whether
    [this.ctx] holds a context ([false] is [null]); [animationId] is
    [null] or the handle of the last requested frame; [time] and
    [options] exist in [part_000] only ([app_js] never reads or writes
    them); [ext] holds what the subclass adds. *)
Record Scene3D (X : Type) := {
  canvas : option Canvas;
  ctx : bool;
  isRunning : bool;
  animationId : option positive;
  time : R;
  options_particleCount : nat;
  options_type : string;
  ext : X
}.

Arguments canvas {X} _.
Arguments ctx {X} _.
Arguments isRunning {X} _.
Arguments animationId {X} _.
Arguments time {X} _.
Arguments options_particleCount {X} _.
Arguments options_type {X} _.
Arguments ext {X} _.

(** The scene object, the globals, and the browser's list of animation
    frame callbacks of this scene (every one is [this.animate] bound to
    the scene, so only the handles are kept) with the next free handle. *)
Record World (X : Type) := {
  scene : Scene3D X;
  globals : Globals;
  frameCallbacks : list positive;
  nextHandle : positive
}.

Arguments scene {X} _.
Arguments globals {X} _.
Arguments frameCallbacks {X} _.
Arguments nextHandle {X} _.

(** How a call ends: it returns, or a [TypeError] escapes from it (a
    method is called on [null] or [undefined]); both carry the state
    reached at that point. *)
Inductive Outcome (A : Type) :=
| Normal (a : A)
| Thrown (a : A).

Arguments Normal {A} _.
Arguments Thrown {A} _.

Definition andThen {A} (o : Outcome A) (k : A -> Outcome A) : Outcome A :=
  match o with
  | Normal a => k a
  | Thrown a => Thrown a
  end.

Definition settle {A} (o : Outcome A) : A :=
  match o with
  | Normal a => a
  | Thrown a => a
  end.

(** An overridable method ([update], [render]): it reads the scene and may
    change the subclass fields and the globals. *)
Definition Hook (X : Type) : Type :=
  Scene3D X -> Globals -> Outcome (X * Globals).

Section Scheduler.
Context {X : Type}.

Definition set_canvas (s : Scene3D X) (c : option Canvas) : Scene3D X :=
  {| canvas := c; ctx := ctx s; isRunning := isRunning s;
     animationId := animationId s; time := time s;
     options_particleCount := options_particleCount s;
     options_type := options_type s; ext := ext s |}.

Definition set_ctx (s : Scene3D X) (b : bool) : Scene3D X :=
  {| canvas := canvas s; ctx := b; isRunning := isRunning s;
     animationId := animationId s; time := time s;
     options_particleCount := options_particleCount s;
     options_type := options_type s; ext := ext s |}.

Definition set_isRunning (s : Scene3D X) (b : bool) : Scene3D X :=
  {| canvas := canvas s; ctx := ctx s; isRunning := b;
     animationId := animationId s; time := time s;
     options_particleCount := options_particleCount s;
     options_type := options_type s; ext := ext s |}.

Definition set_animationId (s : Scene3D X) (h : option positive) : Scene3D X :=
  {| canvas := canvas s; ctx := ctx s; isRunning := isRunning s;
     animationId := h; time := time s;
     options_particleCount := options_particleCount s;
     options_type := options_type s; ext := ext s |}.

Definition set_time (s : Scene3D X) (t : R) : Scene3D X :=
  {| canvas := canvas s; ctx := ctx s; isRunning := isRunning s;
     animationId := animationId s; time := t;
     options_particleCount := options_particleCount s;
     options_type := options_type s; ext := ext s |}.

Definition set_ext {Y} (s : Scene3D X) (x : Y) : Scene3D Y :=
  {| canvas := canvas s; ctx := ctx s; isRunning := isRunning s;
     animationId := animationId s; time := time s;
     options_particleCount := options_particleCount s;
     options_type := options_type s; ext := x |}.

Definition set_scene (w : World X) (s : Scene3D X) : World X :=
  {| scene := s; globals := globals w;
     frameCallbacks := frameCallbacks w; nextHandle := nextHandle w |}.

Definition set_globals (w : World X) (g : Globals) : World X :=
  {| scene := scene w; globals := g;
     frameCallbacks := frameCallbacks w; nextHandle := nextHandle w |}.

Definition set_frameCallbacks (w : World X) (l : list positive) : World X :=
  {| scene := scene w; globals := globals w;
     frameCallbacks := l; nextHandle := nextHandle w |}.

(** [requestAnimationFrame(this.animate.bind(this))]: the callback joins
    the list for the next frame; the handle is returned. *)
Definition requestAnimationFrame (w : World X) : positive * World X :=
  (nextHandle w,
   {| scene := scene w; globals := globals w;
      frameCallbacks := frameCallbacks w ++ [nextHandle w];
      nextHandle := Pos.succ (nextHandle w) |}).

(** [cancelAnimationFrame(handle)]. *)
Definition cancelAnimationFrame (handle : positive) (w : World X) : World X :=
  set_frameCallbacks w (filter (fun h => h <> handle) (frameCallbacks w)).

Variable copy : Copy.
Variables update render : Hook X.

(** Calls the method [h] of the scene. *)
Definition call (h : Hook X) (w : World X) : Outcome (World X) :=
  match h (scene w) (globals w) with
  | Normal (x, g) => Normal (set_globals (set_scene w (set_ext (scene w) x)) g)
  | Thrown (x, g) => Thrown (set_globals (set_scene w (set_ext (scene w) x)) g)
  end.

(** [performanceMonitor.update()] inside [animate]. *)
Definition monitor (w : World X) : World X :=
  set_globals w (monitorTick (globals w)).

(** [Scene3D.animate]. *)
Definition animate (w : World X) : Outcome (World X) :=
  if negb (isRunning (scene w)) then Normal w
  else
    let '(handle, w1) := requestAnimationFrame w in
    let w2 := set_scene w1 (set_animationId (scene w1) (Some handle)) in
    match copy with
    | app_js =>
        andThen (call update w2) (fun w3 => call render w3)
    | part_000 =>
        let w3 := set_scene w2 (set_time (scene w2) (time (scene w2) + 0.016)) in
        andThen (call update w3) (fun w4 =>
        andThen (call render w4) (fun w5 =>
        Normal (monitor w5)))
    end.

(** The time accumulator after [k] runs of [animate] on a running
    scene: each run of [part_000] adds 0.016; [app_js] has none. *)
Definition timeAfter (t : R) (k : nat) : R :=
  match copy with
  | app_js => t
  | part_000 => t + INR k * 0.016
  end.

(** [Scene3D.start]. *)
Definition start (w : World X) : Outcome (World X) :=
  animate (set_scene w (set_isRunning (scene w) true)).

(** [Scene3D.stop]: a handle is a positive integer, so
    [if (this.animationId)] tests it against [null]. *)
Definition stop (w : World X) : World X :=
  let w1 := set_scene w (set_isRunning (scene w) false) in
  match animationId (scene w1) with
  | Some handle => cancelAnimationFrame handle w1
  | None => w1
  end.

(** [Scene3D.dispose]. *)
Definition dispose (w : World X) : World X := stop w.

(** [Scene3D.setupCanvas]; [window.devicePixelRatio || 1]. *)
Definition setupCanvas (w : World X) : Outcome (World X) :=
  match canvas (scene w) with
  | None => Thrown w
  | Some c =>
      let rect := boundingClientRect c in
      let dpr :=
        if decide (devicePixelRatio (globals w) = 0) then 1
        else devicePixelRatio (globals w) in
      let sized :=
        {| boundingClientRect := boundingClientRect c;
           clientWidth := clientWidth c; clientHeight := clientHeight c;
           context2d := context2d c;
           canvas_width := rect_width rect * dpr;
           canvas_height := rect_height rect * dpr;
           style_width := style_width c; style_height := style_height c |} in
      let w1 := set_scene w (set_canvas (scene w) (Some sized)) in
      if ctx (scene w1) then
        let styled :=
          {| boundingClientRect := boundingClientRect c;
             clientWidth := clientWidth c; clientHeight := clientHeight c;
             context2d := context2d c;
             canvas_width := rect_width rect * dpr;
             canvas_height := rect_height rect * dpr;
             style_width := Some (rect_width rect);
             style_height := Some (rect_height rect) |} in
        Normal
          (set_globals (set_scene w1 (set_canvas (scene w1) (Some styled)))
             (snd (ctx_do (Scale dpr dpr) (globals w1))))
      else Thrown w1
  end.

(** [Scene3D.init]. *)
Definition init (w : World X) : Outcome (World X) :=
  match canvas (scene w) with
  | None => Normal w
  | Some c =>
      let w1 := set_scene w (set_ctx (scene w) (context2d c)) in
      if negb (ctx (scene w1)) then Normal w1
      else andThen (setupCanvas w1) start
  end.

(** [new Scene3D(canvas, options)] as the base-class part of a
    construction: [x0] is the state of the subclass fields while the
    base constructor runs, [particleCount] and [type] are the resolved
    [options]; the page supplies the globals and the next handle. *)
Definition construct (c : option Canvas) (particleCount : nat)
    (type : string) (x0 : X) (g : Globals) (next : positive)
  : Outcome (World X) :=
  let w :=
    {| scene := {| canvas := c; ctx := false; isRunning := false;
                   animationId := None; time := 0;
                   options_particleCount := particleCount;
                   options_type := type; ext := x0 |};
       globals := g; frameCallbacks := []; nextHandle := next |} in
  match c with
  | Some _ => init w
  | None => Normal w
  end.

(** One display refresh: the browser empties the list of callbacks and
    runs each of them; what a callback requests goes to the next
    refresh, and an exception escaping from one callback is reported
    without stopping the others. *)
Definition frame (w : World X) : World X :=
  foldl (fun w' (_ : positive) => settle (animate w'))
        (set_frameCallbacks w []) (frameCallbacks w).

End Scheduler.

(** ** The loading screen: class [LoadingManager] (the same in both copies) *)

Module Loading.

(** [Utils.random(min, max)]. *)
Definition random (min max : R) : Script R :=
  r ← Math_random; mret (r * (max - min) + min).

(** A [div.loading-particle] as [initParticles] styles it: the numbers
    interpolated into its [style.cssText], in the order they are drawn. *)
Record LoadingParticle := {
  lp_width : R;
  lp_height : R;
  lp_alpha : R;
  lp_left : R;
  lp_top : R;
  lp_duration : R;
  lp_delay : R
}.

(** The part of the document [initParticles] writes to: the children of
    the [.loading-particles] element ([None] when
    [document.querySelector] found no such element, so that
    [this.loadingParticles] is [null]) and the number of [style]
    elements appended to [document.head]. *)
Record Document := {
  loadingParticles : option (list LoadingParticle);
  headStyles : nat
}.

(** One round of the loop of [initParticles]. *)
Definition newLoadingParticle : Script LoadingParticle :=
  width ← random 2 6; height ← random 2 6; alpha ← random 0.3 0.8;
  left_ ← random 0 100; top_ ← random 0 100; duration ← random 3 8;
  delay ← random 0 2;
  mret {| lp_width := width; lp_height := height; lp_alpha := alpha;
          lp_left := left_; lp_top := top_; lp_duration := duration;
          lp_delay := delay |}.

(** [LoadingManager.initParticles]. *)
Definition initParticles (doc : Document) : Script Document := fun g =>
  if isReducedMotion g || negb (bool_decide (is_Some (loadingParticles doc)))
  then (doc, g)
  else
    let particleCount := if isMobile g then 30%nat else 60%nat in
    (created ← forEachCollect (seq 0 particleCount)
                  (fun _ => newLoadingParticle);
     mret {| loadingParticles :=
               Some (default [] (loadingParticles doc) ++ created);
             headStyles := S (headStyles doc) |}) g.

(** The particles the loading screen holds. *)
Definition particleElements (doc : Document) : list LoadingParticle :=
  default [] (loadingParticles doc).

(** *** Progress of the loading screen *)

(** A pending [setTimeout] callback of [complete]: the outer one, which
    reveals the page, and the inner one, which hides the loading screen
    and calls [App.init()]. *)
Inductive Timeout := Reveal | Launch.

(** The [LoadingManager] and what [updateProgress] and [complete] write
    to.  [loadingScreen], [progressBar] and [percentageText] tell
    whether the constructor found the element ([false]: the field is
    [null]); [barWidth] is the percentage written to
    [progressBar.style.width] and [percentage] the number written to the
    text, [None] while nothing has been written; [screenLoaded] is the
    class ['loaded'] of the loading screen, [screenHidden] its
    [display: none]; [isLoaded] is [appState.isLoaded]; [bodyOverflow]
    is [document.body.style.overflow]; [timeouts] holds the callbacks
    passed to [setTimeout] that have not run yet, and [appInits] counts
    the calls of [App.init()]. *)
Record Manager := {
  loadingScreen : bool;
  progressBar : bool;
  percentageText : bool;
  progress : R;
  isComplete : bool;
  barWidth : option R;
  percentage : option Z;
  screenLoaded : bool;
  screenHidden : bool;
  isLoaded : bool;
  bodyOverflow : string;
  timeouts : list Timeout;
  appInits : nat
}.

(** [LoadingManager.complete]. *)
Definition complete (m : Manager) : Manager :=
  {| loadingScreen := loadingScreen m; progressBar := progressBar m;
     percentageText := percentageText m; progress := progress m;
     isComplete := true; barWidth := barWidth m; percentage := percentage m;
     screenLoaded := screenLoaded m; screenHidden := screenHidden m;
     isLoaded := isLoaded m; bodyOverflow := bodyOverflow m;
     timeouts := timeouts m ++ [Reveal]; appInits := appInits m |}.

(** [LoadingManager.updateProgress]. *)
Definition updateProgress (targetProgress : R) (m : Manager) : Manager :=
  let progress1 := JS.Math_min targetProgress 100 in
  let m1 :=
    {| loadingScreen := loadingScreen m; progressBar := progressBar m;
       percentageText := percentageText m; progress := progress1;
       isComplete := isComplete m;
       barWidth := if progressBar m then Some progress1 else barWidth m;
       percentage :=
         if percentageText m then Some (JS.Math_round progress1)
         else percentage m;
       screenLoaded := screenLoaded m; screenHidden := screenHidden m;
       isLoaded := isLoaded m; bodyOverflow := bodyOverflow m;
       timeouts := timeouts m; appInits := appInits m |} in
  if bool_decide (progress1 >= 100) && negb (isComplete m1) then complete m1
  else m1.

(** The body of a [setTimeout] callback of [complete]. *)
Definition fire (t : Timeout) (m : Manager) : Manager :=
  match t with
  | Reveal =>
      if loadingScreen m then
        {| loadingScreen := loadingScreen m; progressBar := progressBar m;
           percentageText := percentageText m; progress := progress m;
           isComplete := isComplete m; barWidth := barWidth m;
           percentage := percentage m;
           screenLoaded := true; screenHidden := screenHidden m;
           isLoaded := true; bodyOverflow := bodyOverflow m;
           timeouts := timeouts m ++ [Launch]; appInits := appInits m |}
      else m
  | Launch =>
      {| loadingScreen := loadingScreen m; progressBar := progressBar m;
         percentageText := percentageText m; progress := progress m;
         isComplete := isComplete m; barWidth := barWidth m;
         percentage := percentage m;
         screenLoaded := screenLoaded m; screenHidden := true;
         isLoaded := isLoaded m; bodyOverflow := "auto";
         timeouts := timeouts m; appInits := S (appInits m) |}
  end.

(** The browser runs the pending callback at position [i], if there is
    one: it leaves the list and its body runs. *)
Definition runTimeout (i : nat) (m : Manager) : Manager :=
  match timeouts m !! i with
  | Some t =>
      fire t
        {| loadingScreen := loadingScreen m; progressBar := progressBar m;
           percentageText := percentageText m; progress := progress m;
           isComplete := isComplete m; barWidth := barWidth m;
           percentage := percentage m;
           screenLoaded := screenLoaded m; screenHidden := screenHidden m;
           isLoaded := isLoaded m; bodyOverflow := bodyOverflow m;
           timeouts := delete i (timeouts m); appInits := appInits m |}
  | None => m
  end.

(** What can happen to the loading manager: a call of [updateProgress]
    or a timer that fires. *)
Inductive Event :=
| Progress (targetProgress : R)
| Timer (i : nat).

Definition handle (m : Manager) (e : Event) : Manager :=
  match e with
  | Progress targetProgress => updateProgress targetProgress m
  | Timer i => runTimeout i m
  end.

(** [new LoadingManager()] as far as the progress goes, on a page in
    which the [DOMContentLoaded] handler has locked the scrolling. *)
Definition newManager (screen bar text : bool) : Manager :=
  {| loadingScreen := screen; progressBar := bar; percentageText := text;
     progress := 0; isComplete := false; barWidth := None;
     percentage := None; screenLoaded := false; screenHidden := false;
     isLoaded := false; bodyOverflow := "hidden"; timeouts := [];
     appInits := 0 |}.

(** The loading simulation of the [DOMContentLoaded] handler: the
    variable [progress] of the closure, whether the interval is still
    set, and the loading manager. *)
Record Simulation := {
  sim_progress : R;
  loadingInterval : bool;
  loadingManager : Manager
}.

(** One run of the interval callback; a cleared interval runs no more. *)
Definition simulate (s : Simulation) : Script Simulation :=
  if loadingInterval s then
    r ← Math_random;
    let progress1 := sim_progress s + (r * 15 + 5) in
    mret {| sim_progress := progress1;
            loadingInterval := negb (bool_decide (progress1 >= 100));
            loadingManager :=
              updateProgress (JS.Math_min progress1 100) (loadingManager s) |}
  else mret s.

(** [n] runs of the interval callback. *)
Fixpoint simulation (n : nat) (s : Simulation) : Script Simulation :=
  match n with
  | O => mret s
  | S n' => s1 ← simulate s; simulation n' s1
  end.

(** The state in which the [DOMContentLoaded] handler sets the interval. *)
Definition newSimulation (m : Manager) : Simulation :=
  {| sim_progress := 0; loadingInterval := true; loadingManager := m |}.


End Loading.

(** ** Counters: [AnimationManager.animateCounter] (the same in both copies) *)

Module Counter.

(** The closure of one call of [animateCounter(element)]: [target] is
    the integer that [parseInt] reads from the attribute [data-target]
    (a text that holds no number is outside the model), [current] the
    running value, [timer] whether the interval is still set, and
    [textContent] the integer the element shows ([None]: the text it
    had before). *)
Record State := {
  target : Z;
  current : R;
  timer : bool;
  textContent : option Z
}.

Definition duration : R := 2000.

Section Rounded.

(** The rounding of an exact result to a double. *)
Variable fl : R -> R.

(** [const step = target / (duration / 16)]; [duration / 16] is 125
    exactly. *)
Definition step (target : Z) : R := fl (IZR target / (duration / 16)).

(** One run of the interval callback, [current += step] with its
    rounding; a cleared interval runs no more. *)
Definition tick (c : State) : State :=
  if timer c then
    let current1 := fl (current c + step (target c)) in
    if decide (current1 >= IZR (target c)) then
      {| target := target c; current := IZR (target c); timer := false;
         textContent := Some (JS.Math_floor (IZR (target c))) |}
    else
      {| target := target c; current := current1; timer := true;
         textContent := Some (JS.Math_floor current1) |}
  else c.

End Rounded.

(** [animateCounter(element)] up to the first run of the interval. *)
Definition animateCounter (target : Z) : State :=
  {| target := target; current := 0; timer := true; textContent := None |}.

End Counter.

(** ** The navigation: class [NavigationManager] *)

Module Navigation.

(** An element of [this.sections]. *)
Record Section_ := {
  sec_id : string;
  offsetTop : R;
  offsetHeight : R
}.

(** An element of [this.navLinks]: its [href] and whether it carries
    the class ['active']. *)
Record Link := {
  href : string;
  active : bool
}.

(** The [NavigationManager] and the parts of the page it writes to.
    [navMenu] and [navToggle] are the elements [#nav-menu] and
    [#nav-toggle] ([part_000] only): [None] when the page has none,
    otherwise whether the element carries the class ['active'].
    [bodyOverflow] is [document.body.style.overflow], [scrollTarget] the
    [top] of the last [window.scrollTo], [appCurrentSection] is
    [appState.currentSection]. *)
Record Nav := {
  sections : list Section_;
  navLinks : list Link;
  navMenu : option bool;
  navToggle : option bool;
  currentSection : string;
  isMenuOpen : bool;
  bodyOverflow : string;
  scrollTarget : option R;
  appCurrentSection : string
}.

(** [NavigationManager.toggleMenu] ([part_000]). *)
Definition toggleMenu (n : Nav) : Nav :=
  {| sections := sections n; navLinks := navLinks n;
     navMenu := negb <$> navMenu n; navToggle := negb <$> navToggle n;
     currentSection := currentSection n;
     isMenuOpen := negb (isMenuOpen n);
     bodyOverflow := if negb (isMenuOpen n) then "hidden" else "auto";
     scrollTarget := scrollTarget n;
     appCurrentSection := appCurrentSection n |}.

(** [NavigationManager.closeMenu] ([part_000]). *)
Definition closeMenu (n : Nav) : Nav :=
  {| sections := sections n; navLinks := navLinks n;
     navMenu := (fun _ => false) <$> navMenu n;
     navToggle := (fun _ => false) <$> navToggle n;
     currentSection := currentSection n;
     isMenuOpen := false; bodyOverflow := "auto";
     scrollTarget := scrollTarget n;
     appCurrentSection := appCurrentSection n |}.

(** [document.getElementById(sectionId)], looked up among the sections. *)
Definition getSection (n : Nav) (sectionId : string) : option Section_ :=
  head (filter (fun s => sec_id s = sectionId) (sections n)).

(** [NavigationManager.scrollToSection] (both copies). *)
Definition scrollToSection (sectionId : string) (n : Nav) : Nav :=
  match getSection n sectionId with
  | Some section =>
      {| sections := sections n; navLinks := navLinks n;
         navMenu := navMenu n; navToggle := navToggle n;
         currentSection := currentSection n;
         isMenuOpen := isMenuOpen n; bodyOverflow := bodyOverflow n;
         scrollTarget := Some (offsetTop section - 80);
         appCurrentSection := sectionId |}
  | None => n
  end.

(** The global function [scrollToSection] of [part_000]: it closes the
    menu by hand, on the elements. *)
Definition globalScrollToSection (sectionId : string) (n : Nav) : Nav :=
  match getSection n sectionId with
  | Some section =>
      let shown := bool_decide (navMenu n = Some true) in
      {| sections := sections n; navLinks := navLinks n;
         navMenu := if shown then Some false else navMenu n;
         navToggle :=
           if shown then (fun _ => false) <$> navToggle n else navToggle n;
         currentSection := currentSection n;
         isMenuOpen := isMenuOpen n;
         bodyOverflow := if shown then "auto" else bodyOverflow n;
         scrollTarget := Some (offsetTop section - 80);
         appCurrentSection := sectionId |}
  | None => n
  end.

(** The click handler of a navigation link of [part_000] whose [href]
    is ['#' + targetId]. *)
Definition clickLink (targetId : string) (n : Nav) : Nav :=
  closeMenu (scrollToSection targetId n).

(** The section found by the loop of [updateActiveLink] at the scroll
    position [scrollY]: the last section whose band holds it, ['home']
    when there is none. *)
Definition locate (scrollY : R) (ss : list Section_) : string :=
  foldl (fun currentSection section =>
           let sectionTop := offsetTop section - 150 in
           let sectionBottom := sectionTop + offsetHeight section in
           if bool_decide (scrollY >= sectionTop)
              && bool_decide (scrollY < sectionBottom)
           then sec_id section else currentSection)
        "home" ss.

(** [NavigationManager.updateActiveLink] (both copies). *)
Definition updateActiveLink (scrollY : R) (n : Nav) : Nav :=
  let currentSection1 := locate scrollY (sections n) in
  if decide (currentSection1 <> currentSection n) then
    {| sections := sections n;
       navLinks :=
         (fun link =>
            {| href := href link;
               active := bool_decide (href link = "#" +:+ currentSection1) |})
           <$> navLinks n;
       navMenu := navMenu n; navToggle := navToggle n;
       currentSection := currentSection1;
       isMenuOpen := isMenuOpen n; bodyOverflow := bodyOverflow n;
       scrollTarget := scrollTarget n;
       appCurrentSection := currentSection1 |}
  else n.

End Navigation.

(** ** The scenes of [src/unnamed/part_000] *)

Module Part000.

(** An entry of [particle.connections]: [{ particle: other, opacity }].
    [other] is a reference to an element of [this.particles]; it is
    modelled by the index of that element in the array. *)
Record Connection := {
  c_particle : nat;
  c_opacity : R
}.

Record Particle := {
  p_x : R;
  p_y : R;
  p_z : R;
  p_size : R;
  p_speed : R;
  p_angle : R;
  p_opacity : R;
  p_pulsePhase : R;
  p_connections : list Connection
}.

Record Shape := {
  s_x : R;
  s_y : R;
  s_size : R;
  s_rotation : R;
  s_rotationSpeed : R;
  s_type : Z;
  s_pulse : R;
  s_opacity : R
}.

Definition set_pos (p : Particle) (x y : R) : Particle :=
  {| p_x := x; p_y := y; p_z := p_z p; p_size := p_size p;
     p_speed := p_speed p; p_angle := p_angle p; p_opacity := p_opacity p;
     p_pulsePhase := p_pulsePhase p; p_connections := p_connections p |}.

Definition set_angle (p : Particle) (a : R) : Particle :=
  {| p_x := p_x p; p_y := p_y p; p_z := p_z p; p_size := p_size p;
     p_speed := p_speed p; p_angle := a; p_opacity := p_opacity p;
     p_pulsePhase := p_pulsePhase p; p_connections := p_connections p |}.

Definition set_pulsePhase (p : Particle) (ph : R) : Particle :=
  {| p_x := p_x p; p_y := p_y p; p_z := p_z p; p_size := p_size p;
     p_speed := p_speed p; p_angle := p_angle p; p_opacity := p_opacity p;
     p_pulsePhase := ph; p_connections := p_connections p |}.

Definition set_connections (p : Particle) (cs : list Connection) : Particle :=
  {| p_x := p_x p; p_y := p_y p; p_z := p_z p; p_size := p_size p;
     p_speed := p_speed p; p_angle := p_angle p; p_opacity := p_opacity p;
     p_pulsePhase := p_pulsePhase p; p_connections := cs |}.

(** [mouseDistance] of [HeroScene.update]. *)
Definition mouseDistance (mouseX mouseY : R) (p : Particle) : R :=
  JS.distance mouseX mouseY (p_x p) (p_y p).

(** [mouseForce], defined in the source only under [mouseDistance < 100]. *)
Definition mouseForce (d : R) : R := (100 - d) / 100.

(** Lines 452-462: the pointer interaction. *)
Definition repel (mouseX mouseY : R) (p : Particle) : Particle :=
  let d := mouseDistance mouseX mouseY p in
  if decide (d < 100) then
    let angle := JS.Math_atan2 (p_y p - mouseY) (p_x p - mouseX) in
    set_pos p (p_x p + cos angle * mouseForce d * 2)
              (p_y p + sin angle * mouseForce d * 2)
  else p.

(** Lines 464-466: integration of the position, advance of the pulse. *)
Definition integrate (p : Particle) : Particle :=
  set_pulsePhase
    (set_pos p (p_x p + cos (p_angle p) * p_speed p)
               (p_y p + sin (p_angle p) * p_speed p))
    (p_pulsePhase p + 0.05).

(** Lines 468-469: the heading is mirrored per axis. *)
Definition reflect (rect : DOMRect) (p : Particle) : Particle :=
  let p1 :=
    if bool_decide (p_x p < 0) || bool_decide (p_x p > rect_width rect)
    then set_angle p (PI - p_angle p) else p in
  if bool_decide (p_y p1 < 0) || bool_decide (p_y p1 > rect_height rect)
  then set_angle p1 (- p_angle p1) else p1.

(** Lines 471-472: the clamp. *)
Definition clamp (rect : DOMRect) (p : Particle) : Particle :=
  set_pos p (JS.Math_max 0 (JS.Math_min (rect_width rect) (p_x p)))
            (JS.Math_max 0 (JS.Math_min (rect_height rect) (p_y p))).

(** The motion of one particle in one frame, before its connections
    are rebuilt. *)
Definition move (rect : DOMRect) (mouseX mouseY : R) (p : Particle) : Particle :=
  clamp rect (reflect rect (integrate (repel mouseX mouseY p))).

(** Opacity of a recorded connection, [(120 - distance) / 120]. *)
Definition connectionOpacity (distance : R) : R := (120 - distance) / 120.

(** The body of the inner loop (lines 477-488) at index [j]. *)
Definition connect1 (particles : list Particle) (p : Particle) (j : nat)
  : list Connection :=
  match particles !! j with
  | Some other =>
      let distance := JS.distance (p_x p) (p_y p) (p_x other) (p_y other) in
      if decide (distance < 120)
      then [ {| c_particle := j; c_opacity := connectionOpacity distance |} ]
      else []
  | None => []
  end.

(** Lines 475-489: [for (let j = i + 1; j < this.particles.length; j++)]. *)
Definition connect (particles : list Particle) (p : Particle) (i : nat)
  : list Connection :=
  flat_map (connect1 particles p) (seq (S i) (length particles - S i)).

(** The callback of [this.particles.forEach((particle, i) => ...)]: it
    mutates element [i] of the array in place and reads the elements
    after it. *)
Definition visit (rect : DOMRect) (mouseX mouseY : R)
    (particles : list Particle) (i : nat) : list Particle :=
  match particles !! i with
  | Some particle =>
      let moved := move rect mouseX mouseY particle in
      let particles1 := <[ i := moved ]> particles in
      <[ i := set_connections moved (connect particles1 moved i) ]> particles1
  | None => particles
  end.

(** [forEach] visits the indices in ascending order. *)
Definition updateParticles (rect : DOMRect) (mouseX mouseY : R)
    (particles : list Particle) : list Particle :=
  foldl (visit rect mouseX mouseY) particles (seq 0 (length particles)).

(** Lines 493-496. *)
Definition updateShape (shape : Shape) : Shape :=
  {| s_x := s_x shape; s_y := s_y shape; s_size := s_size shape;
     s_rotation := s_rotation shape + s_rotationSpeed shape;
     s_rotationSpeed := s_rotationSpeed shape; s_type := s_type shape;
     s_pulse := s_pulse shape + 0.03; s_opacity := s_opacity shape |}.


(** *** [HeroScene] *)

(** The fields [HeroScene] adds once its constructor has assigned them
    ([this.connections = []] is never used again and is left out).
    While the base constructor runs the scene has none of them: its
    [ext] is [None]. *)
Record HeroFields := {
  particles : list Particle;
  shapes : list Shape
}.

(** [HeroScene.update]. *)
Definition HeroScene_update : Hook (option HeroFields) := fun s g =>
  match canvas s with
  | None => Normal (ext s, g)
  | Some c =>
      let rect := boundingClientRect c in
      let mouseX := fst (mousePosition g) - rect_left rect in
      let mouseY := snd (mousePosition g) - rect_top rect in
      match ext s with
      | None => Thrown (None, g)
      | Some f =>
          Normal
            (Some {| particles :=
                       updateParticles rect mouseX mouseY (particles f);
                     shapes := map updateShape (shapes f) |}, g)
      end
  end.

(** Lines 507-517: one connection line. *)
Definition drawConnection (ps : list Particle) (particle : Particle)
    (connection : Connection) : Script unit :=
  ctx_do Save;;
  ctx_do (GlobalAlpha (c_opacity connection * 0.3));;
  ctx_do (StrokeStyle "#32b8c6");;
  ctx_do (LineWidth 1);;
  ctx_do BeginPath;;
  ctx_do (MoveTo (p_x particle) (p_y particle));;
  match ps !! c_particle connection with
  | Some other => ctx_do (LineTo (p_x other) (p_y other))
  | None => mret tt
  end;;
  ctx_do Stroke;;
  ctx_do Restore.

(** Lines 521-533: one particle. *)
Definition drawParticle (particle : Particle) : Script unit :=
  ctx_do Save;;
  let pulse := sin (p_pulsePhase particle) * 0.3 + 0.7 in
  ctx_do (GlobalAlpha (p_opacity particle * pulse));;
  ctx_do (FillStyle "#32b8c6");;
  ctx_do (ShadowColor "#32b8c6");;
  ctx_do (ShadowBlur 8);;
  ctx_do BeginPath;;
  ctx_do (Arc (p_x particle) (p_y particle) (p_size particle * pulse) 0 (PI * 2));;
  ctx_do Fill;;
  ctx_do Restore.

(** Lines 536-579: one shape. *)
Definition drawShape (shape : Shape) : Script unit :=
  ctx_do Save;;
  ctx_do (Translate (s_x shape) (s_y shape));;
  ctx_do (Rotate (s_rotation shape));;
  let pulse := sin (s_pulse shape) * 0.2 + 0.8 in
  ctx_do (GlobalAlpha (s_opacity shape * pulse));;
  ctx_do (StrokeStyle "#32b8c6");;
  ctx_do (LineWidth 2);;
  ctx_do (ShadowColor "#32b8c6");;
  ctx_do (ShadowBlur 15);;
  let size := s_size shape * pulse in
  (if decide (s_type shape = 0%Z) then
     ctx_do (StrokeRect (- size / 2) (- size / 2) size size)
   else if decide (s_type shape = 1%Z) then
     ctx_do BeginPath;;
     ctx_do (Arc 0 0 (size / 2) 0 (PI * 2));;
     ctx_do Stroke
   else if decide (s_type shape = 2%Z) then
     ctx_do BeginPath;;
     ctx_do (MoveTo 0 (- size / 2));;
     ctx_do (LineTo (- size / 2) (size / 2));;
     ctx_do (LineTo (size / 2) (size / 2));;
     ctx_do ClosePath;;
     ctx_do Stroke
   else if decide (s_type shape = 3%Z) then
     ctx_do BeginPath;;
     ctx_do (MoveTo 0 (- size / 2));;
     ctx_do (LineTo (size / 2) 0);;
     ctx_do (LineTo 0 (size / 2));;
     ctx_do (LineTo (- size / 2) 0);;
     ctx_do ClosePath;;
     ctx_do Stroke
   else mret tt);;
  ctx_do Restore.

(** [HeroScene.render]. *)
Definition HeroScene_render : Hook (option HeroFields) := fun s g =>
  if negb (ctx s) then Normal (ext s, g)
  else
    match canvas s with
    | None => Thrown (ext s, g)
    | Some c =>
        let rect := boundingClientRect c in
        let g1 :=
          snd (ctx_do (ClearRect 0 0 (rect_width rect) (rect_height rect)) g) in
        match ext s with
        | None => Thrown (None, g1)
        | Some f =>
            let script :=
              forEach (particles f) (fun particle =>
                forEach (p_connections particle)
                  (drawConnection (particles f) particle));;
              forEach (particles f) drawParticle;;
              forEach (shapes f) drawShape in
            Normal (Some f, snd (script g1))
        end
    end.

(** One round of the first loop of [initializeElements]; the properties
    of the object literal are evaluated in the order they are written. *)
Definition newParticle (rect_w rect_h : R) : Script Particle :=
  x ← Math_random; y ← Math_random; z ← Math_random; size ← Math_random;
  speed ← Math_random; angle ← Math_random; opacity ← Math_random;
  pulsePhase ← Math_random;
  mret {| p_x := x * rect_w; p_y := y * rect_h; p_z := z * 100;
          p_size := size * 3 + 1; p_speed := speed * 0.5 + 0.1;
          p_angle := angle * PI * 2; p_opacity := opacity * 0.5 + 0.3;
          p_pulsePhase := pulsePhase * PI * 2; p_connections := [] |}.

(** One round of the second loop. *)
Definition newShape (rect_w rect_h : R) : Script Shape :=
  x ← Math_random; y ← Math_random; size ← Math_random;
  rotation ← Math_random; rotationSpeed ← Math_random; type ← Math_random;
  pulse ← Math_random; opacity ← Math_random;
  mret {| s_x := x * rect_w; s_y := y * rect_h; s_size := size * 60 + 30;
          s_rotation := rotation * PI * 2;
          s_rotationSpeed := (rotationSpeed - 0.5) * 0.02;
          s_type := JS.Math_floor (type * 4);
          s_pulse := pulse * PI * 2; s_opacity := opacity * 0.4 + 0.3 |}.

(** [HeroScene.initializeElements]:
    [this.canvas?.getBoundingClientRect() || { width: 800, height: 600 }]. *)
Definition initializeElements {X} (s : Scene3D X) : Script HeroFields :=
  let '(rect_w, rect_h) :=
    match canvas s with
    | Some c => (rect_width (boundingClientRect c),
                 rect_height (boundingClientRect c))
    | None => (800, 600)
    end in
  ps ← forEachCollect (seq 0 (options_particleCount s))
         (fun _ => newParticle rect_w rect_h);
  ss ← forEachCollect (seq 0 8) (fun _ => newShape rect_w rect_h);
  mret {| particles := ps; shapes := ss |}.

(** [new HeroScene(canvas)]: the base constructor runs first, with the
    overriding [update] and [render] already in place and the fields of
    the subclass still unassigned. *)
Definition new_HeroScene (c : option Canvas) (g : Globals) (next : positive)
  : Outcome (World (option HeroFields)) :=
  andThen
    (construct part_000 HeroScene_update HeroScene_render c
       (if isMobile g then 80%nat else 150%nat) "default" None g next)
    (fun w =>
       let '(f, g1) := initializeElements (scene w) (globals w) in
       Normal (set_globals (set_scene w (set_ext (scene w) (Some f))) g1)).

(** *** [Scene3D] itself *)

(** [Scene3D.update]: empty. *)
Definition Scene3D_update {X} : Hook X := fun s g => Normal (ext s, g).

(** [Scene3D.renderDefault]. *)
Definition renderDefault (rect : DOMRect) (time : R) : Script unit :=
  let centerX := rect_width rect / 2 in
  let centerY := rect_height rect / 2 in
  ctx_do Save;;
  ctx_do (Translate centerX centerY);;
  ctx_do (Rotate time);;
  let size := 30 in
  ctx_do (StrokeStyle "#32b8c6");;
  ctx_do (LineWidth 2);;
  ctx_do (ShadowColor "#32b8c6");;
  ctx_do (ShadowBlur 10);;
  ctx_do (StrokeRect (- size) (- size) (size * 2) (size * 2));;
  ctx_do (Rotate (- time * 2));;
  ctx_do (StrokeStyle "rgba(50, 184, 198, 0.5)");;
  ctx_do (StrokeRect (- size * 0.7) (- size * 0.7) (size * 1.4) (size * 1.4));;
  ctx_do Restore.

(** [Scene3D.render]. *)
Definition Scene3D_render {X} : Hook X := fun s g =>
  if negb (ctx s) then Normal (ext s, g)
  else
    match canvas s with
    | None => Thrown (ext s, g)
    | Some c =>
        let rect := boundingClientRect c in
        let script :=
          ctx_do (ClearRect 0 0 (rect_width rect) (rect_height rect));;
          renderDefault rect (time s) in
        Normal (ext s, snd (script g))
    end.

(** [new Scene3D(canvas)]. *)
Definition new_Scene3D (c : option Canvas) (g : Globals) (next : positive)
  : Outcome (World unit) :=
  construct part_000 Scene3D_update Scene3D_render c 50%nat "default" tt g next.

(** *** [CanvasScene] *)

Record Element := {
  e_x : R;
  e_y : R;
  e_size : R;
  e_angle : R;
  e_speed : R;
  e_opacity : R;
  e_type : Z
}.

(** One round of the loop of [initElements]. *)
Definition newElement : Script Element :=
  x ← Math_random; y ← Math_random; size ← Math_random; angle ← Math_random;
  speed ← Math_random; opacity ← Math_random; type ← Math_random;
  mret {| e_x := x * 200 - 100; e_y := y * 200 - 100; e_size := size * 20 + 5;
          e_angle := angle * PI * 2; e_speed := speed * 0.02 + 0.01;
          e_opacity := opacity * 0.5 + 0.3;
          e_type := JS.Math_floor (type * 3) |}.

(** [CanvasScene.initElements]. *)
Definition initElements : Script (list Element) :=
  fun g =>
    let elementCount := if isMobile g then 15%nat else 25%nat in
    forEachCollect (seq 0 elementCount) (fun _ => newElement) g.

(** [CanvasScene.renderHologram]. *)
Definition renderHologram (time : R) : Script unit :=
  ctx_do (StrokeStyle "#32b8c6");;
  ctx_do (LineWidth 2);;
  ctx_do (ShadowColor "#32b8c6");;
  ctx_do (ShadowBlur 15);;
  for_upto 3 (fun i =>
    ctx_do Save;;
    ctx_do (Rotate (time + INR i * PI / 3));;
    ctx_do (GlobalAlpha (0.8 - INR i * 0.2));;
    let size := 40 + INR i * 20 in
    ctx_do (StrokeRect (- size) (- size) (size * 2) (size * 2));;
    ctx_do (StrokeRect (- size * 0.6) (- size * 0.6) (size * 1.2) (size * 1.2));;
    ctx_do Restore);;
  ctx_do Save;;
  ctx_do (GlobalAlpha 0.3);;
  ctx_do (StrokeStyle "#32b8c6");;
  ctx_do (LineWidth 1);;
  for_upto 8 (fun i =>
    let y := - 60 + (INR i * 15) + JS.rem (time * 20) 120 in
    ctx_do BeginPath;;
    ctx_do (MoveTo (- 60) y);;
    ctx_do (LineTo 60 y);;
    ctx_do Stroke);;
  ctx_do Restore.

(** The body of the two nested [positions.forEach] of [renderNetwork]. *)
Definition drawLink (radius : R) (a b : nat * (R * R)) : Script unit :=
  let '(i, (x1, y1)) := a in
  let '(j, (x2, y2)) := b in
  if decide (i <> j) then
    let distance := JS.distance x1 y1 x2 y2 in
    if decide (distance < radius * 1.2) then
      ctx_do BeginPath;;
      ctx_do (MoveTo x1 y1);;
      ctx_do (LineTo x2 y2);;
      ctx_do Stroke
    else mret tt
  else mret tt.

(** [CanvasScene.renderNetwork]. *)
Definition renderNetwork (time : R) : Script unit :=
  let nodes := 12%nat in
  let radius := 80 in
  ctx_do (StrokeStyle "#32b8c6");;
  ctx_do (FillStyle "#32b8c6");;
  ctx_do (LineWidth 1);;
  ctx_do (ShadowColor "#32b8c6");;
  ctx_do (ShadowBlur 8);;
  positions ← forEachCollect (seq 0 nodes) (fun i =>
    let angle := (INR i / INR nodes) * PI * 2 + time * 0.5 in
    let x := cos angle * radius in
    let y := sin angle * radius in
    let pulse := sin (time * 2 + INR i) * 0.5 + 1 in
    ctx_do Save;;
    ctx_do (GlobalAlpha 0.8);;
    ctx_do BeginPath;;
    ctx_do (Arc x y (4 * pulse) 0 (PI * 2));;
    ctx_do Fill;;
    ctx_do Restore;;
    mret (x, y));
  ctx_do (GlobalAlpha 0.4);;
  forEach (indexed positions) (fun pos1 =>
    forEach (indexed positions) (fun pos2 => drawLink radius pos1 pos2));;
  ctx_do Save;;
  ctx_do (GlobalAlpha 0.6);;
  ctx_do (FillStyle "#32b8c6");;
  ctx_do (ShadowBlur 20);;
  let coreSize := 8 + sin (time * 3) * 3 in
  ctx_do BeginPath;;
  ctx_do (Arc 0 0 coreSize 0 (PI * 2));;
  ctx_do Fill;;
  ctx_do Restore.

(** The callback of [this.elements.forEach((element, i) => ...)] in
    [renderParticleSystem]; it advances the element's angle in place. *)
Definition drawElement (time : R) (ie : nat * Element) : Script Element :=
  let '(i, element) := ie in
  let element' :=
    {| e_x := e_x element; e_y := e_y element; e_size := e_size element;
       e_angle := e_angle element + e_speed element;
       e_speed := e_speed element; e_opacity := e_opacity element;
       e_type := e_type element |} in
  let distance := 40 + sin (time * 2 + INR i) * 25 in
  let x := cos (e_angle element') * distance in
  let y := sin (e_angle element') * distance in
  let size := e_size element' * (0.8 + sin (time * 3 + INR i) * 0.4) in
  ctx_do Save;;
  ctx_do (GlobalAlpha (e_opacity element'));;
  ctx_do (FillStyle "#32b8c6");;
  ctx_do (ShadowColor "#32b8c6");;
  ctx_do (ShadowBlur 10);;
  ctx_do BeginPath;;
  ctx_do (Arc x y (size * 0.3) 0 (PI * 2));;
  ctx_do Fill;;
  ctx_do Restore;;
  mret element'.

(** [CanvasScene.renderParticleSystem]. *)
Definition renderParticleSystem (time : R) (elements : list Element)
  : Script (list Element) :=
  elements' ← forEachCollect (indexed elements) (drawElement time);
  ctx_do Save;;
  ctx_do (GlobalAlpha 0.3);;
  ctx_do (StrokeStyle "#32b8c6");;
  ctx_do (LineWidth 2);;
  for_upto 3 (fun i =>
    let radius := 30 + INR i * 20 + JS.rem (time * 30) 60 in
    ctx_do BeginPath;;
    ctx_do (Arc 0 0 radius 0 (PI * 2));;
    ctx_do Stroke);;
  ctx_do Restore;;
  mret elements'.

(** A node of the layered network: [{ x, y, activation }]. *)
Record Node := {
  n_x : R;
  n_y : R;
  n_activation : R
}.

(** [CanvasScene.renderNeuralNetwork]. *)
Definition renderNeuralNetwork (time : R) : Script unit :=
  let layers := [6; 8; 6; 4]%nat in
  let layerSpacing := 120 in
  let nodeSpacing := 30 in
  ctx_do (StrokeStyle "#32b8c6");;
  ctx_do (FillStyle "#32b8c6");;
  ctx_do (LineWidth 1);;
  ctx_do (ShadowColor "#32b8c6");;
  ctx_do (ShadowBlur 5);;
  allNodes ← forEachCollect (indexed layers) (fun il =>
    let '(layerIndex, nodeCount) := il in
    let startY := - (INR nodeCount - 1) * nodeSpacing / 2 in
    let x := - layerSpacing * (INR (length layers) - 1) / 2
             + INR layerIndex * layerSpacing in
    forEachCollect (seq 0 nodeCount) (fun i =>
      let y := startY + INR i * nodeSpacing in
      let activation := sin (time * 2 + INR layerIndex + INR i) * 0.5 + 0.5 in
      ctx_do Save;;
      ctx_do (GlobalAlpha (0.3 + activation * 0.7));;
      ctx_do BeginPath;;
      ctx_do (Arc x y 6 0 (PI * 2));;
      ctx_do Fill;;
      ctx_do Restore;;
      mret {| n_x := x; n_y := y; n_activation := activation |}));
  ctx_do (GlobalAlpha 0.2);;
  for_upto (length allNodes - 1) (fun i =>
    forEach (default [] (allNodes !! i)) (fun node1 =>
      forEach (default [] (allNodes !! S i)) (fun node2 =>
        let strength := (n_activation node1 + n_activation node2) / 2 in
        ctx_do Save;;
        ctx_do (GlobalAlpha (0.1 + strength * 0.3));;
        ctx_do BeginPath;;
        ctx_do (MoveTo (n_x node1) (n_y node1));;
        ctx_do (LineTo (n_x node2) (n_y node2));;
        ctx_do Stroke;;
        ctx_do Restore))).

(** [CanvasScene.render].  [this.elements] is [None] while the base
    constructor runs; only [renderParticleSystem] touches it. *)
Definition CanvasScene_render : Hook (option (list Element)) := fun s g =>
  if negb (ctx s) then Normal (ext s, g)
  else
    match canvas s with
    | None => Thrown (ext s, g)
    | Some c =>
        let rect := boundingClientRect c in
        let centerX := rect_width rect / 2 in
        let centerY := rect_height rect / 2 in
        let prologue :=
          ctx_do (ClearRect 0 0 (rect_width rect) (rect_height rect));;
          ctx_do Save;;
          ctx_do (Translate centerX centerY) in
        let g1 := snd (prologue g) in
        if decide (options_type s = "hologram") then
          Normal (ext s, snd ((renderHologram (time s);; ctx_do Restore) g1))
        else if decide (options_type s = "network") then
          Normal (ext s, snd ((renderNetwork (time s);; ctx_do Restore) g1))
        else if decide (options_type s = "particle") then
          match ext s with
          | None => Thrown (None, g1)
          | Some elements =>
              let '(elements', g2) :=
                (es ← renderParticleSystem (time s) elements;
                 ctx_do Restore;; mret es) g1 in
              Normal (Some elements', g2)
          end
        else if decide (options_type s = "neural") then
          Normal (ext s, snd ((renderNeuralNetwork (time s);; ctx_do Restore) g1))
        else
          Normal (ext s, snd ((renderDefault rect (time s);; ctx_do Restore) g1))
    end.

(** [new CanvasScene(canvas, type)]. *)
Definition new_CanvasScene (c : option Canvas) (type : string) (g : Globals)
    (next : positive) : Outcome (World (option (list Element))) :=
  andThen
    (construct part_000 Scene3D_update CanvasScene_render c 50%nat type None
       g next)
    (fun w =>
       let '(elements, g1) := initElements (globals w) in
       Normal (set_globals (set_scene w (set_ext (scene w) (Some elements))) g1)).
End Part000.

(** ** The scenes of [src/app.js] *)

Module AppJs.

Record Particle := {
  p_x : R;
  p_y : R;
  p_size : R;
  p_speed : R;
  p_angle : R;
  p_opacity : R
}.

Record Shape := {
  s_x : R;
  s_y : R;
  s_size : R;
  s_rotation : R;
  s_rotationSpeed : R;
  s_type : Z
}.

Definition set_pos (p : Particle) (x y : R) : Particle :=
  {| p_x := x; p_y := y; p_size := p_size p; p_speed := p_speed p;
     p_angle := p_angle p; p_opacity := p_opacity p |}.

Definition set_angle (p : Particle) (a : R) : Particle :=
  {| p_x := p_x p; p_y := p_y p; p_size := p_size p; p_speed := p_speed p;
     p_angle := a; p_opacity := p_opacity p |}.

(** Lines 441-442. *)
Definition integrate (p : Particle) : Particle :=
  set_pos p (p_x p + cos (p_angle p) * p_speed p)
            (p_y p + sin (p_angle p) * p_speed p).

(** Lines 444-445. *)
Definition reflect (width height : R) (p : Particle) : Particle :=
  let p1 :=
    if bool_decide (p_x p < 0) || bool_decide (p_x p > width)
    then set_angle p (PI - p_angle p) else p in
  if bool_decide (p_y p1 < 0) || bool_decide (p_y p1 > height)
  then set_angle p1 (- p_angle p1) else p1.

(** Lines 447-448. *)
Definition clamp (width height : R) (p : Particle) : Particle :=
  set_pos p (JS.Math_max 0 (JS.Math_min width (p_x p)))
            (JS.Math_max 0 (JS.Math_min height (p_y p))).

(** The callback of [this.particles.forEach(particle => ...)]. *)
Definition move (width height : R) (p : Particle) : Particle :=
  clamp width height (reflect width height (integrate p)).

Definition updateParticles (width height : R) (particles : list Particle)
  : list Particle :=
  map (move width height) particles.

(** Lines 452-454. *)
Definition updateShape (shape : Shape) : Shape :=
  {| s_x := s_x shape; s_y := s_y shape; s_size := s_size shape;
     s_rotation := s_rotation shape + s_rotationSpeed shape;
     s_rotationSpeed := s_rotationSpeed shape; s_type := s_type shape |}.


(** *** [HeroScene] *)

(** The fields [HeroScene] adds once its constructor has assigned them;
    [ext] is [None] while the base constructor runs. *)
Record HeroFields := {
  particles : list Particle;
  shapes : list Shape
}.

(** [HeroScene.update]. *)
Definition HeroScene_update : Hook (option HeroFields) := fun s g =>
  match canvas s with
  | None => Normal (ext s, g)
  | Some c =>
      let width := clientWidth c in
      let height := clientHeight c in
      match ext s with
      | None => Thrown (None, g)
      | Some f =>
          Normal
            (Some {| particles := updateParticles width height (particles f);
                     shapes := map updateShape (shapes f) |}, g)
      end
  end.

(** Lines 466-477: one particle. *)
Definition drawParticle (particle : Particle) : Script unit :=
  ctx_do Save;;
  ctx_do (GlobalAlpha (p_opacity particle));;
  ctx_do (FillStyle "#32b8c6");;
  ctx_do (ShadowColor "#32b8c6");;
  ctx_do (ShadowBlur 5);;
  ctx_do BeginPath;;
  ctx_do (Arc (p_x particle) (p_y particle) (p_size particle) 0 (PI * 2));;
  ctx_do Fill;;
  ctx_do Restore.

(** Lines 480-512: one shape. *)
Definition drawShape (shape : Shape) : Script unit :=
  ctx_do Save;;
  ctx_do (Translate (s_x shape) (s_y shape));;
  ctx_do (Rotate (s_rotation shape));;
  ctx_do (StrokeStyle "#32b8c6");;
  ctx_do (LineWidth 2);;
  ctx_do (ShadowColor "#32b8c6");;
  ctx_do (ShadowBlur 10);;
  ctx_do (GlobalAlpha 0.7);;
  let size := s_size shape in
  (if decide (s_type shape = 0%Z) then
     ctx_do (StrokeRect (- size / 2) (- size / 2) size size)
   else if decide (s_type shape = 1%Z) then
     ctx_do BeginPath;;
     ctx_do (Arc 0 0 (size / 2) 0 (PI * 2));;
     ctx_do Stroke
   else if decide (s_type shape = 2%Z) then
     ctx_do BeginPath;;
     ctx_do (MoveTo 0 (- size / 2));;
     ctx_do (LineTo (- size / 2) (size / 2));;
     ctx_do (LineTo (size / 2) (size / 2));;
     ctx_do ClosePath;;
     ctx_do Stroke
   else mret tt);;
  ctx_do Restore.

(** [HeroScene.render]. *)
Definition HeroScene_render : Hook (option HeroFields) := fun s g =>
  if negb (ctx s) then Normal (ext s, g)
  else
    match canvas s with
    | None => Thrown (ext s, g)
    | Some c =>
        let width := clientWidth c in
        let height := clientHeight c in
        let g1 := snd (ctx_do (ClearRect 0 0 width height) g) in
        match ext s with
        | None => Thrown (None, g1)
        | Some f =>
            let script :=
              forEach (particles f) drawParticle;;
              forEach (shapes f) drawShape in
            Normal (Some f, snd (script g1))
        end
    end.

(** One round of the first loop of [initializeElements], with
    [w = this.canvas?.clientWidth || 800] and
    [h = this.canvas?.clientHeight || 600]. *)
Definition newParticle (w h : R) : Script Particle :=
  x ← Math_random; y ← Math_random; size ← Math_random;
  speed ← Math_random; angle ← Math_random; opacity ← Math_random;
  mret {| p_x := x * w; p_y := y * h; p_size := size * 3 + 1;
          p_speed := speed * 0.5 + 0.1; p_angle := angle * PI * 2;
          p_opacity := opacity * 0.5 + 0.2 |}.

(** One round of the second loop. *)
Definition newShape (w h : R) : Script Shape :=
  x ← Math_random; y ← Math_random; size ← Math_random;
  rotation ← Math_random; rotationSpeed ← Math_random; type ← Math_random;
  mret {| s_x := x * w; s_y := y * h; s_size := size * 40 + 20;
          s_rotation := rotation * PI * 2;
          s_rotationSpeed := (rotationSpeed - 0.5) * 0.02;
          s_type := JS.Math_floor (type * 3) |}.

(** [HeroScene.initializeElements]. *)
Definition initializeElements {X} (s : Scene3D X) : Script HeroFields :=
  fun g =>
    let particleCount := if isMobile g then 50%nat else 100%nat in
    let w := match canvas s with
             | Some c => JS.or_else (clientWidth c) 800
             | None => 800
             end in
    let h := match canvas s with
             | Some c => JS.or_else (clientHeight c) 600
             | None => 600
             end in
    (ps ← forEachCollect (seq 0 particleCount) (fun _ => newParticle w h);
     ss ← forEachCollect (seq 0 5) (fun _ => newShape w h);
     mret {| particles := ps; shapes := ss |}) g.

(** [new HeroScene(canvas)]. *)
Definition new_HeroScene (c : option Canvas) (g : Globals) (next : positive)
  : Outcome (World (option HeroFields)) :=
  andThen
    (construct app_js HeroScene_update HeroScene_render c 0%nat "" None g next)
    (fun w =>
       let '(f, g1) := initializeElements (scene w) (globals w) in
       Normal (set_globals (set_scene w (set_ext (scene w) (Some f))) g1)).

(** *** [Scene3D] itself *)

(** [Scene3D.update]: empty. *)
Definition Scene3D_update {X} : Hook X := fun s g => Normal (ext s, g).

(** [Scene3D.renderDefault]: the angle is taken from the wall clock. *)
Definition renderDefault (rect : DOMRect) : Script unit :=
  let centerX := rect_width rect / 2 in
  let centerY := rect_height rect / 2 in
  now ← Date_now;
  let time := now * 0.001 in
  ctx_do Save;;
  ctx_do (Translate centerX centerY);;
  ctx_do (Rotate time);;
  let size := 30 in
  ctx_do (StrokeStyle "#32b8c6");;
  ctx_do (LineWidth 2);;
  ctx_do (ShadowColor "#32b8c6");;
  ctx_do (ShadowBlur 10);;
  ctx_do (StrokeRect (- size) (- size) (size * 2) (size * 2));;
  ctx_do (Rotate (- time * 2));;
  ctx_do (StrokeStyle "rgba(50, 184, 198, 0.5)");;
  ctx_do (StrokeRect (- size * 0.7) (- size * 0.7) (size * 1.4) (size * 1.4));;
  ctx_do Restore.

(** [Scene3D.render]. *)
Definition Scene3D_render {X} : Hook X := fun s g =>
  if negb (ctx s) then Normal (ext s, g)
  else
    match canvas s with
    | None => Thrown (ext s, g)
    | Some c =>
        let rect := boundingClientRect c in
        let script :=
          ctx_do (ClearRect 0 0 (rect_width rect) (rect_height rect));;
          renderDefault rect in
        Normal (ext s, snd (script g))
    end.

(** [new Scene3D(canvas)]. *)
Definition new_Scene3D (c : option Canvas) (g : Globals) (next : positive)
  : Outcome (World unit) :=
  construct app_js Scene3D_update Scene3D_render c 0%nat "" tt g next.

(** *** [CanvasScene] *)

(** The fields [CanvasScene] assigns after the base constructor. *)
Record CanvasFields := {
  cs_type : string;
  cs_time : R
}.

(** [CanvasScene.update]: [this.time += 0.01].  While the base
    constructor runs [this.time] is [undefined] and the sum is not a
    number; the constructor then sets [this.time = 0] before anything
    reads it, so the fields stay unassigned here. *)
Definition CanvasScene_update : Hook (option CanvasFields) := fun s g =>
  match ext s with
  | None => Normal (None, g)
  | Some f =>
      Normal (Some {| cs_type := cs_type f; cs_time := cs_time f + 0.01 |}, g)
  end.

(** [CanvasScene.renderHologram]. *)
Definition renderHologram (time : R) : Script unit :=
  ctx_do (StrokeStyle "#32b8c6");;
  ctx_do (LineWidth 2);;
  ctx_do (ShadowColor "#32b8c6");;
  ctx_do (ShadowBlur 15);;
  for_upto 3 (fun i =>
    ctx_do Save;;
    ctx_do (Rotate (time + INR i * PI / 3));;
    ctx_do (GlobalAlpha (0.7 - INR i * 0.2));;
    let size := 40 + INR i * 20 in
    ctx_do (StrokeRect (- size) (- size) (size * 2) (size * 2));;
    ctx_do Restore).

(** The body of the two nested [positions.forEach] of [renderNetwork]:
    [Math.random()] is called only when [i !== j]. *)
Definition drawLink (a b : nat * (R * R)) : Script unit :=
  let '(i, (x1, y1)) := a in
  let '(j, (x2, y2)) := b in
  if decide (i <> j) then
    r ← Math_random;
    if decide (r > 0.7) then
      ctx_do BeginPath;;
      ctx_do (MoveTo x1 y1);;
      ctx_do (LineTo x2 y2);;
      ctx_do Stroke
    else mret tt
  else mret tt.

(** [CanvasScene.renderNetwork]. *)
Definition renderNetwork (time : R) : Script unit :=
  let nodes := 8%nat in
  let radius := 60 in
  ctx_do (StrokeStyle "#32b8c6");;
  ctx_do (FillStyle "#32b8c6");;
  ctx_do (LineWidth 1);;
  ctx_do (ShadowColor "#32b8c6");;
  ctx_do (ShadowBlur 5);;
  positions ← forEachCollect (seq 0 nodes) (fun i =>
    let angle := (INR i / INR nodes) * PI * 2 + time in
    let x := cos angle * radius in
    let y := sin angle * radius in
    ctx_do BeginPath;;
    ctx_do (Arc x y 3 0 (PI * 2));;
    ctx_do Fill;;
    mret (x, y));
  ctx_do (GlobalAlpha 0.3);;
  forEach (indexed positions) (fun pos1 =>
    forEach (indexed positions) (fun pos2 => drawLink pos1 pos2)).

(** [CanvasScene.renderParticleSystem]. *)
Definition renderParticleSystem (time : R) : Script unit :=
  let particles := 20%nat in
  ctx_do (FillStyle "#32b8c6");;
  ctx_do (ShadowColor "#32b8c6");;
  ctx_do (ShadowBlur 8);;
  for_upto particles (fun i =>
    let angle := (INR i / INR particles) * PI * 2 + time in
    let distance := 30 + sin (time * 2 + INR i) * 20 in
    let x := cos angle * distance in
    let y := sin angle * distance in
    let size := 2 + sin (time * 3 + INR i) * 1 in
    ctx_do (GlobalAlpha (0.5 + sin (time * 2 + INR i) * 0.3));;
    ctx_do BeginPath;;
    ctx_do (Arc x y size 0 (PI * 2));;
    ctx_do Fill).

(** [CanvasScene.render]; while the base constructor runs [this.type]
    is [undefined] and the [switch] takes its default branch. *)
Definition CanvasScene_render : Hook (option CanvasFields) := fun s g =>
  if negb (ctx s) then Normal (ext s, g)
  else
    match canvas s with
    | None => Thrown (ext s, g)
    | Some c =>
        let rect := boundingClientRect c in
        let width := rect_width rect in
        let height := rect_height rect in
        let centerX := width / 2 in
        let centerY := height / 2 in
        let prologue :=
          ctx_do (ClearRect 0 0 width height);;
          ctx_do Save;;
          ctx_do (Translate centerX centerY) in
        let pattern :=
          match ext s with
          | None => renderDefault rect
          | Some f =>
              if decide (cs_type f = "hologram") then renderHologram (cs_time f)
              else if decide (cs_type f = "network") then renderNetwork (cs_time f)
              else if decide (cs_type f = "particle")
                   then renderParticleSystem (cs_time f)
              else renderDefault rect
          end in
        Normal (ext s, snd ((prologue;; pattern;; ctx_do Restore) g))
    end.

(** [new CanvasScene(canvas, type)]. *)
Definition new_CanvasScene (c : option Canvas) (type : string) (g : Globals)
    (next : positive) : Outcome (World (option CanvasFields)) :=
  andThen
    (construct app_js CanvasScene_update CanvasScene_render c 0%nat "" None
       g next)
    (fun w =>
       Normal (set_scene w
                 (set_ext (scene w) (Some {| cs_type := type; cs_time := 0 |})))).
End AppJs.

(** ** What a script does to the globals *)

(** The globals after the calls [cmds] have reached the 2D context and
    nothing else has changed. *)
Definition appended (g : Globals) (cmds : list Cmd) : Globals :=
  set_canvasLog g (canvasLog g ++ cmds).

(** A script that only draws: its value and the calls it makes are the
    same whatever the globals (pointer, clocks, source of random numbers,
    earlier drawing), and it changes the globals by these calls only. *)
Definition draws_only {A} (m : Script A) : Prop :=
  exists (a : A) (cmds : list Cmd), forall g, m g = (a, appended g cmds).

(** The same for a method of a scene in a given state: how it ends, the
    fields it leaves and the calls it makes are determined by the scene. *)
Definition deterministic {X} (h : Hook X) (s : Scene3D X) : Prop :=
  exists (thrown : bool) (x : X) (cmds : list Cmd),
    forall g,
      h s g = if thrown then Thrown (x, appended g cmds)
              else Normal (x, appended g cmds).

(** The number of calls the 2D context has received. *)
Definition logLength (g : Globals) : nat := length (canvasLog g).

(** The calls on the 2D context after the method [h] has run. *)
Definition drawnBy {X} (h : Hook X) (s : Scene3D X) (g : Globals) : list Cmd :=
  canvasLog (snd (settle (h s g))).

(** A script that, from globals satisfying [P], yields a value satisfying
    [V], keeps [P], and raises the counter [mu] by [n]. *)
Definition costs {A} (P : Globals -> Prop) (mu : Globals -> nat)
    (m : Script A) (V : A -> Prop) (n : nat) : Prop :=
  forall g, P g ->
    V (fst (m g)) /\ P (snd (m g)) /\ mu (snd (m g)) = (mu g + n)%nat.

(** ** Scenes without a drawing surface *)

(** Whether the constructor obtains a 2D context from its argument: the
    canvas must exist and [getContext('2d')] must not return [null]. *)
Definition has_context (c : option Canvas) : bool :=
  match c with
  | Some cv => context2d cv
  | None => false
  end.

(** A scene that is not running, holds no context, and has neither a
    stored handle nor a pending callback. *)
Definition idle {X} (w : World X) : Prop :=
  ctx (scene w) = false /\ isRunning (scene w) = false /\
  animationId (scene w) = None /\ frameCallbacks w = [].

(** What holds of the outcome [o] of constructing a scene of a class with
    methods [update] and [render] on the surface [c]. *)
Definition constructed_idle {X} (copy : Copy) (update render : Hook X)
    (c : option Canvas) (o : Outcome (World X)) : Prop :=
  exists w,
    o = Normal w /\ canvas (scene w) = c /\ idle w /\
    stop w = w /\ dispose w = w /\
    render (scene w) (globals w) = Normal (ext (scene w), globals w) /\
    (exists x g', update (scene w) (globals w) = Normal (x, g')) /\
    (exists w',
        start copy update render w = Normal w' /\
        isRunning (scene w') = true /\
        animationId (scene w') = Some (nextHandle w) /\
        frameCallbacks w' = [nextHandle w]).

(** ** Loops that run *)

(** A running scene with exactly one frame callback pending, whose
    handle is the one the scene has stored. *)
Definition single_loop {X} (w : World X) : Prop :=
  isRunning (scene w) = true /\
  exists h, animationId (scene w) = Some h /\ frameCallbacks w = [h].

(** [window.devicePixelRatio || 1]. *)
Definition pixelRatio (g : Globals) : R := JS.or_else (devicePixelRatio g) 1.

(** What [CanvasScene.render] has called when the pattern begins. *)
Definition prologue (rect : DOMRect) : list Cmd :=
  [ClearRect 0 0 (rect_width rect) (rect_height rect); Save;
   Translate (rect_width rect / 2) (rect_height rect / 2)].

(** A running particle-pattern scene of [part_000] whose elements are
    not assigned yet. *)
Definition unassigned (rect : DOMRect)
    (w : World (option (list Part000.Element))) : Prop :=
  single_loop w /\ ctx (scene w) = true /\
  (exists cv, canvas (scene w) = Some cv /\ boundingClientRect cv = rect) /\
  options_type (scene w) = "particle" /\ ext (scene w) = None.

(** An element of the particle pattern of [part_000] after one
    [render()]: [element.angle += element.speed]. *)
Definition advanced (e : Part000.Element) : Part000.Element :=
  {| Part000.e_x := Part000.e_x e; Part000.e_y := Part000.e_y e;
     Part000.e_size := Part000.e_size e;
     Part000.e_angle := Part000.e_angle e + Part000.e_speed e;
     Part000.e_speed := Part000.e_speed e;
     Part000.e_opacity := Part000.e_opacity e;
     Part000.e_type := Part000.e_type e |}.

(** What the performance monitor keeps: a quality level in [[0.4, 1]]
    and at most ten samples. *)
Definition monitor_ok (pm : PerformanceMonitor) : Prop :=
  0.4 <= qualityLevel pm <= 1 /\ (length (fpsArray pm) <= 10)%nat.

(** ** Random numbers and what is created from them *)

(** A source of random numbers as [Math.random()] promises it: every
    number lies in [[0, 1)]. *)
Definition unit_source (g : Globals) : Prop :=
  forall n, 0 <= randomSource g n < 1.

(** The box over which a hero scene spreads its elements. *)
Definition Part000_box {X} (s : Scene3D X) : R * R :=
  match canvas s with
  | Some c => (rect_width (boundingClientRect c), rect_height (boundingClientRect c))
  | None => (800, 600)
  end.

Definition AppJs_box {X} (s : Scene3D X) : R * R :=
  match canvas s with
  | Some c => (JS.or_else (clientWidth c) 800, JS.or_else (clientHeight c) 600)
  | None => (800, 600)
  end.

(** The fields of a hero particle and of a hero shape as
    [initializeElements] draws them for a box of [w] by [h]. *)
Definition Part000_fresh_particle (w h : R) (p : Part000.Particle) : Prop :=
  0 <= Part000.p_x p <= w /\ 0 <= Part000.p_y p <= h /\
  0 <= Part000.p_z p < 100 /\ 1 <= Part000.p_size p < 4 /\
  0.1 <= Part000.p_speed p < 0.6 /\ 0 <= Part000.p_angle p < 2 * PI /\
  0.3 <= Part000.p_opacity p < 0.8 /\ 0 <= Part000.p_pulsePhase p < 2 * PI /\
  Part000.p_connections p = [].

Definition Part000_fresh_shape (w h : R) (s : Part000.Shape) : Prop :=
  0 <= Part000.s_x s <= w /\ 0 <= Part000.s_y s <= h /\
  30 <= Part000.s_size s < 90 /\ 0 <= Part000.s_rotation s < 2 * PI /\
  - 0.01 <= Part000.s_rotationSpeed s < 0.01 /\
  (0 <= Part000.s_type s < 4)%Z /\
  0 <= Part000.s_pulse s < 2 * PI /\ 0.3 <= Part000.s_opacity s < 0.7.

Definition AppJs_fresh_particle (w h : R) (p : AppJs.Particle) : Prop :=
  0 <= AppJs.p_x p <= w /\ 0 <= AppJs.p_y p <= h /\
  1 <= AppJs.p_size p < 4 /\ 0.1 <= AppJs.p_speed p < 0.6 /\
  0 <= AppJs.p_angle p < 2 * PI /\ 0.2 <= AppJs.p_opacity p < 0.7.

Definition AppJs_fresh_shape (w h : R) (s : AppJs.Shape) : Prop :=
  0 <= AppJs.s_x s <= w /\ 0 <= AppJs.s_y s <= h /\
  20 <= AppJs.s_size s < 60 /\ 0 <= AppJs.s_rotation s < 2 * PI /\
  - 0.01 <= AppJs.s_rotationSpeed s < 0.01 /\
  (0 <= AppJs.s_type s < 3)%Z.

(** The numbers [initParticles] writes into the style of one particle
    of the loading screen. *)
Definition fresh_loading_particle (p : Loading.LoadingParticle) : Prop :=
  2 <= Loading.lp_width p < 6 /\ 2 <= Loading.lp_height p < 6 /\
  0.3 <= Loading.lp_alpha p < 0.8 /\
  0 <= Loading.lp_left p < 100 /\ 0 <= Loading.lp_top p < 100 /\
  3 <= Loading.lp_duration p < 8 /\ 0 <= Loading.lp_delay p < 2.

(** ** Stages of the loading screen *)

(** The stages the loading manager passes through: not complete;
    complete with the first timer pending; the first timer run on a page
    without loading screen; the second timer pending; the application
    started. *)
Definition loading_stage (m : Loading.Manager) : Prop :=
  Loading.progress m <= 100 /\
  ((Loading.isComplete m = false /\ Loading.timeouts m = [] /\
    Loading.appInits m = 0%nat /\ Loading.bodyOverflow m = "hidden") \/
   (Loading.isComplete m = true /\ Loading.timeouts m = [Loading.Reveal] /\
    Loading.appInits m = 0%nat /\ Loading.bodyOverflow m = "hidden") \/
   (Loading.isComplete m = true /\ Loading.timeouts m = [] /\
    Loading.appInits m = 0%nat /\ Loading.bodyOverflow m = "hidden" /\
    Loading.loadingScreen m = false) \/
   (Loading.isComplete m = true /\ Loading.timeouts m = [Loading.Launch] /\
    Loading.appInits m = 0%nat /\ Loading.bodyOverflow m = "hidden" /\
    Loading.loadingScreen m = true /\ Loading.isLoaded m = true) \/
   (Loading.isComplete m = true /\ Loading.timeouts m = [] /\
    Loading.appInits m = 1%nat /\ Loading.bodyOverflow m = "auto" /\
    Loading.loadingScreen m = true /\ Loading.isLoaded m = true /\
    Loading.screenHidden m = true)).

(** The loading simulation after [k] runs of the callback that found
    the interval set, [g0] being the globals at its start. *)
Definition simulated (g0 : Globals) (k : nat) (s : Loading.Simulation)
    (g : Globals) : Prop :=
  unit_source g /\ randomUsed g = (randomUsed g0 + k)%nat /\
  (k <= 20)%nat /\
  ((k = 0%nat /\ Loading.sim_progress s = 0) \/
   (5 * INR k <= Loading.sim_progress s < 20 * INR k /\
    Loading.progress (Loading.loadingManager s)
    = Rmin (Loading.sim_progress s) 100)) /\
  (if Loading.loadingInterval s
   then Loading.sim_progress s < 100 /\
        Loading.isComplete (Loading.loadingManager s) = false
   else 100 <= Loading.sim_progress s /\
        Loading.isComplete (Loading.loadingManager s) = true).

(** ** The menu and the sections *)

(** The menu flag, the classes of the menu elements and the scroll lock
    of the page agree. *)
Definition menu_in_step (n : Navigation.Nav) : Prop :=
  (forall a, Navigation.navMenu n = Some a -> a = Navigation.isMenuOpen n) /\
  (forall a, Navigation.navToggle n = Some a -> a = Navigation.isMenuOpen n) /\
  Navigation.bodyOverflow n
  = (if Navigation.isMenuOpen n then "hidden" else "auto").

(** Whether the band of a section holds the scroll position. *)
Definition holds (scrollY : R) (s : Navigation.Section_) : Prop :=
  Navigation.offsetTop s - 150 <= scrollY
  < Navigation.offsetTop s - 150 + Navigation.offsetHeight s.

(** ** The state stack of the 2D context *)

(** What a call does to the state stack of the context: [save] pushes,
    [restore] pops. *)
Definition stackEffect (c : Cmd) : Z :=
  match c with
  | Save => 1
  | Restore => -1
  | _ => 0
  end.

(** The saves not yet restored among the calls the context received. *)
Definition saveDepth (g : Globals) : Z :=
  foldr (fun c d => (stackEffect c + d)%Z) 0%Z (canvasLog g).

(** A script that changes the depth of the state stack by [k]. *)
Definition shifts {A} (m : Script A) (k : Z) : Prop :=
  forall g, saveDepth (snd (m g)) = (saveDepth g + k)%Z.

(** A method that, when it returns, leaves the state stack of the
    context as deep as it found it. *)
Definition balanced {X} (h : Hook X) : Prop :=
  forall s g x g', h s g = Normal (x, g') -> saveDepth g' = saveDepth g.

(** The same for one call of the method. *)
Definition returns_level {X} (h : Hook X) (s : Scene3D X) (g : Globals) : Prop :=
  match h s g with
  | Normal (_, g') => saveDepth g' = saveDepth g
  | Thrown _ => True
  end.

(** The counter while its interval is set, [k] runs after
    [animateCounter] read the target [t]: the running value is [k]
    steps of [t / 125] up to the rounding of the [k] additions and of
    the division, and from the first run on the element shows its
    integer part, which is below the target. *)
Definition counting (t : Z) (k : nat) (c : Counter.State) : Prop :=
  Counter.target c = t /\ Counter.timer c = true /\
  INR k * (IZR t / 125) * (1 - (INR k + 1) / 2 ^ 53) <= Counter.current c /\
  Counter.current c
  <= INR k * (IZR t / 125) * (1 + 2 * (INR k + 1) / 2 ^ 53) /\
  ((0 < k)%nat ->
   Counter.current c < IZR t /\
   Counter.textContent c = Some (JS.Math_floor (Counter.current c))).

(** The counter at its end: the interval is cleared and the element
    shows the target. *)
Definition counted (t : Z) : Counter.State :=
  {| Counter.target := t; Counter.current := IZR t;
     Counter.timer := false; Counter.textContent := Some t |}.

(** ** Sample inputs *)

(** Concrete scenes on which the properties below are exercised. *)
Module Sample.

(** A canvas of 200 by 100 CSS pixels at the page origin. *)
Definition rect : DOMRect :=
  {| rect_left := 0; rect_top := 0; rect_width := 200; rect_height := 100 |}.

Definition surface : Canvas :=
  {| boundingClientRect := rect; clientWidth := 200; clientHeight := 100;
     context2d := true; canvas_width := 200; canvas_height := 100;
     style_width := None; style_height := None |}.

(** The same element when [getContext('2d')] returns [null]. *)
Definition blindSurface : Canvas :=
  {| boundingClientRect := rect; clientWidth := 200; clientHeight := 100;
     context2d := false; canvas_width := 200; canvas_height := 100;
     style_width := None; style_height := None |}.

(** The page: pointer far below the canvas, desktop viewport, a source
    of random numbers that always yields [r]. *)
Definition page (r : R) (reduced : bool) : Globals :=
  {| mousePosition := (50, 1050); isMobile := false;
     isReducedMotion := reduced; devicePixelRatio := 1;
     randomSource := fun _ => r; randomUsed := 0; dateNow := 0;
     performanceNow := 0;
     performanceMonitor :=
       {| frameCount := 0; fps := 60; lastTime := 0; fpsArray := [];
          qualityLevel := 1 |};
     canvasLog := [] |}.

(** A particle of [part_000] in mid-canvas moving right at speed 1. *)
Definition drifting : Part000.Particle :=
  {| Part000.p_x := 50; Part000.p_y := 50; Part000.p_z := 0;
     Part000.p_size := 2; Part000.p_speed := 1; Part000.p_angle := 0;
     Part000.p_opacity := 0.5; Part000.p_pulsePhase := 0;
     Part000.p_connections := [] |}.

(** A particle 50 to the right of where [drifting] arrives. *)
Definition neighbour : Part000.Particle :=
  {| Part000.p_x := 101; Part000.p_y := 50; Part000.p_z := 0;
     Part000.p_size := 2; Part000.p_speed := 1; Part000.p_angle := 0;
     Part000.p_opacity := 0.5; Part000.p_pulsePhase := 0;
     Part000.p_connections := [] |}.

(** A particle on the left edge heading left. *)
Definition leaving : Part000.Particle :=
  {| Part000.p_x := 0; Part000.p_y := 50; Part000.p_z := 0;
     Part000.p_size := 2; Part000.p_speed := 0.5; Part000.p_angle := PI;
     Part000.p_opacity := 0.5; Part000.p_pulsePhase := 0;
     Part000.p_connections := [] |}.

(** A particle 60 to the right of a pointer at the canvas origin. *)
Definition pushed : Part000.Particle :=
  {| Part000.p_x := 60; Part000.p_y := 0; Part000.p_z := 0;
     Part000.p_size := 2; Part000.p_speed := 1; Part000.p_angle := 0;
     Part000.p_opacity := 0.5; Part000.p_pulsePhase := 0;
     Part000.p_connections := [] |}.

(** The [app_js] particle on the left edge heading left. *)
Definition leavingV1 : AppJs.Particle :=
  {| AppJs.p_x := 0; AppJs.p_y := 50; AppJs.p_size := 2;
     AppJs.p_speed := 0.5; AppJs.p_angle := PI; AppJs.p_opacity := 0.5 |}.

(** A running hero scene of [part_000] with one particle and one
    callback pending. *)
Definition heroWorld : World (option Part000.HeroFields) :=
  {| scene := {| canvas := Some surface; ctx := true; isRunning := true;
                 animationId := Some 1%positive; time := 0;
                 options_particleCount := 1; options_type := "default";
                 ext := Some {| Part000.particles := [drifting];
                                Part000.shapes := [] |} |};
     globals := page 0 false;
     frameCallbacks := [1%positive];
     nextHandle := 2%positive |}.

(** A running hero scene of [app_js]. *)
Definition heroWorldV1 : World (option AppJs.HeroFields) :=
  {| scene := {| canvas := Some surface; ctx := true; isRunning := true;
                 animationId := Some 1%positive; time := 0;
                 options_particleCount := 0; options_type := "";
                 ext := Some {| AppJs.particles := [leavingV1];
                                AppJs.shapes := [] |} |};
     globals := page 0 false;
     frameCallbacks := [1%positive];
     nextHandle := 2%positive |}.

(** A canvas scene of [app_js] showing the network pattern. *)
Definition networkV1 : Scene3D (option AppJs.CanvasFields) :=
  {| canvas := Some surface; ctx := true; isRunning := true;
     animationId := Some 1%positive; time := 0;
     options_particleCount := 0; options_type := "";
     ext := Some {| AppJs.cs_type := "network"; AppJs.cs_time := 0 |} |}.

End Sample.

(** Further inputs: a page whose random numbers are all one half, a
    particle of [app_js] in mid-canvas, a canvas scene of [part_000]
    that holds one element, a loading screen without particles, and a
    navigation with two sections whose menu is closed or open. *)
Module Example.

Definition page : Globals := Sample.page 0.5 false.


Definition element : Part000.Element :=
  {| Part000.e_x := 10; Part000.e_y := 20; Part000.e_size := 8;
     Part000.e_angle := 1; Part000.e_speed := 0.02;
     Part000.e_opacity := 0.5; Part000.e_type := 0 |}.

Definition particleScene : Scene3D (option (list Part000.Element)) :=
  {| canvas := Some Sample.surface; ctx := true; isRunning := true;
     animationId := Some 1%positive; time := 0;
     options_particleCount := 50; options_type := "particle";
     ext := Some [element] |}.

(** A canvas whose origin is under the pointer of the sample page and
    that yields no 2D context. *)
Definition pointedSurface : Canvas :=
  {| boundingClientRect :=
       {| rect_left := 50; rect_top := 1050; rect_width := 200;
          rect_height := 100 |};
     clientWidth := 200; clientHeight := 100;
     context2d := false; canvas_width := 200; canvas_height := 100;
     style_width := None; style_height := None |}.

(** A hero scene of [part_000] on the canvas [cv] that holds the
    particles [ps]. *)
Definition heroScene (cv : Canvas) (ps : list Part000.Particle)
  : Scene3D (option Part000.HeroFields) :=
  {| canvas := Some cv; ctx := false; isRunning := true;
     animationId := Some 1%positive; time := 0;
     options_particleCount := 150; options_type := "default";
     ext := Some {| Part000.particles := ps; Part000.shapes := [] |} |}.

Definition emptyScreen : Loading.Document :=
  {| Loading.loadingParticles := Some []; Loading.headStyles := 0 |}.

Definition pageSections : list Navigation.Section_ :=
  [ {| Navigation.sec_id := "home"; Navigation.offsetTop := 0;
       Navigation.offsetHeight := 800 |};
    {| Navigation.sec_id := "about"; Navigation.offsetTop := 800;
       Navigation.offsetHeight := 600 |} ].

Definition pageLinks : list Navigation.Link :=
  [ {| Navigation.href := "#home"; Navigation.active := false |};
    {| Navigation.href := "#about"; Navigation.active := false |} ].

Definition closedNav : Navigation.Nav :=
  {| Navigation.sections := pageSections; Navigation.navLinks := pageLinks;
     Navigation.navMenu := Some false; Navigation.navToggle := Some false;
     Navigation.currentSection := "home"; Navigation.isMenuOpen := false;
     Navigation.bodyOverflow := "auto"; Navigation.scrollTarget := None;
     Navigation.appCurrentSection := "home" |}.

Definition openNav : Navigation.Nav :=
  {| Navigation.sections := pageSections; Navigation.navLinks := pageLinks;
     Navigation.navMenu := Some true; Navigation.navToggle := Some true;
     Navigation.currentSection := "home"; Navigation.isMenuOpen := true;
     Navigation.bodyOverflow := "hidden"; Navigation.scrollTarget := None;
     Navigation.appCurrentSection := "home" |}.

End Example.

(** * Properties *)

(** ** Arithmetic facts *)

Section Arithmetic.

Lemma clamp_range (lo_hi v : R) :
  0 <= lo_hi -> 0 <= JS.Math_max 0 (JS.Math_min lo_hi v) <= lo_hi.
Proof.
  intros Hw. unfold JS.Math_max, JS.Math_min. split.
  - apply Rmax_l.
  - apply Rmax_lub; [exact Hw | apply Rmin_l].
Qed.

Lemma clamp_below (hi v : R) :
  v < 0 -> JS.Math_max 0 (JS.Math_min hi v) = 0.
Proof.
  intros Hv. unfold JS.Math_max, JS.Math_min.
  apply Rmax_left. pose proof (Rmin_r hi v). lra.
Qed.

Lemma norm_pos (a b : R) : (a, b) <> (0, 0) -> 0 < a * a + b * b.
Proof.
  intros Hne.
  destruct (Req_dec a 0) as [-> | Ha]; [destruct (Req_dec b 0) as [-> | Hb] |].
  - congruence.
  - nra.
  - nra.
Qed.

(** [sqrt (1 + (b/a)^2)] for the two signs of [a]. *)
Lemma sqrt_slope_pos (a b : R) :
  0 < a -> sqrt (1 + (b / a)²) = sqrt (a * a + b * b) / a.
Proof.
  intros Ha. apply sqrt_lem_1.
  - unfold Rsqr. nra.
  - apply Rmult_le_pos; [apply sqrt_pos | left; now apply Rinv_0_lt_compat].
  - assert (Hs : sqrt (a * a + b * b) * sqrt (a * a + b * b) = a * a + b * b)
      by (apply sqrt_sqrt; nra).
    set (s := sqrt (a * a + b * b)) in *.
    transitivity ((s * s) * (/ a * / a)); [unfold Rdiv; ring |].
    rewrite Hs. unfold Rsqr. field. lra.
Qed.

Lemma sqrt_slope_neg (a b : R) :
  a < 0 -> sqrt (1 + (b / a)²) = sqrt (a * a + b * b) / (- a).
Proof.
  intros Ha.
  replace (b / a) with ((- b) / (- a)) by (field; lra).
  rewrite sqrt_slope_pos by lra.
  do 2 f_equal. ring.
Qed.

Lemma cos_atan2 (y x : R) :
  (x, y) <> (0, 0) -> cos (JS.Math_atan2 y x) = x / sqrt (x * x + y * y).
Proof.
  intros Hne. pose proof (norm_pos x y Hne) as Hn.
  pose proof (sqrt_lt_R0 _ Hn) as Hs.
  unfold JS.Math_atan2. repeat case_decide.
  - rewrite cos_atan, sqrt_slope_pos by lra. field. lra.
  - unfold Rminus. rewrite cos_plus, cos_neg, sin_neg, cos_PI, sin_PI.
    rewrite cos_atan, sqrt_slope_neg by lra. field. lra.
  - rewrite cos_plus, cos_PI, sin_PI.
    rewrite cos_atan, sqrt_slope_neg by lra. field. lra.
  - assert (x = 0) as -> by lra. rewrite cos_PI2. field. lra.
  - assert (x = 0) as -> by lra. rewrite cos_neg, cos_PI2. field. lra.
  - exfalso. apply Hne. f_equal; lra.
Qed.

Lemma sin_atan2 (y x : R) :
  (x, y) <> (0, 0) -> sin (JS.Math_atan2 y x) = y / sqrt (x * x + y * y).
Proof.
  intros Hne. pose proof (norm_pos x y Hne) as Hn.
  pose proof (sqrt_lt_R0 _ Hn) as Hs.
  unfold JS.Math_atan2. repeat case_decide.
  - rewrite sin_atan, sqrt_slope_pos by lra. field. lra.
  - unfold Rminus. rewrite sin_plus, cos_neg, sin_neg, cos_PI, sin_PI.
    rewrite sin_atan, sqrt_slope_neg by lra. field. lra.
  - rewrite sin_plus, cos_PI, sin_PI.
    rewrite sin_atan, sqrt_slope_neg by lra. field. lra.
  - assert (x = 0) as -> by lra. rewrite sin_PI2.
    replace (0 * 0 + y * y) with (y * y) by ring.
    rewrite sqrt_square by lra. field. lra.
  - assert (x = 0) as -> by lra. rewrite sin_neg, sin_PI2.
    replace (0 * 0 + y * y) with ((- y) * (- y)) by ring.
    rewrite sqrt_square by lra. field. lra.
  - exfalso. apply Hne. f_equal; lra.
Qed.

Lemma distance_sym (ax ay bx by_ : R) :
  JS.distance ax ay bx by_ = JS.distance bx by_ ax ay.
Proof. unfold JS.distance, JS.Math_pow2. f_equal. ring. Qed.

Lemma distance_nonneg (ax ay bx by_ : R) : 0 <= JS.distance ax ay bx by_.
Proof. apply sqrt_pos. Qed.

Lemma distance_norm (ax ay bx by_ : R) :
  JS.distance ax ay bx by_ =
  sqrt ((bx - ax) * (bx - ax) + (by_ - ay) * (by_ - ay)).
Proof. unfold JS.distance, JS.Math_pow2. f_equal. ring. Qed.

Lemma distance_pos_ne (ax ay bx by_ : R) :
  0 < JS.distance ax ay bx by_ -> (bx - ax, by_ - ay) <> (0, 0).
Proof.
  rewrite distance_norm. intros Hd [= H1 H2].
  rewrite H1, H2 in Hd.
  replace (0 * 0 + 0 * 0) with 0 in Hd by ring.
  rewrite sqrt_0 in Hd. lra.
Qed.

End Arithmetic.

(** ** The particle loop of [src/unnamed/part_000] *)

Section ParticleLoop.
Import Part000.

Variable rect : DOMRect.
Variables mouseX mouseY : R.

Lemma set_connections_pos (p : Particle) (cs : list Connection) :
  p_x (set_connections p cs) = p_x p /\ p_y (set_connections p cs) = p_y p /\
  p_angle (set_connections p cs) = p_angle p.
Proof. done. Qed.

Lemma flat_map_agree {A B} (f g : A -> list B) (l : list A) :
  (forall a, a ∈ l -> f a = g a) -> flat_map f l = flat_map g l.
Proof.
  induction l as [| a l IH]; intros Hfg; [done |].
  simpl. rewrite (Hfg a) by apply list_elem_of_here.
  rewrite IH; [done |]. intros b Hb. apply Hfg. by apply list_elem_of_further.
Qed.

(** The inner loop at index [i] reads the array only after [i]. *)
Lemma connect_ext (l1 l2 : list Particle) (p : Particle) (i : nat) :
  length l1 = length l2 ->
  (forall j, (i < j)%nat -> l1 !! j = l2 !! j) ->
  connect l1 p i = connect l2 p i.
Proof.
  intros Hlen Hl. unfold connect. rewrite Hlen.
  apply flat_map_agree. intros j Hj.
  apply list_elem_of_In, in_seq in Hj.
  unfold connect1. rewrite Hl by lia. done.
Qed.

(** State of the array after the first [k] visits of [forEach]. *)
Lemma visits_prefix (particles : list Particle) (k : nat) :
  (k <= length particles)%nat ->
  let r := foldl (visit rect mouseX mouseY) particles (seq 0 k) in
  length r = length particles /\
  (forall j, (k <= j)%nat -> r !! j = particles !! j) /\
  (forall i p, (i < k)%nat -> particles !! i = Some p ->
     r !! i = Some (set_connections (move rect mouseX mouseY p)
                      (connect particles (move rect mouseX mouseY p) i))).
Proof.
  induction k as [| k IH]; intros Hk; cbv zeta.
  - simpl. split_and!; [done | done | intros; lia].
  - rewrite seq_S, foldl_app. simpl. cbv zeta in IH.
    destruct IH as (Hlen & Hrest & Hdone); [lia |].
    set (r := foldl (visit rect mouseX mouseY) particles (seq 0 k)) in *.
    destruct (lookup_lt_is_Some_2 particles k) as [p Hp]; [lia |].
    unfold visit. rewrite (Hrest k) by lia. rewrite Hp.
    set (moved := move rect mouseX mouseY p).
    assert (Hconn : connect (<[k:=moved]> r) moved k = connect particles moved k).
    { apply connect_ext.
      - by rewrite length_insert.
      - intros j Hj. rewrite list_lookup_insert_ne by lia. apply Hrest. lia. }
    rewrite Hconn. split_and!.
    + by rewrite !length_insert.
    + intros j Hj. rewrite !list_lookup_insert_ne by lia. apply Hrest. lia.
    + intros i q Hi Hq. destruct (decide (i = k)) as [-> | Hne].
      * rewrite list_lookup_insert_eq by (rewrite length_insert; lia).
        rewrite Hp in Hq. injection Hq as <-. reflexivity.
      * rewrite !list_lookup_insert_ne by lia. apply Hdone; [lia | done].
Qed.

(** What one frame leaves in slot [i]: the particle is moved, and its
    connections are computed from its new position against the array as
    it stood before the frame (the particles after [i] have not moved
    yet when slot [i] is visited). *)
Lemma updateParticles_lookup (particles : list Particle) (i : nat) :
  updateParticles rect mouseX mouseY particles !! i =
  (fun p => set_connections (move rect mouseX mouseY p)
              (connect particles (move rect mouseX mouseY p) i))
    <$> particles !! i.
Proof.
  unfold updateParticles.
  destruct (visits_prefix particles (length particles)) as (Hlen & _ & Hdone);
    [lia |].
  destruct (particles !! i) as [p |] eqn:Hp; simpl.
  - apply Hdone; [| done]. by eapply lookup_lt_Some.
  - apply lookup_ge_None. rewrite Hlen. by apply lookup_ge_None.
Qed.

Lemma updateParticles_length (particles : list Particle) :
  length (updateParticles rect mouseX mouseY particles) = length particles.
Proof.
  unfold updateParticles.
  by destruct (visits_prefix particles (length particles)) as (Hlen & _); [lia |].
Qed.

Lemma move_clamped (p : Particle) :
  0 <= rect_width rect -> 0 <= rect_height rect ->
  0 <= p_x (move rect mouseX mouseY p) <= rect_width rect /\
  0 <= p_y (move rect mouseX mouseY p) <= rect_height rect.
Proof. intros Hw Hh. unfold move, clamp. simpl. split; by apply clamp_range. Qed.

(** Membership in [connect]. *)
Lemma elem_of_connect (particles : list Particle) (p : Particle) (i : nat)
    (c : Connection) :
  c ∈ connect particles p i <->
  exists other,
    (i < c_particle c)%nat /\ particles !! c_particle c = Some other /\
    JS.distance (p_x p) (p_y p) (p_x other) (p_y other) < 120 /\
    c_opacity c =
      connectionOpacity (JS.distance (p_x p) (p_y p) (p_x other) (p_y other)).
Proof.
  unfold connect. rewrite list_elem_of_In, in_flat_map. split.
  - intros (j & Hj & Hc). apply in_seq in Hj. unfold connect1 in Hc.
    destruct (particles !! j) as [other |] eqn:Ho; [| by destruct Hc].
    case_decide as Hd; [| by destruct Hc].
    destruct Hc as [<- | []]. simpl. exists other. split_and!; [lia | done..].
  - intros (other & Hi & Ho & Hd & Hop).
    exists (c_particle c). split.
    + apply in_seq. apply lookup_lt_Some in Ho. lia.
    + unfold connect1. rewrite Ho. rewrite decide_True by done.
      left. destruct c as [j o]. simpl in *. by rewrite Hop.
Qed.

End ParticleLoop.

(** ** The frame scheduler *)

Section SchedulerFacts.
Context {X : Type}.
Variable copy : Copy.
Variables update render : Hook X.

#[local] Abbreviation animate' := (animate copy update render).
#[local] Abbreviation start' := (start copy update render).
#[local] Abbreviation frame' := (frame copy update render).

Lemma call_scene (h : Hook X) (w : World X) :
  let s' := scene (settle (call h w)) in
  canvas s' = canvas (scene w) /\ ctx s' = ctx (scene w) /\
  isRunning s' = isRunning (scene w) /\
  animationId s' = animationId (scene w) /\ time s' = time (scene w) /\
  frameCallbacks (settle (call h w)) = frameCallbacks w /\
  nextHandle (settle (call h w)) = nextHandle w.
Proof. unfold call. by destruct (h (scene w) (globals w)) as [[x g] | [x g]]. Qed.

(** The guard at the entry of [animate]. *)
Lemma animate_stopped (w : World X) :
  isRunning (scene w) = false -> animate' w = Normal w.
Proof. intros Hw. unfold animate. by rewrite Hw. Qed.

Lemma stop_scene (w : World X) :
  scene (stop w) = set_isRunning (scene w) false /\
  globals (stop w) = globals w /\ nextHandle (stop w) = nextHandle w.
Proof. unfold stop. simpl. by destruct (animationId (scene w)). Qed.

Lemma stop_not_running (w : World X) : isRunning (scene (stop w)) = false.
Proof. by rewrite (proj1 (stop_scene w)). Qed.

(** Callbacks that fire while the scene is stopped leave everything as
    it is. *)
Lemma callbacks_stopped (hs : list positive) (w : World X) :
  isRunning (scene w) = false ->
  foldl (fun w' (_ : positive) => settle (animate' w')) w hs = w.
Proof.
  intros Hw. induction hs as [| h hs IH]; [done |].
  simpl. by rewrite animate_stopped.
Qed.

Lemma frame_stopped (w : World X) :
  isRunning (scene w) = false -> frame' w = set_frameCallbacks w [].
Proof. intros Hw. unfold frame. by apply callbacks_stopped. Qed.

Lemma frames_stopped (n : nat) (w : World X) :
  isRunning (scene w) = false ->
  scene (Nat.iter n frame' w) = scene w /\
  globals (Nat.iter n frame' w) = globals w /\
  nextHandle (Nat.iter n frame' w) = nextHandle w /\
  (0 < n -> frameCallbacks (Nat.iter n frame' w) = [])%nat.
Proof.
  intros Hw. induction n as [| n IH]; simpl.
  - split_and!; [done.. | lia].
  - destruct IH as (Hs & Hg & Hn & _).
    rewrite frame_stopped by (by rewrite Hs).
    simpl. split_and!; done.
Qed.

(** What [animate] does to a running scene, up to the hooks. *)
Lemma animate_running (w : World X) :
  isRunning (scene w) = true ->
  let w' := settle (animate' w) in
  isRunning (scene w') = true /\
  animationId (scene w') = Some (nextHandle w) /\
  frameCallbacks w' = frameCallbacks w ++ [nextHandle w] /\
  nextHandle w' = Pos.succ (nextHandle w) /\
  canvas (scene w') = canvas (scene w) /\ ctx (scene w') = ctx (scene w) /\
  time (scene w') =
    match copy with app_js => time (scene w) | part_000 => time (scene w) + 0.016 end.
Proof.
  intros Hw. unfold animate. rewrite Hw. simpl.
  destruct copy.
  - set (w2 := set_scene _ _).
    pose proof (call_scene update w2) as Hu.
    destruct (call update w2) as [w3 | w3]; simpl in *.
    + pose proof (call_scene render w3) as Hr.
      destruct (call render w3) as [w4 | w4]; simpl in *;
        destruct Hu as (? & ? & ? & ? & ? & ? & ?);
        destruct Hr as (-> & -> & -> & -> & -> & -> & ->);
        split_and!; congruence.
    + destruct Hu as (-> & -> & -> & -> & -> & -> & ->). done.
  - set (w2 := set_scene _ _).
    pose proof (call_scene update w2) as Hu.
    destruct (call update w2) as [w3 | w3]; simpl in *.
    + pose proof (call_scene render w3) as Hr.
      destruct (call render w3) as [w4 | w4]; simpl in *;
        destruct Hu as (? & ? & ? & ? & ? & ? & ?);
        destruct Hr as (-> & -> & -> & -> & -> & -> & ->);
        split_and!; congruence.
    + destruct Hu as (-> & -> & -> & -> & -> & -> & ->). done.
Qed.

Lemma foldl_const_iter {A B} (f : A -> A) (l : list B) (a : A) :
  foldl (fun a' (_ : B) => f a') a l = Nat.iter (length l) f a.
Proof.
  revert a. induction l as [| b l IH]; intros a; [done |].
  simpl. rewrite IH. clear IH.
  induction (length l) as [| n IHn]; [done |]. simpl. by rewrite IHn.
Qed.

(** A refresh runs [animate] once per callback in the list. *)
Lemma frame_iter (w : World X) :
  frame' w =
  Nat.iter (length (frameCallbacks w)) (fun w' => settle (animate' w'))
    (set_frameCallbacks w []).
Proof. unfold frame. apply foldl_const_iter. Qed.

Lemma animations_running (k : nat) (w : World X) :
  isRunning (scene w) = true ->
  let w' := Nat.iter k (fun w' => settle (animate' w')) w in
  isRunning (scene w') = true /\
  length (frameCallbacks w') = (length (frameCallbacks w) + k)%nat /\
  time (scene w') = timeAfter copy (time (scene w)) k.
Proof.
  intros Hw. induction k as [| k IH]; cbv zeta.
  - simpl. split_and!; [done | lia |]. unfold timeAfter. destruct copy; simpl; lra.
  - cbv zeta in IH. destruct IH as (Hr & Hl & Ht).
    rewrite Nat.iter_succ.
    set (wk := Nat.iter k _ w) in *.
    destruct (animate_running wk Hr) as (Hr' & _ & Hl' & _ & _ & _ & Ht').
    split_and!; [done | rewrite Hl', length_app; simpl; lia |].
    rewrite Ht', Ht. unfold timeAfter. destruct copy; [done |].
    rewrite S_INR. lra.
Qed.

Lemma frame_running (w : World X) :
  isRunning (scene w) = true ->
  isRunning (scene (frame' w)) = true /\
  length (frameCallbacks (frame' w)) = length (frameCallbacks w) /\
  time (scene (frame' w)) =
    timeAfter copy (time (scene w)) (length (frameCallbacks w)).
Proof.
  intros Hw. rewrite frame_iter.
  by destruct (animations_running (length (frameCallbacks w))
                 (set_frameCallbacks w []) Hw) as (? & ? & ?).
Qed.

Lemma frames_running (n : nat) (w : World X) :
  isRunning (scene w) = true ->
  isRunning (scene (Nat.iter n frame' w)) = true /\
  length (frameCallbacks (Nat.iter n frame' w)) = length (frameCallbacks w).
Proof.
  intros Hw. induction n as [| n [Hr Hl]]; [done |].
  rewrite Nat.iter_succ.
  destruct (frame_running _ Hr) as (? & ? & _). split; congruence.
Qed.

(** C6.  Once [stop()] has set the scene to not-running, a frame callback
    does no work: [animate] returns at its guard, before it requests a
    frame, advances the time, updates, renders or ticks the monitor.
    So whatever callbacks still fire after [stop()] (a callback already
    dispatched, or any number of later refreshes) leave the scene, the
    globals and the canvas exactly as [stop()] left them. *)
Theorem C6_no_work_after_stop (w : World X) :
  isRunning (scene (stop w)) = false /\
  animate' (stop w) = Normal (stop w) /\
  (forall dispatched : list positive,
     foldl (fun w' (_ : positive) => settle (animate' w')) (stop w) dispatched
     = stop w) /\
  (forall n : nat,
     scene (Nat.iter n frame' (stop w)) = scene (stop w) /\
     globals (Nat.iter n frame' (stop w)) = globals (stop w)).
Proof.
  pose proof (stop_not_running w) as Hs. split_and!.
  - done.
  - by apply animate_stopped.
  - intros hs. by apply callbacks_stopped.
  - intros n. by destruct (frames_stopped n (stop w) Hs) as (? & ? & _).
Qed.

(** C7, as amended.  [stop()] changes the running flag and nothing else
    of the scene or the globals (the pending callback leaves the
    browser's list).  [start()] sets the flag and runs [animate] once,
    at once: when the hooks return, the scene after [stop()] then
    [start()] is the scene before with the flag set, the new callback
    handle stored, the time advanced by 0.016 (in [part_000]) and one
    [update] followed by one [render] applied to the subclass fields as
    they were; nothing is reset. *)
Theorem C7_stop_start_runs_one_cycle (w : World X) (x1 x2 : X) (g1 g2 : Globals) :
  let s1 :=
    set_time
      (set_animationId (set_isRunning (scene w) true) (Some (nextHandle w)))
      (match copy with
       | app_js => time (scene w)
       | part_000 => time (scene w) + 0.016
       end) in
  update s1 (globals w) = Normal (x1, g1) ->
  render (set_ext s1 x1) g1 = Normal (x2, g2) ->
  scene (stop w) = set_isRunning (scene w) false /\
  globals (stop w) = globals w /\
  start' (stop w) =
    Normal {| scene := set_ext s1 x2;
              globals := match copy with
                         | app_js => g2
                         | part_000 => monitorTick g2
                         end;
              frameCallbacks := frameCallbacks (stop w) ++ [nextHandle w];
              nextHandle := Pos.succ (nextHandle w) |}.
Proof.
  intros s1 Hu Hr. destruct (stop_scene w) as (Hs & Hg & Hn).
  split_and!; [done.. |].
  unfold start, animate. simpl. rewrite Hs, Hg, Hn. subst s1.
  destruct copy;
    cbv [call set_time set_animationId set_isRunning set_scene set_globals
         set_ext monitor] in *;
    cbn [scene globals canvas ctx isRunning animationId time
         options_particleCount options_type ext frameCallbacks nextHandle
         negb andThen] in *;
    rewrite Hu; cbn [andThen scene globals canvas ctx isRunning animationId
                     time options_particleCount options_type ext
                     frameCallbacks nextHandle];
    rewrite Hr; reflexivity.
Qed.

(** C10.  [start()] does not look at the running flag: on a scene that
    is already running it calls [animate] once more, which requests one
    more frame callback.  With one callback pending before, two are
    pending after, and from then on every display refresh runs
    [animate] twice (two update/render cycles, the time of [part_000]
    advancing by 2 * 0.016) and leaves two callbacks pending again. *)
Theorem C10_start_not_idempotent (w : World X) :
  isRunning (scene w) = true ->
  length (frameCallbacks w) = 1%nat ->
  let w2 := settle (start' w) in
  frameCallbacks w2 = frameCallbacks w ++ [nextHandle w] /\
  forall n : nat,
    let wn := Nat.iter n frame' w2 in
    isRunning (scene wn) = true /\
    length (frameCallbacks wn) = 2%nat /\
    frame' wn =
      settle (animate' (settle (animate' (set_frameCallbacks wn [])))) /\
    time (scene (frame' wn)) = timeAfter copy (time (scene wn)) 2.
Proof.
  intros Hw Hone w2.
  assert (Hset : set_scene w (set_isRunning (scene w) true) = w).
  { destruct w as [[] ? ? ?]. simpl in *. by subst. }
  assert (Hw2 : w2 = settle (animate' w)) by (unfold w2, start; by rewrite Hset).
  destruct (animate_running w Hw) as (Hr2 & _ & Hl2 & _).
  rewrite <- Hw2 in Hr2, Hl2. split; [done |].
  intros n wn.
  destruct (frames_running n w2 Hr2) as (Hrn & Hln). fold wn in Hrn, Hln.
  assert (Htwo : length (frameCallbacks wn) = 2%nat).
  { rewrite Hln, Hl2, length_app, Hone. done. }
  split_and!; [done | done | |].
  - rewrite frame_iter, Htwo. done.
  - destruct (frame_running wn Hrn) as (_ & _ & Ht). by rewrite Ht, Htwo.
Qed.

End SchedulerFacts.

(** ** The hero scene *)

Section HeroFacts.

Lemma Part000_reflect_pos (rect : DOMRect) (p : Part000.Particle) :
  Part000.p_x (Part000.reflect rect p) = Part000.p_x p /\
  Part000.p_y (Part000.reflect rect p) = Part000.p_y p.
Proof. unfold Part000.reflect. by repeat case_match. Qed.

Lemma AppJs_reflect_pos (width height : R) (p : AppJs.Particle) :
  AppJs.p_x (AppJs.reflect width height p) = AppJs.p_x p /\
  AppJs.p_y (AppJs.reflect width height p) = AppJs.p_y p.
Proof. unfold AppJs.reflect. by repeat case_match. Qed.

(** The heading after [reflect] when the left boundary was crossed with
    heading [PI]. *)
Lemma Part000_reflect_left (rect : DOMRect) (p : Part000.Particle) :
  Part000.p_x p < 0 -> Part000.p_angle p = PI ->
  Part000.p_angle (Part000.reflect rect p) = 0.
Proof.
  intros Hx Ha. unfold Part000.reflect.
  rewrite (bool_decide_eq_true_2 _ Hx). simpl.
  case_match; simpl; rewrite Ha; lra.
Qed.

Lemma AppJs_reflect_left (width height : R) (p : AppJs.Particle) :
  AppJs.p_x p < 0 -> AppJs.p_angle p = PI ->
  AppJs.p_angle (AppJs.reflect width height p) = 0.
Proof.
  intros Hx Ha. unfold AppJs.reflect.
  rewrite (bool_decide_eq_true_2 _ Hx). simpl.
  case_match; simpl; rewrite Ha; lra.
Qed.

Lemma repel_far (mouseX mouseY : R) (p : Part000.Particle) :
  100 <= Part000.mouseDistance mouseX mouseY p ->
  Part000.repel mouseX mouseY p = p.
Proof. intros Hd. unfold Part000.repel. rewrite decide_False; [done | lra]. Qed.

End HeroFacts.

(** C1.  After a per-frame update of a hero scene every particle lies
    inside the bounds the update read from the canvas: its bounding
    rectangle in [part_000], its client size in [app_js] (the sizes of a
    canvas are never negative). *)
Theorem C1_clamp_invariant :
  (forall (s : Scene3D (option Part000.HeroFields)) (g g' : Globals)
          (c : Canvas) (f' : Part000.HeroFields) (p : Part000.Particle),
      canvas s = Some c ->
      0 <= rect_width (boundingClientRect c) ->
      0 <= rect_height (boundingClientRect c) ->
      Part000.HeroScene_update s g = Normal (Some f', g') ->
      p ∈ Part000.particles f' ->
      0 <= Part000.p_x p <= rect_width (boundingClientRect c) /\
      0 <= Part000.p_y p <= rect_height (boundingClientRect c)) /\
  (forall (s : Scene3D (option AppJs.HeroFields)) (g g' : Globals)
          (c : Canvas) (f' : AppJs.HeroFields) (p : AppJs.Particle),
      canvas s = Some c ->
      0 <= clientWidth c -> 0 <= clientHeight c ->
      AppJs.HeroScene_update s g = Normal (Some f', g') ->
      p ∈ AppJs.particles f' ->
      0 <= AppJs.p_x p <= clientWidth c /\
      0 <= AppJs.p_y p <= clientHeight c).
Proof.
  split.
  - intros s g g' c f' p Hc Hw Hh Hup Hp.
    unfold Part000.HeroScene_update in Hup. rewrite Hc in Hup.
    destruct (ext s) as [f |]; [| done].
    injection Hup as <- _. simpl in Hp.
    apply list_elem_of_lookup_1 in Hp as [i Hi].
    rewrite updateParticles_lookup in Hi.
    destruct (Part000.particles f !! i) as [q |]; [| done].
    injection Hi as <-. simpl. split; by apply clamp_range.
  - intros s g g' c f' p Hc Hw Hh Hup Hp.
    unfold AppJs.HeroScene_update in Hup. rewrite Hc in Hup.
    destruct (ext s) as [f |]; [| done].
    injection Hup as <- _. simpl in Hp.
    unfold AppJs.updateParticles in Hp.
    apply list_elem_of_fmap in Hp as (q & -> & _).
    simpl. split; by apply clamp_range.
Qed.

(** The connections slot [i] holds after the [forEach] of one frame:
    one to each later particle [j] whose distance from particle [i], at
    its new position, is below 120 when slot [i] is visited. *)
Lemma updateParticles_connections
    (rect : DOMRect) (mouseX mouseY : R)
    (particles : list Part000.Particle) (i : nat) (p : Part000.Particle) :
  Part000.updateParticles rect mouseX mouseY particles !! i = Some p ->
  (forall (j : nat) (other : Part000.Particle),
      (i < j)%nat -> particles !! j = Some other ->
      let distance :=
        JS.distance (Part000.p_x p) (Part000.p_y p)
                    (Part000.p_x other) (Part000.p_y other) in
      (distance < 120 <->
       exists c, c ∈ Part000.p_connections p /\ Part000.c_particle c = j) /\
      (forall c, c ∈ Part000.p_connections p -> Part000.c_particle c = j ->
         Part000.c_opacity c = (120 - distance) / 120 /\
         0 <= Part000.c_opacity c <= 1) /\
      (distance = 50 ->
       exists c, c ∈ Part000.p_connections p /\ Part000.c_particle c = j /\
                 Part000.c_opacity c = (120 - 50) / 120 /\
                 0.583 < Part000.c_opacity c < 0.584)) /\
  (forall c, c ∈ Part000.p_connections p ->
     (i < Part000.c_particle c < length particles)%nat).
Proof.
  intros Hp. rewrite updateParticles_lookup in Hp.
  destruct (particles !! i) as [q |] eqn:Hq; [| done].
  injection Hp as <-.
  set (moved := Part000.move rect mouseX mouseY q).
  cbn [Part000.p_x Part000.p_y Part000.p_connections Part000.set_connections].
  assert (Hiff : forall j other, particles !! j = Some other -> (i < j)%nat ->
            JS.distance (Part000.p_x moved) (Part000.p_y moved)
                        (Part000.p_x other) (Part000.p_y other) < 120 ->
            {| Part000.c_particle := j;
               Part000.c_opacity :=
                 Part000.connectionOpacity
                   (JS.distance (Part000.p_x moved) (Part000.p_y moved)
                      (Part000.p_x other) (Part000.p_y other)) |}
            ∈ Part000.connect particles moved i).
  { intros j other Ho Hij Hd. apply elem_of_connect. exists other. done. }
  split.
  - intros j other Hij Ho. cbv zeta. split_and!.
    + split.
      * intros Hd. eexists. split; [by apply (Hiff j other) | done].
      * intros (c & Hc & Hj). apply elem_of_connect in Hc as (o & _ & Ho' & Hd & _).
        rewrite Hj, Ho in Ho'. by injection Ho' as <-.
    + intros c Hc Hj. apply elem_of_connect in Hc as (o & _ & Ho' & Hd & Hop).
      rewrite Hj, Ho in Ho'. injection Ho' as <-.
      rewrite Hop. unfold Part000.connectionOpacity.
      pose proof (distance_nonneg (Part000.p_x moved) (Part000.p_y moved)
                    (Part000.p_x other) (Part000.p_y other)).
      split; [done | lra].
    + intros Hd. eexists. split; [apply (Hiff j other); [done | done | lra] |].
      cbn [Part000.c_particle Part000.c_opacity].
      unfold Part000.connectionOpacity. rewrite Hd.
      split_and!; [done | done | lra | lra].
  - intros c Hc. apply elem_of_connect in Hc as (o & Hi & Ho & _).
    apply lookup_lt_Some in Ho. lia.
Qed.

(** The callback of the particle loop on a particle at x = 0 heading
    left whose step crosses the left boundary.  Both copies. *)
Lemma move_left_boundary :
  (forall (rect : DOMRect) (mouseX mouseY : R) (p : Part000.Particle),
      Part000.p_x p = 0 -> Part000.p_angle p = PI ->
      Part000.p_x (Part000.integrate (Part000.repel mouseX mouseY p)) < 0 ->
      let p' := Part000.move rect mouseX mouseY p in
      Part000.p_angle p' = PI - Part000.p_angle p /\
      cos (Part000.p_angle p') = - cos (Part000.p_angle p) /\
      sin (Part000.p_angle p') = sin (Part000.p_angle p) /\
      Part000.p_x p' = 0) /\
  (forall (width height : R) (p : AppJs.Particle),
      AppJs.p_x p = 0 -> AppJs.p_angle p = PI ->
      AppJs.p_x (AppJs.integrate p) < 0 ->
      let p' := AppJs.move width height p in
      AppJs.p_angle p' = PI - AppJs.p_angle p /\
      cos (AppJs.p_angle p') = - cos (AppJs.p_angle p) /\
      sin (AppJs.p_angle p') = sin (AppJs.p_angle p) /\
      AppJs.p_x p' = 0).
Proof.
  split.
  - intros rect mouseX mouseY p Hx Ha Hcross p'.
    set (q := Part000.integrate (Part000.repel mouseX mouseY p)) in *.
    assert (Hqa : Part000.p_angle q = PI).
    { unfold q, Part000.repel. case_decide; simpl; done. }
    assert (Hangle : Part000.p_angle p' = 0).
    { unfold p', Part000.move. fold q. simpl. by apply Part000_reflect_left. }
    rewrite Hangle, Ha, cos_0, sin_0, cos_PI, sin_PI.
    split_and!; [lra | lra | done |].
    unfold p', Part000.move. fold q. simpl.
    rewrite (proj1 (Part000_reflect_pos rect q)). by apply clamp_below.
  - intros width height p Hx Ha Hcross p'.
    set (q := AppJs.integrate p) in *.
    assert (Hqa : AppJs.p_angle q = PI) by done.
    assert (Hangle : AppJs.p_angle p' = 0).
    { unfold p', AppJs.move. fold q. simpl. by apply AppJs_reflect_left. }
    rewrite Hangle, Ha, cos_0, sin_0, cos_PI, sin_PI.
    split_and!; [lra | lra | done |].
    unfold p', AppJs.move. fold q. simpl.
    rewrite (proj1 (AppJs_reflect_pos width height q)). by apply clamp_below.
Qed.

(** The pointer interaction of lines 452-462 on one particle: the
    displacement at distance d < 100, none from distance 100 on, and the
    push along the x axis when the pointer is on the particle
    ([Math.atan2(0, 0)] is 0). *)
Lemma repel_displacement (mouseX mouseY : R) (p : Part000.Particle) :
  let d := Part000.mouseDistance mouseX mouseY p in
  let p' := Part000.repel mouseX mouseY p in
  (0 < d -> d < 100 ->
   Part000.mouseForce d = (100 - d) / 100 /\
   Part000.p_x p' - Part000.p_x p =
     (Part000.p_x p - mouseX) / d * Part000.mouseForce d * 2 /\
   Part000.p_y p' - Part000.p_y p =
     (Part000.p_y p - mouseY) / d * Part000.mouseForce d * 2) /\
  (d = 60 -> Part000.mouseForce d = 0.4) /\
  (100 <= d -> p' = p) /\
  (d = 0 ->
   Part000.p_x p' = Part000.p_x p + 2 /\ Part000.p_y p' = Part000.p_y p).
Proof.
  intros d p'. split_and!.
  - intros Hpos Hlt. split; [done |].
    unfold p', Part000.repel. fold d. rewrite decide_True by done. simpl.
    assert (Hne : (Part000.p_x p - mouseX, Part000.p_y p - mouseY) <> (0, 0)).
    { apply (distance_pos_ne mouseX mouseY (Part000.p_x p) (Part000.p_y p)). done. }
    rewrite cos_atan2, sin_atan2 by done.
    assert (Hd : sqrt ((Part000.p_x p - mouseX) * (Part000.p_x p - mouseX) +
                       (Part000.p_y p - mouseY) * (Part000.p_y p - mouseY)) = d).
    { unfold d, Part000.mouseDistance. by rewrite distance_norm. }
    rewrite Hd. split; ring.
  - intros Hd. unfold Part000.mouseForce. rewrite Hd. lra.
  - intros Hfar. by apply repel_far.
  - intros Hd.
    assert (Hnorm : sqrt ((Part000.p_x p - mouseX) * (Part000.p_x p - mouseX) +
                          (Part000.p_y p - mouseY) * (Part000.p_y p - mouseY)) = 0).
    { rewrite <- Hd. unfold d, Part000.mouseDistance. by rewrite distance_norm. }
    set (u := Part000.p_x p - mouseX) in *.
    set (v := Part000.p_y p - mouseY) in *.
    assert (Hsq : u * u + v * v = 0).
    { apply sqrt_eq_0; [| done].
      pose proof (Rle_0_sqr u). pose proof (Rle_0_sqr v). unfold Rsqr in *. lra. }
    destruct (Rplus_sqr_eq_0 u v Hsq) as [Hx Hy]. subst u v.
    unfold p', Part000.repel. fold d. rewrite decide_True by lra. simpl.
    rewrite Hx, Hy, Hd. unfold JS.Math_atan2.
    rewrite !decide_False by lra.
    rewrite cos_0, sin_0. unfold Part000.mouseForce. split; lra.
Qed.

(** ** The claims on [HeroScene.update] itself *)

Section HeroFrame.

(** The pointer relative to the canvas, as [update()] of [part_000]
    computes it: [appState.mousePosition.x - rect.left] and
    [appState.mousePosition.y - rect.top]. *)
#[local] Abbreviation pointerX g c :=
  (fst (mousePosition g) - rect_left (boundingClientRect c)).
#[local] Abbreviation pointerY g c :=
  (snd (mousePosition g) - rect_top (boundingClientRect c)).

(** What [update()] of [part_000] returns on a scene that holds a
    canvas and its fields, slot by slot. *)
Lemma Part000_update_slot (s : Scene3D (option Part000.HeroFields))
    (g : Globals) (c : Canvas) (f : Part000.HeroFields) :
  canvas s = Some c -> ext s = Some f ->
  exists f',
    Part000.HeroScene_update s g = Normal (Some f', g) /\
    length (Part000.particles f') = length (Part000.particles f) /\
    forall i,
      Part000.particles f' !! i
      = (fun p =>
           let moved :=
             Part000.move (boundingClientRect c) (pointerX g c)
               (pointerY g c) p in
           Part000.set_connections moved
             (Part000.connect (Part000.particles f) moved i))
          <$> Part000.particles f !! i.
Proof.
  intros Hc Hf. eexists. split.
  - unfold Part000.HeroScene_update. rewrite Hc, Hf. reflexivity.
  - cbn [Part000.particles]. split.
    + apply updateParticles_length.
    + intros i. apply updateParticles_lookup.
Qed.

Lemma AppJs_update_slot (s : Scene3D (option AppJs.HeroFields))
    (g : Globals) (c : Canvas) (f : AppJs.HeroFields) :
  canvas s = Some c -> ext s = Some f ->
  exists f',
    AppJs.HeroScene_update s g = Normal (Some f', g) /\
    forall i,
      AppJs.particles f' !! i
      = AppJs.move (clientWidth c) (clientHeight c) <$> AppJs.particles f !! i.
Proof.
  intros Hc Hf. eexists. split.
  - unfold AppJs.HeroScene_update. rewrite Hc, Hf. reflexivity.
  - cbn [AppJs.particles]. intros i. unfold AppJs.updateParticles.
    apply list_lookup_fmap.
Qed.

(** The position [move] leaves a particle at: the push, the step along
    the heading, then the clamp. *)
Lemma Part000_move_pos (rect : DOMRect) (mx my : R) (p : Part000.Particle) :
  Part000.p_x (Part000.move rect mx my p)
  = JS.Math_max 0
      (JS.Math_min (rect_width rect)
         (Part000.p_x (Part000.repel mx my p)
          + cos (Part000.p_angle p) * Part000.p_speed p)) /\
  Part000.p_y (Part000.move rect mx my p)
  = JS.Math_max 0
      (JS.Math_min (rect_height rect)
         (Part000.p_y (Part000.repel mx my p)
          + sin (Part000.p_angle p) * Part000.p_speed p)).
Proof.
  unfold Part000.move.
  cbn [Part000.clamp Part000.p_x Part000.p_y Part000.set_pos].
  destruct (Part000_reflect_pos rect
              (Part000.integrate (Part000.repel mx my p))) as [-> ->].
  assert (Part000.p_angle (Part000.repel mx my p) = Part000.p_angle p) as Ha
    by (unfold Part000.repel; by case_decide).
  assert (Part000.p_speed (Part000.repel mx my p) = Part000.p_speed p) as Hs
    by (unfold Part000.repel; by case_decide).
  cbn [Part000.integrate Part000.p_x Part000.p_y Part000.set_pos
       Part000.set_pulsePhase].
  by rewrite Ha, Hs.
Qed.

(** C2.  [update()] of a hero scene of [part_000] that holds a canvas
    and its particles returns, and in the array it leaves, the particle
    in slot [i] holds a connection to a later particle [j] exactly when
    the distance between particle [i] (at its new position) and
    particle [j] (as the array holds it when slot [i] is visited, that
    is, as it was before the frame) is below 120; the recorded opacity
    is (120 - distance) / 120 of that distance and lies in [0, 1]; at
    distance 50 it is 70 / 120, about 0.583.  Connections only point to
    later slots of the array. *)
Theorem C2_connection_strength
    (s : Scene3D (option Part000.HeroFields)) (g : Globals) (c : Canvas)
    (f : Part000.HeroFields) :
  canvas s = Some c -> ext s = Some f ->
  exists f',
    Part000.HeroScene_update s g = Normal (Some f', g) /\
    length (Part000.particles f') = length (Part000.particles f) /\
    forall (i : nat) (p : Part000.Particle),
      Part000.particles f' !! i = Some p ->
      (forall (j : nat) (other : Part000.Particle),
          (i < j)%nat -> Part000.particles f !! j = Some other ->
          let distance :=
            JS.distance (Part000.p_x p) (Part000.p_y p)
                        (Part000.p_x other) (Part000.p_y other) in
          (distance < 120 <->
           exists cn, cn ∈ Part000.p_connections p /\
                      Part000.c_particle cn = j) /\
          (forall cn, cn ∈ Part000.p_connections p ->
             Part000.c_particle cn = j ->
             Part000.c_opacity cn = (120 - distance) / 120 /\
             0 <= Part000.c_opacity cn <= 1) /\
          (distance = 50 ->
           exists cn, cn ∈ Part000.p_connections p /\
                      Part000.c_particle cn = j /\
                      Part000.c_opacity cn = (120 - 50) / 120 /\
                      0.583 < Part000.c_opacity cn < 0.584)) /\
      (forall cn, cn ∈ Part000.p_connections p ->
         (i < Part000.c_particle cn < length (Part000.particles f))%nat).
Proof.
  intros Hc Hf.
  destruct (Part000_update_slot s g c f Hc Hf) as (f' & Hup & Hlen & Hslot).
  exists f'. split; [exact Hup |]. split; [exact Hlen |].
  intros i p Hp.
  apply (updateParticles_connections (boundingClientRect c)
           (pointerX g c) (pointerY g c)).
  rewrite updateParticles_lookup. rewrite <- Hp. symmetry. apply Hslot.
Qed.

(** C3.  [update()] of a hero scene on a particle at x = 0 heading left
    (angle PI) whose step takes it across the left boundary: in the
    array the update returns, the particle's heading is PI - PI = 0, so
    the x-component of the heading has changed sign and the y-component
    has not, and the clamp has put the particle at x = 0 exactly.  Both
    copies. *)
Theorem C3_left_boundary_reflection :
  (forall (s : Scene3D (option Part000.HeroFields)) (g : Globals) (c : Canvas)
          (f : Part000.HeroFields) (i : nat) (p : Part000.Particle),
      canvas s = Some c -> ext s = Some f ->
      Part000.particles f !! i = Some p ->
      Part000.p_x p = 0 -> Part000.p_angle p = PI ->
      Part000.p_x
        (Part000.integrate
           (Part000.repel (pointerX g c) (pointerY g c) p)) < 0 ->
      exists f' p',
        Part000.HeroScene_update s g = Normal (Some f', g) /\
        Part000.particles f' !! i = Some p' /\
        Part000.p_angle p' = PI - Part000.p_angle p /\
        cos (Part000.p_angle p') = - cos (Part000.p_angle p) /\
        sin (Part000.p_angle p') = sin (Part000.p_angle p) /\
        Part000.p_x p' = 0) /\
  (forall (s : Scene3D (option AppJs.HeroFields)) (g : Globals) (c : Canvas)
          (f : AppJs.HeroFields) (i : nat) (p : AppJs.Particle),
      canvas s = Some c -> ext s = Some f ->
      AppJs.particles f !! i = Some p ->
      AppJs.p_x p = 0 -> AppJs.p_angle p = PI ->
      AppJs.p_x (AppJs.integrate p) < 0 ->
      exists f' p',
        AppJs.HeroScene_update s g = Normal (Some f', g) /\
        AppJs.particles f' !! i = Some p' /\
        AppJs.p_angle p' = PI - AppJs.p_angle p /\
        cos (AppJs.p_angle p') = - cos (AppJs.p_angle p) /\
        sin (AppJs.p_angle p') = sin (AppJs.p_angle p) /\
        AppJs.p_x p' = 0).
Proof.
  split.
  - intros s g c f i p Hc Hf Hi Hx Ha Hcross.
    destruct (Part000_update_slot s g c f Hc Hf) as (f' & Hup & _ & Hslot).
    eexists f', _. split; [exact Hup |].
    split; [rewrite Hslot, Hi; reflexivity |].
    cbv zeta. cbn [Part000.p_angle Part000.p_x Part000.set_connections].
    exact (proj1 move_left_boundary (boundingClientRect c)
             (pointerX g c) (pointerY g c) p Hx Ha Hcross).
  - intros s g c f i p Hc Hf Hi Hx Ha Hcross.
    destruct (AppJs_update_slot s g c f Hc Hf) as (f' & Hup & Hslot).
    eexists f', _. split; [exact Hup |].
    split; [rewrite Hslot, Hi; reflexivity |].
    exact (proj2 move_left_boundary (clientWidth c) (clientHeight c)
             p Hx Ha Hcross).
Qed.

(** C4.  Pointer repulsion in [update()] of [part_000], interaction
    radius 100.  [d] is the distance of a particle from the pointer,
    taken relative to the canvas.  The update returns, and the position
    it leaves the particle at is the clamp of: the old position, plus,
    for 0 < d < 100, the unit vector from the pointer to the particle
    times the force factor (100 - d) / 100 times 2, plus the step along
    the heading.  At d = 60 the factor is 0.4.  For d >= 100 there is
    no repulsion term.  (With the pointer exactly on the particle there
    is no such unit vector; [Math.atan2(0, 0)] is 0 and the particle is
    pushed by 2 along the x axis.) *)
Theorem C4_pointer_repulsion
    (s : Scene3D (option Part000.HeroFields)) (g : Globals) (c : Canvas)
    (f : Part000.HeroFields) (i : nat) (p : Part000.Particle) :
  canvas s = Some c -> ext s = Some f ->
  Part000.particles f !! i = Some p ->
  let rect := boundingClientRect c in
  let d :=
    JS.distance (pointerX g c) (pointerY g c)
      (Part000.p_x p) (Part000.p_y p) in
  let stepX := cos (Part000.p_angle p) * Part000.p_speed p in
  let stepY := sin (Part000.p_angle p) * Part000.p_speed p in
  let clampX v := JS.Math_max 0 (JS.Math_min (rect_width rect) v) in
  let clampY v := JS.Math_max 0 (JS.Math_min (rect_height rect) v) in
  exists f' p',
    Part000.HeroScene_update s g = Normal (Some f', g) /\
    Part000.particles f' !! i = Some p' /\
    (0 < d -> d < 100 ->
     let factor := (100 - d) / 100 in
     Part000.p_x p'
     = clampX (Part000.p_x p
               + (Part000.p_x p - pointerX g c) / d * factor * 2 + stepX) /\
     Part000.p_y p'
     = clampY (Part000.p_y p
               + (Part000.p_y p - pointerY g c) / d * factor * 2 + stepY)) /\
    (d = 60 ->
     Part000.p_x p'
     = clampX (Part000.p_x p
               + (Part000.p_x p - pointerX g c) / 60 * 0.4 * 2 + stepX) /\
     Part000.p_y p'
     = clampY (Part000.p_y p
               + (Part000.p_y p - pointerY g c) / 60 * 0.4 * 2 + stepY)) /\
    (100 <= d ->
     Part000.p_x p' = clampX (Part000.p_x p + stepX) /\
     Part000.p_y p' = clampY (Part000.p_y p + stepY)) /\
    (d = 0 ->
     Part000.p_x p' = clampX (Part000.p_x p + 2 + stepX) /\
     Part000.p_y p' = clampY (Part000.p_y p + stepY)).
Proof.
  intros Hc Hf Hi rect d stepX stepY clampX clampY.
  destruct (Part000_update_slot s g c f Hc Hf) as (f' & Hup & _ & Hslot).
  eexists f', _. split; [exact Hup |].
  split; [rewrite Hslot, Hi; reflexivity |].
  cbv beta zeta. cbn [Part000.p_x Part000.p_y Part000.set_connections].
  destruct (Part000_move_pos (boundingClientRect c) (pointerX g c)
              (pointerY g c) p) as [-> ->].
  destruct (repel_displacement (pointerX g c) (pointerY g c) p)
    as (Hnear & _ & Hfar & Hzero).
  change (Part000.mouseDistance (pointerX g c) (pointerY g c) p) with d
    in Hnear, Hfar, Hzero.
  assert (forall a b e, a - b = e -> a = b + e) as Hmv by (intros; lra).
  split_and!.
  - intros H0 H100. destruct (Hnear H0 H100) as (_ & Hx & Hy).
    apply Hmv in Hx, Hy. rewrite Hx, Hy. unfold Part000.mouseForce. done.
  - intros H60. destruct Hnear as (_ & Hx & Hy); [lra | lra |].
    apply Hmv in Hx, Hy. rewrite Hx, Hy. unfold Part000.mouseForce.
    rewrite H60. subst clampX clampY stepX stepY. cbv beta.
    split; do 2 f_equal; lra.
  - intros H100. by rewrite (Hfar H100).
  - intros H0. destruct (Hzero H0) as [-> ->]. done.
Qed.

End HeroFrame.

(** ** The properties on the sample scenes *)

Section SampleFacts.

Lemma distance_eq (t ax ay bx by_ : R) :
  0 <= t -> t * t = (ax - bx) * (ax - bx) + (ay - by_) * (ay - by_) ->
  JS.distance ax ay bx by_ = t.
Proof.
  intros Ht Hsq. unfold JS.distance, JS.Math_pow2.
  apply sqrt_lem_1; [nra | done | lra].
Qed.

Lemma distance_ge (t ax ay bx by_ : R) :
  0 <= t -> t * t <= (ax - bx) * (ax - bx) + (ay - by_) * (ay - by_) ->
  t <= JS.distance ax ay bx by_.
Proof.
  intros Ht Hsq. unfold JS.distance, JS.Math_pow2.
  rewrite <- (sqrt_square t) by done.
  apply sqrt_le_1_alt. lra.
Qed.

(** The pointer of the sample page is out of reach of the particles. *)
Lemma pointer_far (p : Part000.Particle) :
  0 <= Part000.p_y p <= 100 ->
  100 <= Part000.mouseDistance (50 - 0) (1050 - 0) p.
Proof. intros Hy. unfold Part000.mouseDistance. apply distance_ge; nra. Qed.

Lemma drifting_moved :
  let p' := Part000.move Sample.rect (50 - 0) (1050 - 0) Sample.drifting in
  Part000.p_x p' = 51 /\ Part000.p_y p' = 50.
Proof.
  cbv zeta. unfold Part000.move.
  rewrite repel_far by (apply pointer_far; simpl; lra).
  cbn [Part000.clamp Part000.p_x Part000.p_y Part000.set_pos].
  destruct (Part000_reflect_pos Sample.rect (Part000.integrate Sample.drifting))
    as [-> ->].
  simpl. rewrite cos_0, sin_0.
  unfold JS.Math_max, JS.Math_min.
  rewrite !Rmin_right, !Rmax_right by lra. lra.
Qed.

Lemma neighbour_moved :
  let p' := Part000.move Sample.rect (50 - 0) (1050 - 0) Sample.neighbour in
  Part000.p_x p' = 102 /\ Part000.p_y p' = 50.
Proof.
  cbv zeta. unfold Part000.move.
  rewrite repel_far by (apply pointer_far; simpl; lra).
  cbn [Part000.clamp Part000.p_x Part000.p_y Part000.set_pos].
  destruct (Part000_reflect_pos Sample.rect (Part000.integrate Sample.neighbour))
    as [-> ->].
  simpl. rewrite cos_0, sin_0.
  unfold JS.Math_max, JS.Math_min.
  rewrite !Rmin_right, !Rmax_right by lra. lra.
Qed.

(** The opacity of a connection is computed from the partner's position
    before the partner moves in the same frame: after the frame the two
    sample particles are 51 apart, while the recorded opacity is that of
    distance 50. *)
Lemma connection_uses_partner_before_its_move :
  exists p q c,
    Part000.updateParticles Sample.rect (50 - 0) (1050 - 0)
      [Sample.drifting; Sample.neighbour] = [p; q] /\
    Part000.p_connections p = [c] /\
    Part000.c_particle c = 1%nat /\
    Part000.c_opacity c = (120 - 50) / 120 /\
    JS.distance (Part000.p_x p) (Part000.p_y p) (Part000.p_x q) (Part000.p_y q)
      = 51.
Proof.
  set (particles := [Sample.drifting; Sample.neighbour]).
  set (u := Part000.updateParticles Sample.rect (50 - 0) (1050 - 0) particles).
  pose proof (updateParticles_length Sample.rect (50 - 0) (1050 - 0) particles)
    as Hlen.
  pose proof (updateParticles_lookup Sample.rect (50 - 0) (1050 - 0) particles 0)
    as H0.
  pose proof (updateParticles_lookup Sample.rect (50 - 0) (1050 - 0) particles 1)
    as H1.
  fold u in Hlen, H0, H1.
  destruct u as [| p [| q [| ? ?]]]; try done.
  simpl in H0, H1. injection H0 as ->. injection H1 as ->.
  destruct drifting_moved as [Hx Hy]. destruct neighbour_moved as [Hx' Hy'].
  set (a := Part000.move Sample.rect (50 - 0) (1050 - 0) Sample.drifting) in *.
  set (b := Part000.move Sample.rect (50 - 0) (1050 - 0) Sample.neighbour) in *.
  assert (Hd : JS.distance (Part000.p_x a) (Part000.p_y a)
                 (Part000.p_x Sample.neighbour) (Part000.p_y Sample.neighbour) = 50).
  { rewrite Hx, Hy. apply distance_eq; simpl; lra. }
  eexists _, _, _. split; [reflexivity |].
  cbn [Part000.p_connections Part000.set_connections Part000.p_x Part000.p_y].
  split_and!.
  - unfold Part000.connect, particles. cbn [length Nat.sub seq flat_map app].
    unfold Part000.connect1. cbn [lookup list_lookup].
    rewrite Hd. rewrite decide_True by lra. reflexivity.
  - reflexivity.
  - reflexivity.
  - rewrite Hx, Hy, Hx', Hy'. apply distance_eq; lra.
Qed.

Lemma leaving_crosses :
  Part000.p_x
    (Part000.integrate (Part000.repel (50 - 0) (1050 - 0) Sample.leaving)) < 0.
Proof.
  rewrite repel_far by (apply pointer_far; simpl; lra).
  simpl. rewrite cos_PI. lra.
Qed.

Lemma leavingV1_crosses : AppJs.p_x (AppJs.integrate Sample.leavingV1) < 0.
Proof. simpl. rewrite cos_PI. lra. Qed.


(** The pointer of the sample page is 60 away from [Sample.pushed] on a
    canvas whose origin is under it. *)
Lemma pushed_distance_page :
  JS.distance (50 - 50) (1050 - 1050)
    (Part000.p_x Sample.pushed) (Part000.p_y Sample.pushed) = 60.
Proof. apply distance_eq; simpl; lra. Qed.

End SampleFacts.

Lemma C1_clamp_invariant_witness :
  (exists p,
      p ∈ Part000.updateParticles Sample.rect (50 - 0) (1050 - 0) [Sample.drifting] /\
      0 <= Part000.p_x p <= 200 /\ 0 <= Part000.p_y p <= 100) /\
  (exists p,
      p ∈ AppJs.updateParticles 200 100 [Sample.leavingV1] /\
      0 <= AppJs.p_x p <= 200 /\ 0 <= AppJs.p_y p <= 100).
Proof.
  split.
  - eexists. split; [apply list_elem_of_here |].
    apply (proj1 C1_clamp_invariant (scene Sample.heroWorld)
             (globals Sample.heroWorld) (globals Sample.heroWorld)
             Sample.surface
             {| Part000.particles :=
                  Part000.updateParticles Sample.rect (50 - 0) (1050 - 0)
                    [Sample.drifting];
                Part000.shapes := [] |}).
    + reflexivity.
    + simpl; lra.
    + simpl; lra.
    + reflexivity.
    + apply list_elem_of_here.
  - eexists. split; [apply list_elem_of_here |].
    apply (proj2 C1_clamp_invariant (scene Sample.heroWorldV1)
             (globals Sample.heroWorldV1) (globals Sample.heroWorldV1)
             Sample.surface
             {| AppJs.particles := AppJs.updateParticles 200 100 [Sample.leavingV1];
                AppJs.shapes := [] |}).
    + reflexivity.
    + simpl; lra.
    + simpl; lra.
    + reflexivity.
    + apply list_elem_of_here.
Defined.

Lemma C2_connection_strength_witness :
  exists f' p cn,
    Part000.HeroScene_update
      (Example.heroScene Sample.blindSurface
         [Sample.drifting; Sample.neighbour])
      Example.page = Normal (Some f', Example.page) /\
    Part000.particles f' !! 0%nat = Some p /\
    cn ∈ Part000.p_connections p /\ Part000.c_particle cn = 1%nat /\
    Part000.c_opacity cn = (120 - 50) / 120 /\
    0.583 < Part000.c_opacity cn < 0.584.
Proof.
  set (particles := [Sample.drifting; Sample.neighbour]).
  set (moved := Part000.move Sample.rect (50 - 0) (1050 - 0) Sample.drifting).
  set (p := Part000.set_connections moved (Part000.connect particles moved 0)).
  destruct (C2_connection_strength
              (Example.heroScene Sample.blindSurface particles)
              Example.page Sample.blindSurface
              {| Part000.particles := particles; Part000.shapes := [] |}
              eq_refl eq_refl)
    as (f' & Hup & _ & Hslots).
  assert (Hf' : Some f'
                = Some {| Part000.particles :=
                            Part000.updateParticles Sample.rect (50 - 0)
                              (1050 - 0) particles;
                          Part000.shapes := [] |}).
  { change (Normal
              (Some {| Part000.particles :=
                         Part000.updateParticles Sample.rect (50 - 0)
                           (1050 - 0) particles;
                       Part000.shapes := [] |}, Example.page)
            = Normal (Some f', Example.page)) in Hup.
    injection Hup as Hf'. by rewrite Hf'. }
  injection Hf' as Hf'.
  assert (Hp : Part000.particles f' !! 0%nat = Some p).
  { rewrite Hf'. cbn [Part000.particles].
    rewrite updateParticles_lookup. reflexivity. }
  destruct (Hslots 0%nat p Hp) as [Hpairs _].
  destruct (Hpairs 1%nat Sample.neighbour) as (_ & _ & Hfifty).
  - lia.
  - reflexivity.
  - destruct Hfifty as (cn & Hcn & Hj & Hop & Hrange).
    + cbn [p Part000.p_x Part000.p_y Part000.set_connections].
      destruct drifting_moved as [Hx Hy]. fold moved in Hx, Hy.
      rewrite Hx, Hy. apply distance_eq; simpl; lra.
    + exists f', p, cn.
      exact (conj Hup (conj Hp (conj Hcn (conj Hj (conj Hop Hrange))))).
Defined.

Lemma C3_left_boundary_reflection_witness :
  (exists f' p',
     Part000.HeroScene_update
       (Example.heroScene Sample.blindSurface [Sample.leaving]) Example.page
     = Normal (Some f', Example.page) /\
     Part000.particles f' !! 0%nat = Some p' /\
     Part000.p_angle p' = PI - PI /\ Part000.p_x p' = 0) /\
  (exists f' p',
     AppJs.HeroScene_update (scene Sample.heroWorldV1) Example.page
     = Normal (Some f', Example.page) /\
     AppJs.particles f' !! 0%nat = Some p' /\
     AppJs.p_angle p' = PI - PI /\ AppJs.p_x p' = 0).
Proof.
  split.
  - destruct (proj1 C3_left_boundary_reflection
                (Example.heroScene Sample.blindSurface [Sample.leaving])
                Example.page Sample.blindSurface
                {| Part000.particles := [Sample.leaving];
                   Part000.shapes := [] |}
                0%nat Sample.leaving eq_refl eq_refl eq_refl eq_refl eq_refl
                leaving_crosses)
      as (f' & p' & Hup & Hp & Ha & _ & _ & Hx).
    exists f', p'. exact (conj Hup (conj Hp (conj Ha Hx))).
  - destruct (proj2 C3_left_boundary_reflection (scene Sample.heroWorldV1)
                Example.page Sample.surface
                {| AppJs.particles := [Sample.leavingV1]; AppJs.shapes := [] |}
                0%nat Sample.leavingV1 eq_refl eq_refl eq_refl eq_refl eq_refl
                leavingV1_crosses)
      as (f' & p' & Hup & Hp & Ha & _ & _ & Hx).
    exists f', p'. exact (conj Hup (conj Hp (conj Ha Hx))).
Defined.

Lemma C4_pointer_repulsion_witness :
  exists f' p',
    Part000.HeroScene_update
      (Example.heroScene Example.pointedSurface [Sample.pushed]) Example.page
    = Normal (Some f', Example.page) /\
    Part000.particles f' !! 0%nat = Some p' /\
    Part000.p_x p' = 61.8 /\ Part000.p_y p' = 0.
Proof.
  destruct (C4_pointer_repulsion
              (Example.heroScene Example.pointedSurface [Sample.pushed])
              Example.page Example.pointedSurface
              {| Part000.particles := [Sample.pushed]; Part000.shapes := [] |}
              0%nat Sample.pushed eq_refl eq_refl eq_refl)
    as (f' & p' & Hup & Hp & _ & Hsixty & _ & _).
  destruct (Hsixty pushed_distance_page) as [Hx Hy].
  exists f', p'. split; [exact Hup |]. split; [exact Hp |].
  rewrite Hx, Hy. simpl. rewrite cos_0, sin_0.
  unfold JS.Math_max, JS.Math_min.
  split.
  - rewrite Rmin_right by lra. rewrite Rmax_right by lra. lra.
  - rewrite Rmin_right by lra. rewrite Rmax_right by lra. lra.
Defined.

Lemma C7_stop_start_runs_one_cycle_witness :
  scene (stop Sample.heroWorld) = set_isRunning (scene Sample.heroWorld) false /\
  exists w',
    start part_000 Part000.HeroScene_update Part000.HeroScene_render
      (stop Sample.heroWorld) = Normal w' /\
    time (scene w') = 0 + 0.016 /\
    animationId (scene w') = Some 2%positive.
Proof.
  edestruct (C7_stop_start_runs_one_cycle part_000 Part000.HeroScene_update
               Part000.HeroScene_render Sample.heroWorld) as (Hstop & _ & Hstart).
  - reflexivity.
  - reflexivity.
  - split; [exact Hstop |].
    eexists. split; [exact Hstart |]. split; reflexivity.
Defined.

Lemma C10_start_not_idempotent_witness :
  let w2 := settle (start part_000 Part000.HeroScene_update
                      Part000.HeroScene_render Sample.heroWorld) in
  frameCallbacks w2 = [1%positive; 2%positive] /\
  forall n : nat,
    length (frameCallbacks
              (Nat.iter n (frame part_000 Part000.HeroScene_update
                             Part000.HeroScene_render) w2)) = 2%nat.
Proof.
  destruct (C10_start_not_idempotent part_000 Part000.HeroScene_update
              Part000.HeroScene_render Sample.heroWorld) as [Hcallbacks Hframes].
  - reflexivity.
  - reflexivity.
  - split; [exact Hcallbacks |].
    intros n. destruct (Hframes n) as (_ & Htwo & _). exact Htwo.
Defined.

(** ** The loading screen *)

Lemma forEachCollect_length {A B} (f : A -> Script B) (l : list A) (g : Globals) :
  length (fst (forEachCollect l f g)) = length l.
Proof.
  revert g. induction l as [| a l IH]; intros g; [done |].
  simpl. unfold mbind, Script_bind. destruct (f a g) as [b g1].
  specialize (IH g1). destruct (forEachCollect l f g1) as [bs g2].
  simpl in *. by rewrite IH.
Qed.

(** Without the reduced-motion preference, and with the container in the
    page, the loading screen gains 60 particles (30 on a narrow viewport). *)
Lemma initParticles_creates (doc : Loading.Document) (g : Globals)
    (children : list Loading.LoadingParticle) :
  isReducedMotion g = false ->
  Loading.loadingParticles doc = Some children ->
  length (Loading.particleElements (fst (Loading.initParticles doc g))) =
  (length children + (if isMobile g then 30 else 60))%nat.
Proof.
  intros Hr Hc. unfold Loading.initParticles. rewrite Hr, Hc.
  rewrite bool_decide_eq_true_2 by done. simpl.
  unfold mbind, Script_bind.
  pose proof (forEachCollect_length (fun _ => Loading.newLoadingParticle)
                (seq 0 (if isMobile g then 30 else 60)) g) as Hlen.
  destruct (forEachCollect _ _ g) as [created g1]. simpl in *.
  unfold Loading.particleElements. simpl.
  rewrite length_app, Hlen, length_seq. done.
Qed.

(** C9.  With the reduced-motion preference set, [initParticles] returns
    at its first test: it creates no particle element, appends no style
    and draws no random number, whatever the viewport and whether or not
    the container exists; a loading screen that held no particle holds
    none afterwards. *)
Theorem C9_reduced_motion_no_particles (doc : Loading.Document) (g : Globals) :
  isReducedMotion g = true ->
  Loading.initParticles doc g = (doc, g) /\
  (Loading.particleElements doc = [] ->
   Loading.particleElements (fst (Loading.initParticles doc g)) = []).
Proof.
  intros Hr.
  assert (Hinit : Loading.initParticles doc g = (doc, g)).
  { unfold Loading.initParticles. by rewrite Hr. }
  split; [done |]. by rewrite Hinit.
Qed.

Lemma C9_reduced_motion_no_particles_witness :
  Loading.particleElements
    (fst (Loading.initParticles
            {| Loading.loadingParticles := Some []; Loading.headStyles := 0 |}
            (Sample.page 0 true))) = [].
Proof.
  apply (C9_reduced_motion_no_particles
           {| Loading.loadingParticles := Some []; Loading.headStyles := 0 |}
           (Sample.page 0 true)).
  - reflexivity.
  - reflexivity.
Defined.

(** ** Scenes constructed without a drawing surface *)

Section Surfaceless.
Context {X : Type}.
Variable copy : Copy.
Variables update render : Hook X.

Lemma construct_without_context (c : option Canvas) (particleCount : nat)
    (type : string) (x0 : X) (g : Globals) (next : positive) :
  has_context c = false ->
  construct copy update render c particleCount type x0 g next =
  Normal {| scene := {| canvas := c; ctx := false; isRunning := false;
                        animationId := None; time := 0;
                        options_particleCount := particleCount;
                        options_type := type; ext := x0 |};
            globals := g; frameCallbacks := []; nextHandle := next |}.
Proof.
  intros Hc. unfold construct. destruct c as [cv |]; [| done].
  simpl in Hc. unfold init. simpl. rewrite Hc. done.
Qed.

Lemma stop_idle (w : World X) : idle w -> stop w = w /\ dispose w = w.
Proof.
  destruct w as [[c cx run h t pc ty x] g cbs next].
  unfold idle, dispose, stop. simpl. intros (-> & -> & -> & ->). done.
Qed.

(** [start()] on any scene whose hooks return. *)
Lemma start_normal (w : World X) (x1 x2 : X) (g1 g2 : Globals) :
  let s1 :=
    set_time
      (set_animationId (set_isRunning (scene w) true) (Some (nextHandle w)))
      (match copy with
       | app_js => time (scene w)
       | part_000 => time (scene w) + 0.016
       end) in
  update s1 (globals w) = Normal (x1, g1) ->
  render (set_ext s1 x1) g1 = Normal (x2, g2) ->
  start copy update render w =
    Normal {| scene := set_ext s1 x2;
              globals := match copy with
                         | app_js => g2
                         | part_000 => monitorTick g2
                         end;
              frameCallbacks := frameCallbacks w ++ [nextHandle w];
              nextHandle := Pos.succ (nextHandle w) |}.
Proof.
  intros s1 Hu Hr. unfold start, animate. simpl. subst s1.
  destruct copy;
    cbv [call set_time set_animationId set_isRunning set_scene set_globals
         set_ext monitor] in *;
    cbn [scene globals canvas ctx isRunning animationId time
         options_particleCount options_type ext frameCallbacks nextHandle
         negb andThen] in *;
    rewrite Hu; cbn [andThen scene globals canvas ctx isRunning animationId
                     time options_particleCount options_type ext
                     frameCallbacks nextHandle];
    rewrite Hr; reflexivity.
Qed.

(** An idle scene whose [render] returns at the context guard and whose
    [update] returns on the fields it holds has all the properties
    collected in [constructed_idle]. *)
Lemma constructed_idle_intro (P : X -> Prop) (c : option Canvas) (w : World X) :
  (forall s g, ctx s = false -> render s g = Normal (ext s, g)) ->
  (forall s g, P (ext s) -> exists x g', update s g = Normal (x, g')) ->
  canvas (scene w) = c -> idle w -> P (ext (scene w)) ->
  constructed_idle copy update render c (Normal w).
Proof.
  intros Hrender Hupdate Hc Hidle HP. exists w.
  destruct (stop_idle w Hidle) as [Hstop Hdispose].
  pose proof Hidle as (Hctx & Hrun & Hid & Hcbs).
  split_and!; [done | done | done | done | done | by apply Hrender | by apply Hupdate |].
  set (s1 := set_time
               (set_animationId (set_isRunning (scene w) true)
                  (Some (nextHandle w)))
               (match copy with
                | app_js => time (scene w)
                | part_000 => time (scene w) + 0.016
                end)).
  destruct (Hupdate s1 (globals w)) as (x1 & g1 & Hu); [done |].
  assert (Hr : render (set_ext s1 x1) g1 = Normal (x1, g1)).
  { rewrite Hrender; done. }
  eexists. split; [apply (start_normal w x1 x1 g1 g1 Hu Hr) |].
  simpl. rewrite Hcbs. done.
Qed.

End Surfaceless.

Section SurfacelessClasses.

Lemma Part000_hero_render_guard (s : Scene3D (option Part000.HeroFields)) g :
  ctx s = false -> Part000.HeroScene_render s g = Normal (ext s, g).
Proof. intros Hc. unfold Part000.HeroScene_render. by rewrite Hc. Qed.

Lemma Part000_hero_update_returns (s : Scene3D (option Part000.HeroFields)) g :
  is_Some (ext s) -> exists x g', Part000.HeroScene_update s g = Normal (x, g').
Proof.
  intros [f Hf]. unfold Part000.HeroScene_update. rewrite Hf.
  destruct (canvas s); eauto.
Qed.

Lemma Part000_hero_update_guard (s : Scene3D (option Part000.HeroFields)) g :
  canvas s = None -> Part000.HeroScene_update s g = Normal (ext s, g).
Proof. intros Hc. unfold Part000.HeroScene_update. by rewrite Hc. Qed.

Lemma Part000_canvas_render_guard (s : Scene3D (option (list Part000.Element))) g :
  ctx s = false -> Part000.CanvasScene_render s g = Normal (ext s, g).
Proof. intros Hc. unfold Part000.CanvasScene_render. by rewrite Hc. Qed.

Lemma Part000_base_render_guard {X} (s : Scene3D X) g :
  ctx s = false -> Part000.Scene3D_render s g = Normal (ext s, g).
Proof. intros Hc. unfold Part000.Scene3D_render. by rewrite Hc. Qed.

Lemma AppJs_hero_render_guard (s : Scene3D (option AppJs.HeroFields)) g :
  ctx s = false -> AppJs.HeroScene_render s g = Normal (ext s, g).
Proof. intros Hc. unfold AppJs.HeroScene_render. by rewrite Hc. Qed.

Lemma AppJs_hero_update_returns (s : Scene3D (option AppJs.HeroFields)) g :
  is_Some (ext s) -> exists x g', AppJs.HeroScene_update s g = Normal (x, g').
Proof.
  intros [f Hf]. unfold AppJs.HeroScene_update. rewrite Hf.
  destruct (canvas s); eauto.
Qed.

Lemma AppJs_hero_update_guard (s : Scene3D (option AppJs.HeroFields)) g :
  canvas s = None -> AppJs.HeroScene_update s g = Normal (ext s, g).
Proof. intros Hc. unfold AppJs.HeroScene_update. by rewrite Hc. Qed.

Lemma AppJs_canvas_render_guard (s : Scene3D (option AppJs.CanvasFields)) g :
  ctx s = false -> AppJs.CanvasScene_render s g = Normal (ext s, g).
Proof. intros Hc. unfold AppJs.CanvasScene_render. by rewrite Hc. Qed.

Lemma AppJs_canvas_update_returns (s : Scene3D (option AppJs.CanvasFields)) g :
  exists x g', AppJs.CanvasScene_update s g = Normal (x, g').
Proof. unfold AppJs.CanvasScene_update. destruct (ext s); eauto. Qed.

Lemma AppJs_base_render_guard {X} (s : Scene3D X) g :
  ctx s = false -> AppJs.Scene3D_render s g = Normal (ext s, g).
Proof. intros Hc. unfold AppJs.Scene3D_render. by rewrite Hc. Qed.

End SurfacelessClasses.

Section SurfacelessConstruction.
Variable c : option Canvas.
Variable g : Globals.
Variable next : positive.
Hypothesis Hc : has_context c = false.

Lemma Part000_new_Scene3D_idle :
  constructed_idle part_000 Part000.Scene3D_update Part000.Scene3D_render c
    (Part000.new_Scene3D c g next).
Proof using Hc.
  unfold Part000.new_Scene3D. rewrite construct_without_context by done.
  apply (constructed_idle_intro _ _ _ (fun _ => True)).
  - apply Part000_base_render_guard.
  - intros s g0 _. unfold Part000.Scene3D_update. eauto.
  - done.
  - done.
  - done.
Qed.

Lemma Part000_new_HeroScene_idle :
  constructed_idle part_000 Part000.HeroScene_update Part000.HeroScene_render c
    (Part000.new_HeroScene c g next).
Proof using Hc.
  unfold Part000.new_HeroScene. rewrite construct_without_context by done.
  cbv [andThen]. cbn [scene globals].
  destruct (Part000.initializeElements _ g) as [f g1].
  apply (constructed_idle_intro _ _ _ is_Some).
  - apply Part000_hero_render_guard.
  - apply Part000_hero_update_returns.
  - done.
  - done.
  - simpl. eauto.
Qed.

Lemma Part000_new_CanvasScene_idle (type : string) :
  constructed_idle part_000 Part000.Scene3D_update Part000.CanvasScene_render c
    (Part000.new_CanvasScene c type g next).
Proof using Hc.
  unfold Part000.new_CanvasScene. rewrite construct_without_context by done.
  cbv [andThen]. cbn [scene globals].
  destruct (Part000.initElements g) as [elements g1].
  apply (constructed_idle_intro _ _ _ (fun _ => True)).
  - apply Part000_canvas_render_guard.
  - intros s g0 _. unfold Part000.Scene3D_update. eauto.
  - done.
  - done.
  - done.
Qed.

Lemma AppJs_new_Scene3D_idle :
  constructed_idle app_js AppJs.Scene3D_update AppJs.Scene3D_render c
    (AppJs.new_Scene3D c g next).
Proof using Hc.
  unfold AppJs.new_Scene3D. rewrite construct_without_context by done.
  apply (constructed_idle_intro _ _ _ (fun _ => True)).
  - apply AppJs_base_render_guard.
  - intros s g0 _. unfold AppJs.Scene3D_update. eauto.
  - done.
  - done.
  - done.
Qed.

Lemma AppJs_new_HeroScene_idle :
  constructed_idle app_js AppJs.HeroScene_update AppJs.HeroScene_render c
    (AppJs.new_HeroScene c g next).
Proof using Hc.
  unfold AppJs.new_HeroScene. rewrite construct_without_context by done.
  cbv [andThen]. cbn [scene globals].
  destruct (AppJs.initializeElements _ g) as [f g1].
  apply (constructed_idle_intro _ _ _ is_Some).
  - apply AppJs_hero_render_guard.
  - apply AppJs_hero_update_returns.
  - done.
  - done.
  - simpl. eauto.
Qed.

Lemma AppJs_new_CanvasScene_idle (type : string) :
  constructed_idle app_js AppJs.CanvasScene_update AppJs.CanvasScene_render c
    (AppJs.new_CanvasScene c type g next).
Proof using Hc.
  unfold AppJs.new_CanvasScene. rewrite construct_without_context by done.
  cbv [andThen].
  apply (constructed_idle_intro _ _ _ (fun _ => True)).
  - apply AppJs_canvas_render_guard.
  - intros s g0 _. apply AppJs_canvas_update_returns.
  - done.
  - done.
  - done.
Qed.

Lemma Part000_new_HeroScene_handle (w : World (option Part000.HeroFields)) :
  Part000.new_HeroScene c g next = Normal w -> nextHandle w = next.
Proof using Hc.
  unfold Part000.new_HeroScene. rewrite construct_without_context by done.
  cbv [andThen]. cbn [scene globals].
  destruct (Part000.initializeElements _ g) as [f g1].
  intros [= <-]. reflexivity.
Qed.

End SurfacelessConstruction.

(** [setupCanvas()] on a scene that holds no context: the call does not
    return, a [TypeError] escapes from it (from
    [this.canvas.getBoundingClientRect()] when the canvas is absent, from
    [this.ctx.scale(dpr, dpr)] otherwise). *)
Lemma setupCanvas_without_context {X} (w : World X) :
  ctx (scene w) = false -> exists w', setupCanvas w = Thrown w'.
Proof.
  intros Hctx. unfold setupCanvas.
  destruct (canvas (scene w)) as [cv |]; [| eauto].
  simpl. rewrite Hctx. eauto.
Qed.

(** C8, as amended.  Constructing a scene of any class of either copy on
    an absent canvas, or on a canvas that yields no 2D context, does not
    fail; the scene is left not running, without context, handle or
    pending callback.  On it [stop()] and [dispose()] change nothing,
    [render()] returns at its guard and changes nothing, [update()]
    returns (and changes nothing on a hero scene whose canvas is absent),
    and [start()] returns too but is no no-op: it sets the running flag
    and leaves a frame callback pending.  ([setupCanvas()] is not covered
    by this statement.) *)
Theorem C8_surfaceless_scene_is_safe_but_startable
    (c : option Canvas) (type : string) (g : Globals) (next : positive) :
  has_context c = false ->
  constructed_idle part_000 Part000.Scene3D_update Part000.Scene3D_render c
    (Part000.new_Scene3D c g next) /\
  constructed_idle part_000 Part000.HeroScene_update Part000.HeroScene_render c
    (Part000.new_HeroScene c g next) /\
  constructed_idle part_000 Part000.Scene3D_update Part000.CanvasScene_render c
    (Part000.new_CanvasScene c type g next) /\
  constructed_idle app_js AppJs.Scene3D_update AppJs.Scene3D_render c
    (AppJs.new_Scene3D c g next) /\
  constructed_idle app_js AppJs.HeroScene_update AppJs.HeroScene_render c
    (AppJs.new_HeroScene c g next) /\
  constructed_idle app_js AppJs.CanvasScene_update AppJs.CanvasScene_render c
    (AppJs.new_CanvasScene c type g next) /\
  (forall (s : Scene3D (option Part000.HeroFields)) g0,
      canvas s = None -> Part000.HeroScene_update s g0 = Normal (ext s, g0)) /\
  (forall (s : Scene3D (option AppJs.HeroFields)) g0,
      canvas s = None -> AppJs.HeroScene_update s g0 = Normal (ext s, g0)).
Proof.
  intros Hc. split_and!.
  - by apply Part000_new_Scene3D_idle.
  - by apply Part000_new_HeroScene_idle.
  - by apply Part000_new_CanvasScene_idle.
  - by apply AppJs_new_Scene3D_idle.
  - by apply AppJs_new_HeroScene_idle.
  - by apply AppJs_new_CanvasScene_idle.
  - apply Part000_hero_update_guard.
  - apply AppJs_hero_update_guard.
Qed.

Lemma C8_surfaceless_scene_witness :
  constructed_idle part_000 Part000.HeroScene_update Part000.HeroScene_render
    (Some Sample.blindSurface)
    (Part000.new_HeroScene (Some Sample.blindSurface) (Sample.page 0 false)
       1%positive) /\
  constructed_idle app_js AppJs.CanvasScene_update AppJs.CanvasScene_render None
    (AppJs.new_CanvasScene None "network" (Sample.page 0 false) 1%positive).
Proof.
  split.
  - apply (C8_surfaceless_scene_is_safe_but_startable
             (Some Sample.blindSurface) "default" (Sample.page 0 false) 1%positive).
    reflexivity.
  - apply (C8_surfaceless_scene_is_safe_but_startable
             None "network" (Sample.page 0 false) 1%positive).
    reflexivity.
Defined.

(** C7 as stated fails: [stop()] followed by [start()] advances the
    time accumulator and moves the particles, because [start()] runs
    [animate] at once.  On the running sample hero scene of [part_000]
    the time and the particle differ afterwards; on the hero scene that
    the constructor returns for a canvas without 2D context, once it
    has been started, the time has grown by 0.016. *)
Lemma C7_stop_start_counterexample :
  (let w' := settle (start part_000 Part000.HeroScene_update
                       Part000.HeroScene_render (stop Sample.heroWorld)) in
   time (scene w') <> time (scene Sample.heroWorld) /\
   ext (scene w') <> ext (scene Sample.heroWorld)) /\
  (exists w w1,
     Part000.new_HeroScene (Some Sample.blindSurface) Example.page 1%positive
     = Normal w /\
     start part_000 Part000.HeroScene_update Part000.HeroScene_render w
     = Normal w1 /\
     isRunning (scene w1) = true /\
     time (scene (settle (start part_000 Part000.HeroScene_update
                            Part000.HeroScene_render (stop w1))))
     = time (scene w1) + 0.016).
Proof.
  split.
  - cbv zeta. split.
    + cbn. lra.
    + cbn. intros [= Heq].
      destruct drifting_moved as [Hx _].
      cbn in Hx. lra.
  - destruct (Part000_new_HeroScene_idle (Some Sample.blindSurface)
                Example.page 1%positive eq_refl)
      as (w & Hnew & _ & _ & _ & _ & _ & _ & w1 & Hstart & Hrun & _).
    exists w, w1. split; [exact Hnew |]. split; [exact Hstart |].
    split; [exact Hrun |].
    destruct (animate_running part_000 Part000.HeroScene_update
                Part000.HeroScene_render
                (set_scene (stop w1) (set_isRunning (scene (stop w1)) true))
                eq_refl) as (_ & _ & _ & _ & _ & _ & Ht).
    unfold start. rewrite Ht.
    cbn [scene set_scene time set_isRunning].
    by rewrite (proj1 (stop_scene w1)).
Qed.

(** C8 as stated fails: a hero scene of [part_000] constructed on a canvas
    without 2D context is not permanently idle, and [start()] is no no-op
    on it: the call leaves the scene running with a frame callback
    pending. *)
Lemma C8_start_counterexample :
  exists w w',
    Part000.new_HeroScene (Some Sample.blindSurface) (Sample.page 0 false)
      1%positive = Normal w /\
    start part_000 Part000.HeroScene_update Part000.HeroScene_render w
      = Normal w' /\
    w' <> w /\ isRunning (scene w) = false /\ isRunning (scene w') = true /\
    frameCallbacks w' = [1%positive].
Proof.
  destruct (Part000_new_HeroScene_idle (Some Sample.blindSurface)
              (Sample.page 0 false) 1%positive eq_refl)
    as (w & Hnew & _ & (_ & Hrun & _) & _ & _ & _ & _ & w' & Hstart & Hrun' & _ & Hcbs).
  pose proof (Part000_new_HeroScene_handle (Some Sample.blindSurface)
                (Sample.page 0 false) 1%positive eq_refl w Hnew) as Hnext.
  exists w, w'.
  split; [exact Hnew |]. split; [exact Hstart |].
  split; [intros ->; congruence |].
  split; [exact Hrun |]. split; [exact Hrun' |].
  rewrite Hcbs, Hnext. reflexivity.
Qed.

(** ** The pattern renderer *)

Section ScriptFacts.

Lemma appended_nil (g : Globals) : appended g [] = g.
Proof. destruct g. unfold appended, set_canvasLog. simpl. by rewrite app_nil_r. Qed.

Lemma appended_app (g : Globals) (c1 c2 : list Cmd) :
  appended (appended g c1) c2 = appended g (c1 ++ c2).
Proof. unfold appended, set_canvasLog. simpl. by rewrite app_assoc. Qed.

Lemma draws_only_ret {A} (a : A) : draws_only (mret a).
Proof. exists a, []. intros g. unfold mret, Script_ret. by rewrite appended_nil. Qed.

Lemma draws_only_ctx_do (c : Cmd) : draws_only (ctx_do c).
Proof. exists tt, [c]. done. Qed.

Lemma draws_only_const {A B} (m : Script A) (k : Script B) :
  draws_only m -> draws_only k -> draws_only (m ;; k).
Proof.
  intros (a & c1 & Hm) (b & c2 & Hk). exists b, (c1 ++ c2). intros g.
  unfold mbind, Script_bind. by rewrite Hm, Hk, appended_app.
Qed.

Lemma draws_only_bind {A B} (m : Script A) (f : A -> Script B) :
  draws_only m -> (forall a, draws_only (f a)) -> draws_only (m ≫= f).
Proof.
  intros (a & c1 & Hm) Hf. destruct (Hf a) as (b & c2 & Hk).
  exists b, (c1 ++ c2). intros g.
  unfold mbind, Script_bind. by rewrite Hm, Hk, appended_app.
Qed.

Lemma draws_only_forEach {A} (l : list A) (f : A -> Script unit) :
  (forall a, draws_only (f a)) -> draws_only (forEach l f).
Proof.
  intros Hf. induction l as [| a l IH]; simpl.
  - apply draws_only_ret.
  - by apply draws_only_bind.
Qed.

Lemma draws_only_for_upto (n : nat) (f : nat -> Script unit) :
  (forall i, draws_only (f i)) -> draws_only (for_upto n f).
Proof. intros Hf. by apply draws_only_forEach. Qed.

Lemma draws_only_forEachCollect {A B} (l : list A) (f : A -> Script B) :
  (forall a, draws_only (f a)) -> draws_only (forEachCollect l f).
Proof.
  intros Hf. induction l as [| a l IH]; simpl.
  - apply draws_only_ret.
  - apply draws_only_bind; [done |]. intros b.
    apply draws_only_bind; [done |]. intros bs. apply draws_only_ret.
Qed.

End ScriptFacts.

(** Closes a goal [draws_only m] for a script made of context calls,
    loops and tests on values, by following the shape of the script. *)
Ltac draws :=
  cbv zeta;
  lazymatch goal with
  | |- draws_only (mret _) => apply draws_only_ret
  | |- draws_only (ctx_do _) => apply draws_only_ctx_do
  | |- draws_only (for_upto _ _) => apply draws_only_for_upto; intros; draws
  | |- draws_only (forEach _ _) => apply draws_only_forEach; intros; draws
  | |- draws_only (forEachCollect _ _) =>
      apply draws_only_forEachCollect; intros; draws
  | |- draws_only (mbind _ _) =>
      apply draws_only_bind; [draws | intros; draws]
  | |- draws_only (if decide _ then _ else _) => case_decide; draws
  | |- draws_only (match ?p with (_, _) => _ end) => destruct p; draws
  end.

Section PatternFacts.

Lemma Part000_renderDefault_draws (rect : DOMRect) (t : R) :
  draws_only (Part000.renderDefault rect t).
Proof. unfold Part000.renderDefault. draws. Qed.

Lemma Part000_renderHologram_draws (t : R) :
  draws_only (Part000.renderHologram t).
Proof. unfold Part000.renderHologram. draws. Qed.

Lemma Part000_renderNetwork_draws (t : R) :
  draws_only (Part000.renderNetwork t).
Proof. unfold Part000.renderNetwork, Part000.drawLink. draws. Qed.

Lemma Part000_renderParticleSystem_draws (t : R) (elements : list Part000.Element) :
  draws_only (Part000.renderParticleSystem t elements).
Proof. unfold Part000.renderParticleSystem, Part000.drawElement. draws. Qed.

Lemma Part000_renderNeuralNetwork_draws (t : R) :
  draws_only (Part000.renderNeuralNetwork t).
Proof. unfold Part000.renderNeuralNetwork. draws. Qed.

Lemma AppJs_renderHologram_draws (t : R) : draws_only (AppJs.renderHologram t).
Proof. unfold AppJs.renderHologram. draws. Qed.

Lemma AppJs_renderParticleSystem_draws (t : R) :
  draws_only (AppJs.renderParticleSystem t).
Proof. unfold AppJs.renderParticleSystem. draws. Qed.

End PatternFacts.

Section RenderFacts.

Lemma deterministic_normal {X} (h : Hook X) (s : Scene3D X) (x : X)
    (cmds : list Cmd) :
  (forall g, h s g = Normal (x, appended g cmds)) -> deterministic h s.
Proof. intros H. by exists false, x, cmds. Qed.

Lemma deterministic_thrown {X} (h : Hook X) (s : Scene3D X) (x : X)
    (cmds : list Cmd) :
  (forall g, h s g = Thrown (x, appended g cmds)) -> deterministic h s.
Proof. intros H. by exists true, x, cmds. Qed.

Lemma Part000_CanvasScene_render_deterministic
    (s : Scene3D (option (list Part000.Element))) :
  deterministic Part000.CanvasScene_render s.
Proof.
  destruct (ctx s) eqn:Hctx.
  2: { apply (deterministic_normal _ _ (ext s) []). intros g.
       unfold Part000.CanvasScene_render. by rewrite Hctx, appended_nil. }
  destruct (canvas s) as [c |] eqn:Hcanvas.
  2: { apply (deterministic_thrown _ _ (ext s) []). intros g.
       unfold Part000.CanvasScene_render. by rewrite Hctx, Hcanvas, appended_nil. }
  assert (Hpro : draws_only
            (ctx_do (ClearRect 0 0 (rect_width (boundingClientRect c))
                       (rect_height (boundingClientRect c)));;
             ctx_do Save;;
             ctx_do (Translate (rect_width (boundingClientRect c) / 2)
                       (rect_height (boundingClientRect c) / 2)))) by draws.
  destruct Hpro as ([] & c1 & Hpro).
  assert (Hunfold : forall g,
            Part000.CanvasScene_render s g =
            let g1 := appended g c1 in
            if decide (options_type s = "hologram") then
              Normal (ext s, snd ((Part000.renderHologram (time s);; ctx_do Restore) g1))
            else if decide (options_type s = "network") then
              Normal (ext s, snd ((Part000.renderNetwork (time s);; ctx_do Restore) g1))
            else if decide (options_type s = "particle") then
              match ext s with
              | None => Thrown (None, g1)
              | Some elements =>
                  let '(elements', g2) :=
                    (es ← Part000.renderParticleSystem (time s) elements;
                     ctx_do Restore;; mret es) g1 in
                  Normal (Some elements', g2)
              end
            else if decide (options_type s = "neural") then
              Normal (ext s,
                      snd ((Part000.renderNeuralNetwork (time s);; ctx_do Restore) g1))
            else
              Normal (ext s,
                      snd ((Part000.renderDefault (boundingClientRect c) (time s);;
                            ctx_do Restore) g1))).
  { intros g. unfold Part000.CanvasScene_render.
    rewrite Hctx, Hcanvas. cbn [negb]. cbv zeta. by rewrite Hpro. }
  cbv zeta in Hunfold.
  repeat case_decide.
  - assert (Hpat : draws_only (Part000.renderHologram (time s);; ctx_do Restore))
      by (apply draws_only_bind; [apply Part000_renderHologram_draws | intros; draws]).
    destruct Hpat as ([] & c2 & Hpat).
    apply (deterministic_normal _ _ (ext s) (c1 ++ c2)). intros g.
    rewrite Hunfold.
    by rewrite Hpat, appended_app.
  - assert (Hpat : draws_only (Part000.renderNetwork (time s);; ctx_do Restore))
      by (apply draws_only_bind; [apply Part000_renderNetwork_draws | intros; draws]).
    destruct Hpat as ([] & c2 & Hpat).
    apply (deterministic_normal _ _ (ext s) (c1 ++ c2)). intros g.
    rewrite Hunfold.
    by rewrite Hpat, appended_app.
  - destruct (ext s) as [elements |] eqn:Hext.
    + assert (Hpat : draws_only
                (es ← Part000.renderParticleSystem (time s) elements;
                 ctx_do Restore;; mret es))
        by (apply draws_only_bind;
            [apply Part000_renderParticleSystem_draws | intros; draws]).
      destruct Hpat as (es & c2 & Hpat).
      apply (deterministic_normal _ _ (Some es) (c1 ++ c2)). intros g.
      rewrite Hunfold.
      by rewrite Hpat, appended_app.
    + apply (deterministic_thrown _ _ None c1). intros g.
      by rewrite Hunfold.
  - assert (Hpat : draws_only (Part000.renderNeuralNetwork (time s);; ctx_do Restore))
      by (apply draws_only_bind;
          [apply Part000_renderNeuralNetwork_draws | intros; draws]).
    destruct Hpat as ([] & c2 & Hpat).
    apply (deterministic_normal _ _ (ext s) (c1 ++ c2)). intros g.
    rewrite Hunfold.
    by rewrite Hpat, appended_app.
  - assert (Hpat : draws_only
              (Part000.renderDefault (boundingClientRect c) (time s);;
               ctx_do Restore))
      by (apply draws_only_bind;
          [apply Part000_renderDefault_draws | intros; draws]).
    destruct Hpat as ([] & c2 & Hpat).
    apply (deterministic_normal _ _ (ext s) (c1 ++ c2)). intros g.
    rewrite Hunfold.
    by rewrite Hpat, appended_app.
Qed.

Lemma AppJs_CanvasScene_render_deterministic
    (s : Scene3D (option AppJs.CanvasFields)) (f : AppJs.CanvasFields) :
  ext s = Some f ->
  AppJs.cs_type f = "hologram" \/ AppJs.cs_type f = "particle" ->
  deterministic AppJs.CanvasScene_render s.
Proof.
  intros Hf Hty.
  destruct (ctx s) eqn:Hctx.
  2: { apply (deterministic_normal _ _ (ext s) []). intros g.
       unfold AppJs.CanvasScene_render. by rewrite Hctx, appended_nil. }
  destruct (canvas s) as [c |] eqn:Hcanvas.
  2: { apply (deterministic_thrown _ _ (ext s) []). intros g.
       unfold AppJs.CanvasScene_render. by rewrite Hctx, Hcanvas, appended_nil. }
  assert (Hpat : draws_only
            (if decide (AppJs.cs_type f = "hologram")
             then AppJs.renderHologram (AppJs.cs_time f)
             else if decide (AppJs.cs_type f = "network")
                  then AppJs.renderNetwork (AppJs.cs_time f)
                  else if decide (AppJs.cs_type f = "particle")
                       then AppJs.renderParticleSystem (AppJs.cs_time f)
                       else AppJs.renderDefault (boundingClientRect c))).
  { destruct Hty as [-> | ->]; simpl.
    - apply AppJs_renderHologram_draws.
    - apply AppJs_renderParticleSystem_draws. }
  assert (Hall : draws_only
            ((ctx_do (ClearRect 0 0 (rect_width (boundingClientRect c))
                        (rect_height (boundingClientRect c)));;
              ctx_do Save;;
              ctx_do (Translate (rect_width (boundingClientRect c) / 2)
                        (rect_height (boundingClientRect c) / 2)));;
             (if decide (AppJs.cs_type f = "hologram")
              then AppJs.renderHologram (AppJs.cs_time f)
              else if decide (AppJs.cs_type f = "network")
                   then AppJs.renderNetwork (AppJs.cs_time f)
                   else if decide (AppJs.cs_type f = "particle")
                        then AppJs.renderParticleSystem (AppJs.cs_time f)
                        else AppJs.renderDefault (boundingClientRect c));;
             ctx_do Restore)).
  { apply draws_only_bind; [draws | intros].
    apply draws_only_bind; [exact Hpat | intros; draws]. }
  destruct Hall as ([] & cmds & Hall).
  apply (deterministic_normal _ _ (Some f) cmds). intros g.
  unfold AppJs.CanvasScene_render. rewrite Hctx, Hcanvas, Hf. cbn [negb]. cbv zeta.
  by rewrite Hall.
Qed.

End RenderFacts.

(** ** Counting what the network pattern of [app_js] draws and consumes *)

Section Costs.
Variable P : Globals -> Prop.
Variable mu : Globals -> nat.

Lemma costs_ret {A} (a : A) (V : A -> Prop) : V a -> costs P mu (mret a) V 0.
Proof. intros Ha g Hg. unfold mret, Script_ret. simpl. split_and!; [done | done | lia]. Qed.

Lemma costs_bind {A B} (m : Script A) (f : A -> Script B)
    (V : A -> Prop) (W : B -> Prop) (n k : nat) :
  costs P mu m V n -> (forall a, V a -> costs P mu (f a) W k) ->
  costs P mu (m ≫= f) W (n + k).
Proof.
  intros Hm Hf g Hg. unfold mbind, Script_bind.
  destruct (Hm g Hg) as (Ha & Hg1 & Hmu1). destruct (m g) as [a g1]. simpl in *.
  destruct (Hf a Ha g1 Hg1) as (Hb & Hg2 & Hmu2).
  split_and!; [done | done | lia].
Qed.

Lemma costs_forEach {A} (l : list A) (f : A -> Script unit) (c : A -> nat) :
  (forall a, costs P mu (f a) (fun _ => True) (c a)) ->
  costs P mu (forEach l f) (fun _ => True) (sum_list (c <$> l)).
Proof.
  intros Hf. induction l as [| a l IH]; simpl.
  - by apply costs_ret.
  - apply (costs_bind _ _ (fun _ => True)); [apply Hf | intros; apply IH].
Qed.

Lemma costs_forEachCollect {A B} (l : list A) (f : A -> Script B) (n : nat) :
  (forall a, costs P mu (f a) (fun _ => True) n) ->
  costs P mu (forEachCollect l f) (fun bs => length bs = length l)
    (length l * n).
Proof.
  intros Hf. induction l as [| a l IH]; simpl.
  - by apply costs_ret.
  - apply (costs_bind _ _ (fun _ => True)); [apply Hf | intros b _].
    replace (length l * n)%nat with (length l * n + 0)%nat by lia.
    apply (costs_bind _ _ (fun bs => length bs = length l)); [apply IH |].
    intros bs Hbs. apply costs_ret. simpl. by rewrite Hbs.
Qed.

(** The cost [d] of one context call and the cost [k] of one link
    between two distinct nodes. *)
Variables d k : nat.
Hypothesis ctx_do_cost :
  forall c, costs P mu (ctx_do c) (fun _ => True) d.
Hypothesis drawLink_cost :
  forall a b,
    costs P mu (AppJs.drawLink a b) (fun _ => True)
      (if decide (a.1 <> b.1) then k else 0).

Lemma links_cost (positions : list (R * R)) :
  length positions = 8%nat ->
  costs P mu
    (forEach (indexed positions) (fun pos1 =>
       forEach (indexed positions) (fun pos2 => AppJs.drawLink pos1 pos2)))
    (fun _ => True) (56 * k).
Proof using drawLink_cost.
  intros Hlen.
  do 8 (destruct positions as [| ? positions]; [done |]).
  destruct positions; [| done]. clear Hlen.
  eapply (eq_rect _ (costs P mu _ _)).
  - apply (costs_forEach _ _
             (fun a => sum_list ((fun b => if decide (a.1 <> b.1) then k else 0%nat)
                                   <$> indexed [p; p0; p1; p2; p3; p4; p5; p6]))).
    intros a. apply costs_forEach. intros b. apply drawLink_cost.
  - cbv -[Nat.add Nat.mul]. lia.
Qed.

Lemma renderNetwork_cost (t : R) :
  costs P mu (AppJs.renderNetwork t) (fun _ => True) (30 * d + 56 * k).
Proof using ctx_do_cost drawLink_cost.
  unfold AppJs.renderNetwork. cbv zeta.
  replace (30 * d + 56 * k)%nat
    with (d + (d + (d + (d + (d + (8 * (d + (d + (d + 0))) + (d + 56 * k)))))))%nat
    by lia.
  do 5 (apply (costs_bind _ _ (fun _ => True)); [apply ctx_do_cost | intros _ _]).
  apply (costs_bind _ _ (fun ps => length ps = 8%nat)).
  - apply (costs_forEachCollect (seq 0 8)). intros i.
    do 3 (apply (costs_bind _ _ (fun _ => True)); [apply ctx_do_cost | intros _ _]).
    by apply costs_ret.
  - intros positions Hlen.
    apply (costs_bind _ _ (fun _ => True)); [apply ctx_do_cost | intros _ _].
    by apply links_cost.
Qed.

(** The script [CanvasScene.render] runs for the network pattern. *)
Lemma network_frame_cost (rect : DOMRect) (t : R) :
  costs P mu
    ((ctx_do (ClearRect 0 0 (rect_width rect) (rect_height rect));;
      ctx_do Save;;
      ctx_do (Translate (rect_width rect / 2) (rect_height rect / 2)));;
     AppJs.renderNetwork t;;
     ctx_do Restore)
    (fun _ => True) (34 * d + 56 * k).
Proof using ctx_do_cost drawLink_cost.
  replace (34 * d + 56 * k)%nat
    with ((d + (d + d)) + ((30 * d + 56 * k) + d))%nat by lia.
  apply (costs_bind _ _ (fun _ => True)).
  - apply (costs_bind _ _ (fun _ => True)); [apply ctx_do_cost | intros _ _].
    apply (costs_bind _ _ (fun _ => True)); [apply ctx_do_cost | intros _ _].
    apply ctx_do_cost.
  - intros _ _.
    apply (costs_bind _ _ (fun _ => True)); [apply renderNetwork_cost | intros _ _].
    apply ctx_do_cost.
Qed.

End Costs.

Section NetworkOfAppJs.

(** Counting the random numbers handed out. *)
Lemma ctx_do_consumes (c : Cmd) :
  costs (fun _ => True) randomUsed (ctx_do c) (fun _ => True) 0.
Proof. intros g _. simpl. split_and!; [done | done | lia]. Qed.

Lemma drawLink_consumes (a b : nat * (R * R)) :
  costs (fun _ => True) randomUsed (AppJs.drawLink a b) (fun _ => True)
    (if decide (a.1 <> b.1) then 1 else 0).
Proof.
  intros g _. destruct a as [i [x1 y1]], b as [j [x2 y2]]. simpl.
  unfold AppJs.drawLink. case_decide.
  - unfold mbind, Script_bind, Math_random. case_decide; simpl; split_and!; done || lia.
  - simpl. split_and!; done || lia.
Qed.

(** Counting the context calls when every random number is [r]. *)
Lemma ctx_do_draws_one (r : R) (c : Cmd) :
  costs (fun g => randomSource g = fun _ => r) logLength (ctx_do c)
    (fun _ => True) 1.
Proof. intros g Hg. unfold logLength. simpl. rewrite length_app. simpl. done. Qed.

Lemma drawLink_draws (r : R) (a b : nat * (R * R)) :
  costs (fun g => randomSource g = fun _ => r) logLength
    (AppJs.drawLink a b) (fun _ => True)
    (if decide (a.1 <> b.1) then (if decide (r > 0.7) then 4 else 0) else 0).
Proof.
  intros g Hg. destruct a as [i [x1 y1]], b as [j [x2 y2]]. simpl.
  unfold AppJs.drawLink, logLength. case_decide.
  - unfold mbind, Script_bind, Math_random. rewrite Hg.
    case_decide; simpl; rewrite ?length_app; simpl; split_and!; done || lia.
  - simpl. split_and!; done || lia.
Qed.

(** What [render] is on a scene that shows the network pattern. *)
Lemma AppJs_network_render (s : Scene3D (option AppJs.CanvasFields))
    (f : AppJs.CanvasFields) (c : Canvas) (g : Globals) :
  ext s = Some f -> AppJs.cs_type f = "network" ->
  ctx s = true -> canvas s = Some c ->
  AppJs.CanvasScene_render s g =
  Normal (ext s,
          snd (((ctx_do (ClearRect 0 0 (rect_width (boundingClientRect c))
                           (rect_height (boundingClientRect c)));;
                 ctx_do Save;;
                 ctx_do (Translate (rect_width (boundingClientRect c) / 2)
                           (rect_height (boundingClientRect c) / 2)));;
                AppJs.renderNetwork (AppJs.cs_time f);;
                ctx_do Restore) g)).
Proof.
  intros Hf Hty Hctx Hc. unfold AppJs.CanvasScene_render.
  rewrite Hctx, Hc, Hf. cbn [negb]. cbv zeta. rewrite Hty. done.
Qed.

Lemma AppJs_network_consumes (s : Scene3D (option AppJs.CanvasFields))
    (f : AppJs.CanvasFields) (c : Canvas) (g : Globals) :
  ext s = Some f -> AppJs.cs_type f = "network" ->
  ctx s = true -> canvas s = Some c ->
  exists x g',
    AppJs.CanvasScene_render s g = Normal (x, g') /\
    randomUsed g' = (randomUsed g + 56)%nat.
Proof.
  intros Hf Hty Hctx Hc.
  rewrite (AppJs_network_render s f c g) by done.
  eexists _, _. split; [done |].
  destruct (network_frame_cost (fun _ => True) randomUsed 0 1
              ctx_do_consumes drawLink_consumes
              (boundingClientRect c) (AppJs.cs_time f) g I) as (_ & _ & Hmu).
  rewrite Hmu. lia.
Qed.

Lemma drawnBy_normal {X} (h : Hook X) (s : Scene3D X) (g g' : Globals) (x : X) :
  h s g = Normal (x, g') -> drawnBy h s g = canvasLog g'.
Proof. intros H. unfold drawnBy. by rewrite H. Qed.

Lemma network_frame_logLength (r : R) (c : Canvas) (t : R) (g : Globals) :
  randomSource g = (fun _ => r) ->
  logLength (snd (((ctx_do (ClearRect 0 0 (rect_width (boundingClientRect c))
                              (rect_height (boundingClientRect c)));;
                    ctx_do Save;;
                    ctx_do (Translate (rect_width (boundingClientRect c) / 2)
                              (rect_height (boundingClientRect c) / 2)));;
                   AppJs.renderNetwork t;;
                   ctx_do Restore) g)) =
  (logLength g + (34 * 1 + 56 * (if decide (r > 0.7)%R then 4 else 0)))%nat.
Proof.
  intros Hg.
  pose proof (network_frame_cost (fun g => randomSource g = fun _ => r)
                logLength 1 (if decide (r > 0.7)%R then 4 else 0)%nat
                (ctx_do_draws_one r) (drawLink_draws r)
                (boundingClientRect c) t g Hg) as Hcost.
  destruct Hcost as (_ & _ & Hmu). exact Hmu.
Qed.

Lemma logLength_eq (g : Globals) : length (canvasLog g) = logLength g.
Proof. reflexivity. Qed.

Lemma AppJs_network_drawn (r : R) (s : Scene3D (option AppJs.CanvasFields))
    (f : AppJs.CanvasFields) (c : Canvas) (g : Globals) :
  ext s = Some f -> AppJs.cs_type f = "network" ->
  ctx s = true -> canvas s = Some c ->
  randomSource g = (fun _ => r) ->
  length (drawnBy AppJs.CanvasScene_render s g) =
  (length (canvasLog g) + (34 + 56 * (if decide (r > 0.7)%R then 4 else 0)))%nat.
Proof.
  intros Hf Hty Hctx Hc Hg.
  rewrite (drawnBy_normal _ _ _ _ _ (AppJs_network_render s f c g Hf Hty Hctx Hc)).
  rewrite !logLength_eq.
  rewrite (network_frame_logLength r c (AppJs.cs_time f) g Hg).
  lia.
Qed.

(** One link of the network pattern of [app_js]: a random number is
    drawn, and the line is drawn when it exceeds 0.7. *)
Lemma AppJs_drawLink_spec (i j : nat) (x1 y1 x2 y2 : R) (g : Globals) :
  i <> j ->
  AppJs.drawLink (i, (x1, y1)) (j, (x2, y2)) g =
  (tt, if decide (randomSource g (randomUsed g) > 0.7)
       then appended (set_randomUsed g (S (randomUsed g)))
              [BeginPath; MoveTo x1 y1; LineTo x2 y2; Stroke]
       else set_randomUsed g (S (randomUsed g))).
Proof.
  intros Hij. unfold AppJs.drawLink. rewrite decide_True by done.
  unfold mbind, Script_bind, Math_random. case_decide; [| done].
  unfold ctx_do, appended, set_canvasLog. simpl.
  by rewrite <- !app_assoc.
Qed.

Lemma run_ctx_do_then {A} (c : Cmd) (k : Script A) (g : Globals) :
  (ctx_do c;; k) g = k (appended g [c]).
Proof. reflexivity. Qed.

Lemma run_ctx_do (c : Cmd) (g : Globals) : ctx_do c g = (tt, appended g [c]).
Proof. reflexivity. Qed.

Lemma run_Date_now_then {A} (k : R -> Script A) (g : Globals) :
  (Date_now ≫= k) g = k (dateNow g) g.
Proof. reflexivity. Qed.

(** The default pattern of [app_js] turns with the wall clock. *)
Lemma AppJs_renderDefault_clock (rect : DOMRect) (g : Globals) :
  AppJs.renderDefault rect g =
  (tt, appended g
         [Save; Translate (rect_width rect / 2) (rect_height rect / 2);
          Rotate (dateNow g * 0.001);
          StrokeStyle "#32b8c6"; LineWidth 2; ShadowColor "#32b8c6";
          ShadowBlur 10; StrokeRect (- 30) (- 30) (30 * 2) (30 * 2);
          Rotate (- (dateNow g * 0.001) * 2);
          StrokeStyle "rgba(50, 184, 198, 0.5)";
          StrokeRect (- 30 * 0.7) (- 30 * 0.7) (30 * 1.4) (30 * 1.4);
          Restore]).
Proof.
  unfold AppJs.renderDefault. cbv zeta.
  rewrite run_Date_now_then.
  rewrite !run_ctx_do_then, run_ctx_do, !appended_app.
  reflexivity.
Qed.

End NetworkOfAppJs.

(** C5, as amended.  In [part_000] every pattern of the canvas scene is
    determined by the scene (its time, its element array, its type and its
    canvas): how [render] ends, the fields it leaves and the calls it
    makes do not depend on the globals, no random number is drawn.  In
    [app_js] the same holds for the hologram and the radial-particle
    patterns; the network pattern draws one random number for each of the
    56 ordered pairs of distinct nodes on every render and draws the link
    only when that number exceeds 0.7; the default pattern turns with the
    wall clock, not with the accumulated time. *)
Theorem C5_patterns_deterministic_except_app_js
    (s2 : Scene3D (option (list Part000.Element)))
    (s1 : Scene3D (option AppJs.CanvasFields)) (f : AppJs.CanvasFields)
    (c : Canvas) :
  ext s1 = Some f -> ctx s1 = true -> canvas s1 = Some c ->
  deterministic Part000.CanvasScene_render s2 /\
  (AppJs.cs_type f = "hologram" \/ AppJs.cs_type f = "particle" ->
   deterministic AppJs.CanvasScene_render s1) /\
  (AppJs.cs_type f = "network" ->
   forall g, exists x g',
     AppJs.CanvasScene_render s1 g = Normal (x, g') /\
     randomUsed g' = (randomUsed g + 56)%nat) /\
  (forall (i j : nat) (x1 y1 x2 y2 : R) (g : Globals),
     i <> j ->
     AppJs.drawLink (i, (x1, y1)) (j, (x2, y2)) g =
     (tt, if decide (randomSource g (randomUsed g) > 0.7)
          then appended (set_randomUsed g (S (randomUsed g)))
                 [BeginPath; MoveTo x1 y1; LineTo x2 y2; Stroke]
          else set_randomUsed g (S (randomUsed g)))) /\
  (forall g,
     AppJs.renderDefault (boundingClientRect c) g =
     (tt, appended g
            [Save;
             Translate (rect_width (boundingClientRect c) / 2)
                       (rect_height (boundingClientRect c) / 2);
             Rotate (dateNow g * 0.001);
             StrokeStyle "#32b8c6"; LineWidth 2; ShadowColor "#32b8c6";
             ShadowBlur 10; StrokeRect (- 30) (- 30) (30 * 2) (30 * 2);
             Rotate (- (dateNow g * 0.001) * 2);
             StrokeStyle "rgba(50, 184, 198, 0.5)";
             StrokeRect (- 30 * 0.7) (- 30 * 0.7) (30 * 1.4) (30 * 1.4);
             Restore])).
Proof.
  intros Hf Hctx Hc. split_and!.
  - apply Part000_CanvasScene_render_deterministic.
  - intros Hty. by apply (AppJs_CanvasScene_render_deterministic s1 f).
  - intros Hty g. by apply (AppJs_network_consumes s1 f c g).
  - intros i j x1 y1 x2 y2 g Hij. by apply AppJs_drawLink_spec.
  - intros g. apply AppJs_renderDefault_clock.
Qed.

Lemma C5_patterns_deterministic_witness :
  exists x g',
    AppJs.CanvasScene_render Sample.networkV1 (Sample.page 0 false)
      = Normal (x, g') /\
    randomUsed g' = 56%nat.
Proof.
  destruct (C5_patterns_deterministic_except_app_js
              {| canvas := Some Sample.surface; ctx := true; isRunning := true;
                 animationId := None; time := 0; options_particleCount := 50;
                 options_type := "neural"; ext := Some [] |}
              Sample.networkV1
              {| AppJs.cs_type := "network"; AppJs.cs_time := 0 |}
              Sample.surface)
    as (_ & _ & Hnetwork & _).
  - reflexivity.
  - reflexivity.
  - reflexivity.
  - exact (Hnetwork eq_refl (Sample.page 0 false)).
Defined.

(** C5 as stated fails on the network pattern of [app_js]: two renders of
    the same scene at the same time value draw different links when
    [Math.random()] answers differently (no link when it always yields 0,
    all 56 links when it always yields 0.9). *)
Lemma C5_network_counterexample :
  drawnBy AppJs.CanvasScene_render Sample.networkV1 (Sample.page 0 false) <>
  drawnBy AppJs.CanvasScene_render Sample.networkV1 (Sample.page 0.9 false).
Proof.
  intros Heq. apply (f_equal length) in Heq.
  rewrite (AppJs_network_drawn 0 Sample.networkV1
             {| AppJs.cs_type := "network"; AppJs.cs_time := 0 |}
             Sample.surface) in Heq by done.
  rewrite (AppJs_network_drawn 0.9 Sample.networkV1
             {| AppJs.cs_type := "network"; AppJs.cs_time := 0 |}
             Sample.surface) in Heq by done.
  rewrite decide_False in Heq by lra.
  rewrite decide_True in Heq by lra.
  simpl in Heq. lia.
Qed.

(** * Further properties of the code *)

(** ** The numeric helpers of [Utils] *)

Section UtilsFacts.

Lemma clamp_cases (value min max : R) :
  min <= max ->
  min <= Utils.clamp value min max <= max /\
  (min <= value <= max -> Utils.clamp value min max = value) /\
  (value <= min -> Utils.clamp value min max = min) /\
  (max <= value -> Utils.clamp value min max = max).
Proof.
  intros H. unfold Utils.clamp, JS.Math_max, JS.Math_min, Rmax, Rmin.
  repeat destruct Rle_dec; repeat split; intros; lra.
Qed.

(** X1.  [Utils.clamp(value, min, max)] with [min <= max] lies in
    [[min, max]], returns a value of that range unchanged and the nearer
    bound otherwise, so that applying it twice changes nothing.  With the
    bounds in the wrong order it returns [min] whatever the value. *)
Theorem X1_clamp_range (value min max : R) :
  (min <= max ->
   min <= Utils.clamp value min max <= max /\
   (min <= value <= max -> Utils.clamp value min max = value) /\
   (value <= min -> Utils.clamp value min max = min) /\
   (max <= value -> Utils.clamp value min max = max) /\
   Utils.clamp (Utils.clamp value min max) min max
   = Utils.clamp value min max) /\
  (max < min -> Utils.clamp value min max = min).
Proof.
  split.
  - intros H. destruct (clamp_cases value min max H) as (Hr & Hin & Hlo & Hhi).
    split; [done |]. split; [done |]. split; [done |]. split; [done |].
    by apply (clamp_cases (Utils.clamp value min max) min max H).
  - intros H. unfold Utils.clamp, JS.Math_max, JS.Math_min, Rmax, Rmin.
    repeat destruct Rle_dec; lra.
Qed.

Lemma X1_clamp_range_witness :
  0 <= 1 /\ 0 <= Utils.clamp 5 0 1 <= 1 /\ 0 < 1 /\ Utils.clamp 5 1 0 = 1.
Proof.
  split; [lra |]. split.
  - apply (proj1 (X1_clamp_range 5 0 1)). lra.
  - split; [lra |]. apply (proj2 (X1_clamp_range 5 1 0)). lra.
Defined.

Lemma smooth_mono (s t : R) :
  0 <= s -> s <= t -> t <= 1 ->
  s * s * (3 - 2 * s) <= t * t * (3 - 2 * t).
Proof.
  intros Hs Hst Ht.
  assert (0 <= (t - s) * (t * (1 - s) + s * (1 - t) + 2 * t * (1 - t)
                          + 2 * s * (1 - s))) as H.
  { apply Rmult_le_pos; [lra |]. nra. }
  nra.
Qed.

(** X5.  For [edge0 < edge1], [Utils.smoothStep] is 0 up to [edge0], 1
    from [edge1] on, and within [[0, 1]] everywhere. *)
Theorem X5_smoothStep_shape (edge0 edge1 x : R) :
  edge0 < edge1 ->
  0 <= Utils.smoothStep edge0 edge1 x <= 1 /\
  (x <= edge0 -> Utils.smoothStep edge0 edge1 x = 0) /\
  (edge1 <= x -> Utils.smoothStep edge0 edge1 x = 1).
Proof.
  intros He. unfold Utils.smoothStep. cbv zeta.
  assert (forall v, 0 <= Utils.clamp v 0 1 <= 1) as Hc.
  { intros v. apply (clamp_cases v 0 1). lra. }
  assert (0 < / (edge1 - edge0)) as Hinv by (apply Rinv_0_lt_compat; lra).
  split; [| split].
  - pose proof (Hc ((x - edge0) / (edge1 - edge0))) as [H0 H1].
    pose proof (smooth_mono 0 _ (Rle_refl 0) H0 H1) as Hlo.
    pose proof (smooth_mono _ 1 H0 H1 (Rle_refl 1)) as Hhi.
    lra.
  - intros Hx.
    assert ((x - edge0) / (edge1 - edge0) <= 0) as Hq.
    { unfold Rdiv. nra. }
    destruct (clamp_cases ((x - edge0) / (edge1 - edge0)) 0 1)
      as (_ & _ & Hlo & _); [lra |].
    rewrite (Hlo Hq). lra.
  - intros Hx.
    assert (1 <= (x - edge0) / (edge1 - edge0)) as Hq.
    { apply (Rmult_le_reg_r (edge1 - edge0)); [lra |]. field_simplify; lra. }
    destruct (clamp_cases ((x - edge0) / (edge1 - edge0)) 0 1)
      as (_ & _ & _ & Hhi); [lra |].
    rewrite (Hhi Hq). lra.
Qed.

Lemma X5_smoothStep_shape_witness :
  0 < 1 /\ 0 <= Utils.smoothStep 0 1 0.5 <= 1 /\
  Utils.smoothStep 0 1 2 = 1.
Proof.
  split; [lra |].
  destruct (X5_smoothStep_shape 0 1 0.5) as (Hr & _); [lra |].
  destruct (X5_smoothStep_shape 0 1 2) as (_ & _ & Hone); [lra |].
  split; [exact Hr | apply Hone; lra].
Defined.

Lemma cube_mono (s t : R) : s <= t -> s * s * s <= t * t * t.
Proof.
  intros H.
  assert (0 <= (t - s) * (t * t + t * s + s * s)) as Hp.
  { apply Rmult_le_pos; [lra |]. nra. }
  nra.
Qed.

Lemma fourth_mono (s t : R) : 0 <= s -> s <= t -> s * s * s * s <= t * t * t * t.
Proof.
  intros H0 H.
  assert (s * s <= t * t) as H2 by nra.
  assert (0 <= s * s) by nra.
  nra.
Qed.

Lemma easeInOutCubic_shape (s t : R) :
  0 <= s -> s <= t -> t <= 1 ->
  Utils.easeInOutCubic 0 = 0 /\
  Utils.easeInOutCubic 0.5 = 0.5 /\
  Utils.easeInOutCubic 1 = 1 /\
  0 <= Utils.easeInOutCubic t <= 1 /\
  Utils.easeInOutCubic s <= Utils.easeInOutCubic t.
Proof.
  intros Hs Hst Ht. unfold Utils.easeInOutCubic.
  split; [case_decide; lra |]. split; [case_decide; lra |].
  split; [case_decide; lra |].
  split.
  - case_decide; split.
    + pose proof (cube_mono 0 t ltac:(lra)). nra.
    + pose proof (cube_mono t 0.5 ltac:(lra)). nra.
    + pose proof (cube_mono (t - 1) 0 ltac:(lra)).
      pose proof (cube_mono (-0.5) (t - 1) ltac:(lra)). nra.
    + pose proof (cube_mono (t - 1) 0 ltac:(lra)). nra.
  - pose proof (cube_mono s t Hst) as Hc.
    pose proof (cube_mono (s - 1) (t - 1)) as Hd.
    repeat case_decide.
    + lra.
    + pose proof (cube_mono s 0.5 ltac:(lra)).
      pose proof (cube_mono (-0.5) (t - 1) ltac:(lra)). nra.
    + lra.
    + nra.
Qed.

Lemma easeInOutQuart_shape (s t : R) :
  0 <= s -> s <= t -> t <= 1 ->
  Utils.easeInOutQuart 0 = 0 /\
  Utils.easeInOutQuart 0.5 = 0.5 /\
  Utils.easeInOutQuart 1 = 1 /\
  0 <= Utils.easeInOutQuart t <= 1 /\
  Utils.easeInOutQuart s <= Utils.easeInOutQuart t.
Proof.
  intros Hs Hst Ht. unfold Utils.easeInOutQuart. cbv zeta.
  split; [case_decide; lra |]. split; [case_decide; lra |].
  split; [case_decide; lra |].
  split.
  - case_decide; split.
    + pose proof (fourth_mono 0 t ltac:(lra) ltac:(lra)). nra.
    + pose proof (fourth_mono t 0.5 ltac:(lra) ltac:(lra)). nra.
    + pose proof (fourth_mono (1 - t) 0.5 ltac:(lra) ltac:(lra)). nra.
    + pose proof (fourth_mono 0 (1 - t) ltac:(lra) ltac:(lra)). nra.
  - repeat case_decide.
    + pose proof (fourth_mono s t ltac:(lra) ltac:(lra)). nra.
    + pose proof (fourth_mono s 0.5 ltac:(lra) ltac:(lra)).
      pose proof (fourth_mono (1 - t) 0.5 ltac:(lra) ltac:(lra)). nra.
    + lra.
    + pose proof (fourth_mono (1 - t) (1 - s) ltac:(lra) ltac:(lra)). nra.
Qed.

(** X6.  [easeInOutCubic] and [easeInOutQuart] start at 0, pass
    through 0.5 at [t = 0.5], where their two branches meet, end at 1,
    stay within [[0, 1]] on [[0, 1]] and never decrease there. *)
Theorem X6_easeInOut_shape (s t : R) :
  0 <= s -> s <= t -> t <= 1 ->
  (Utils.easeInOutCubic 0 = 0 /\
   Utils.easeInOutCubic 0.5 = 0.5 /\
   Utils.easeInOutCubic 1 = 1 /\
   0 <= Utils.easeInOutCubic t <= 1 /\
   Utils.easeInOutCubic s <= Utils.easeInOutCubic t) /\
  (Utils.easeInOutQuart 0 = 0 /\
   Utils.easeInOutQuart 0.5 = 0.5 /\
   Utils.easeInOutQuart 1 = 1 /\
   0 <= Utils.easeInOutQuart t <= 1 /\
   Utils.easeInOutQuart s <= Utils.easeInOutQuart t).
Proof.
  intros Hs Hst Ht. split.
  - by apply easeInOutCubic_shape.
  - by apply easeInOutQuart_shape.
Qed.

Lemma X6_easeInOut_shape_witness :
  0 <= 0.25 /\ 0.25 <= 0.75 /\ 0.75 <= 1 /\
  Utils.easeInOutCubic 0.25 <= Utils.easeInOutCubic 0.75 /\
  Utils.easeInOutQuart 0.25 <= Utils.easeInOutQuart 0.75.
Proof.
  split; [lra |]. split; [lra |]. split; [lra |].
  destruct (X6_easeInOut_shape 0.25 0.75) as [Hc Hq]; [lra | lra | lra |].
  split; [apply Hc | apply Hq].
Defined.

Lemma sin_minus_13_halves : sin (- 13 * (0 + 1) * PI / 2) = -1.
Proof.
  replace (- 13 * (0 + 1) * PI / 2) with (- (PI / 2 + 2 * INR 3 * PI))
    by (simpl; field).
  rewrite sin_neg, sin_period, sin_PI2. reflexivity.
Qed.

Lemma sin_minus_13 : sin (- 13 * (1 + 1) * PI / 2) = 0.
Proof.
  replace (- 13 * (1 + 1) * PI / 2) with (- (PI + 2 * INR 6 * PI))
    by (simpl; field).
  rewrite sin_neg, sin_period, sin_PI. lra.
Qed.

(** X7.  [easeOutElastic] starts at 0 and ends at 1; in between it
    stays within [2^(-10 t)] of 1, hence within [[0, 2]] for [t >= 0]. *)
Theorem X7_easeOutElastic_envelope (t : R) :
  0 <= t ->
  Utils.easeOutElastic 0 = 0 /\
  Utils.easeOutElastic 1 = 1 /\
  Rabs (Utils.easeOutElastic t - 1) <= Rpower 2 (- 10 * t) /\
  0 <= Utils.easeOutElastic t <= 2.
Proof.
  intros Ht. unfold Utils.easeOutElastic.
  split; [| split].
  - rewrite sin_minus_13_halves.
    replace (- 10 * 0) with 0 by lra. rewrite Rpower_O by lra. lra.
  - rewrite sin_minus_13. lra.
  - set (sn := sin _). set (pw := Rpower 2 _).
    assert (0 < pw) as Hp by apply exp_pos.
    assert (pw <= 1) as Hp1.
    { subst pw. rewrite <- (Rpower_O 2) by lra.
      apply Rle_Rpower; lra. }
    assert (-1 <= sn <= 1) as [Hl Hh] by apply SIN_bound.
    split.
    + replace (sn * pw + 1 - 1) with (sn * pw) by lra.
      apply Rabs_le. split; nra.
    + split; nra.
Qed.

Lemma X7_easeOutElastic_envelope_witness :
  0 <= 0.5 /\ 0 <= Utils.easeOutElastic 0.5 <= 2.
Proof.
  split; [lra |]. apply (X7_easeOutElastic_envelope 0.5). lra.
Defined.

(** [Math.floor] of a number in [[0, n)] is one of [0 .. n - 1]. *)
Lemma floor_range (x : R) (n : Z) :
  0 <= x < IZR n -> (0 <= JS.Math_floor x < n)%Z.
Proof.
  intros [H0 Hn]. unfold JS.Math_floor.
  destruct (base_Int_part x) as [Hle Hgt]. split.
  - assert (-1 < Int_part x)%Z; [| lia]. apply lt_IZR. lra.
  - apply lt_IZR. lra.
Qed.

Lemma floor_IZR (z : Z) : JS.Math_floor (IZR z) = z.
Proof.
  unfold JS.Math_floor. destruct (base_Int_part (IZR z)) as [Hle Hgt].
  assert (Int_part (IZR z) <= z)%Z by (apply le_IZR; lra).
  assert (z - 1 < Int_part (IZR z))%Z; [| lia].
  apply lt_IZR. rewrite minus_IZR. lra.
Qed.

Lemma floor_below (x : R) (z : Z) : x < IZR z -> (JS.Math_floor x < z)%Z.
Proof.
  intros Hx. unfold JS.Math_floor. destruct (base_Int_part x) as [Hle _].
  apply lt_IZR. lra.
Qed.



End UtilsFacts.

(** ** The performance monitor *)

Section MonitorFacts.

Lemma adjustQuality_level (pm : PerformanceMonitor) :
  0.4 <= qualityLevel pm <= 1 ->
  0.4 <= qualityLevel (adjustQuality pm) <= 1 /\
  Rabs (qualityLevel (adjustQuality pm) - qualityLevel pm) <= 0.1 /\
  fpsArray (adjustQuality pm) = fpsArray pm.
Proof.
  intros Hq. unfold adjustQuality. cbv zeta. cbn [qualityLevel fpsArray].
  set (avg := foldl Rplus 0 (fpsArray pm) / INR (length (fpsArray pm))).
  unfold Utils.clamp, JS.Math_max, JS.Math_min, Rmax, Rmin.
  split; [| split; [| done]].
  - repeat case_bool_decide; simpl; repeat destruct Rle_dec; lra.
  - apply Rabs_le.
    repeat case_bool_decide; simpl; repeat destruct Rle_dec; lra.
Qed.

Lemma monitorUpdate_ok (now : R) (pm : PerformanceMonitor) :
  monitor_ok pm -> monitor_ok (monitorUpdate now pm).
Proof.
  intros [Hq Hl]. unfold monitorUpdate. cbv zeta.
  case_decide as Ht; [| done].
  set (pm1 := {| frameCount := S (frameCount pm) |}).
  destruct (adjustQuality_level pm1 Hq) as (Hq' & _ & Hf).
  split; cbn [qualityLevel fpsArray]; [done |].
  rewrite Hf. unfold pm1. cbn [fpsArray].
  case_decide as Hlen.
  - destruct (fpsArray pm) as [| a l]; simpl in *; [lia |].
    rewrite length_app in *. simpl in *. lia.
  - lia.
Qed.

(** X9.  Whatever the times at which [update()] is called on a fresh
    [PerformanceMonitor], the quality level stays within [[0.4, 1]] (the
    lower clamp bound 0.3 is never reached, since the level only drops
    from above 0.5), at most ten samples are kept, and one call changes
    the level by at most 0.1. *)
Theorem X9_monitor_quality_bounds (t0 : R) (times : list R) (now : R) :
  let pm := foldl (fun pm t => monitorUpdate t pm) (newMonitor t0) times in
  0.4 <= qualityLevel pm <= 1 /\
  (length (fpsArray pm) <= 10)%nat /\
  Rabs (qualityLevel (monitorUpdate now pm) - qualityLevel pm) <= 0.1.
Proof.
  intros pm.
  assert (monitor_ok pm) as [Hq Hl].
  { subst pm. induction times as [| t times IH] using rev_ind.
    - split; simpl; [lra | lia].
    - rewrite foldl_app. simpl. by apply monitorUpdate_ok. }
  split; [done |]. split; [done |].
  unfold monitorUpdate. cbv zeta. case_decide as Ht.
  - cbn [qualityLevel].
    set (pm1 := {| frameCount := S (frameCount pm) |}).
    by destruct (adjustQuality_level pm1 Hq) as (_ & Hd & _).
  - cbn [qualityLevel]. rewrite Rminus_diag, Rabs_R0. lra.
Qed.

End MonitorFacts.

(** ** The motion of the hero particles *)

Section HeroMotion.










Lemma Part000_move_keeps (rect : DOMRect) (mouseX mouseY : R) (p : Part000.Particle) :
  let q := Part000.move rect mouseX mouseY p in
  Part000.p_z q = Part000.p_z p /\ Part000.p_size q = Part000.p_size p /\
  Part000.p_speed q = Part000.p_speed p /\
  Part000.p_opacity q = Part000.p_opacity p /\
  Part000.p_pulsePhase q = Part000.p_pulsePhase p + 0.05.
Proof.
  unfold Part000.move, Part000.clamp, Part000.reflect, Part000.integrate,
    Part000.repel.
  cbv zeta. repeat case_match; done.
Qed.

Lemma AppJs_move_keeps (width height : R) (p : AppJs.Particle) :
  let q := AppJs.move width height p in
  AppJs.p_size q = AppJs.p_size p /\ AppJs.p_speed q = AppJs.p_speed p /\
  AppJs.p_opacity q = AppJs.p_opacity p.
Proof.
  unfold AppJs.move, AppJs.clamp, AppJs.reflect, AppJs.integrate.
  cbv zeta. repeat case_match; done.
Qed.

(** X13.  One [update()] of a hero scene that holds a canvas returns,
    leaves the globals alone and keeps the particle and shape arrays at
    their lengths.  A particle keeps its size, speed and opacity (and
    its depth [z] in [part_000], where its pulse phase grows by 0.05); a
    shape turns by its rotation speed and changes nothing else but, in
    [part_000], its pulse, which grows by 0.03. *)
Theorem X13_update_frame_conditions :
  (forall (s : Scene3D (option Part000.HeroFields)) (g : Globals) (c : Canvas)
          (f : Part000.HeroFields),
     canvas s = Some c -> ext s = Some f ->
     exists f',
       Part000.HeroScene_update s g = Normal (Some f', g) /\
       length (Part000.particles f') = length (Part000.particles f) /\
       Part000.shapes f' = Part000.updateShape <$> Part000.shapes f /\
       forall i p, Part000.particles f !! i = Some p ->
         exists p', Part000.particles f' !! i = Some p' /\
           Part000.p_z p' = Part000.p_z p /\
           Part000.p_size p' = Part000.p_size p /\
           Part000.p_speed p' = Part000.p_speed p /\
           Part000.p_opacity p' = Part000.p_opacity p /\
           Part000.p_pulsePhase p' = Part000.p_pulsePhase p + 0.05) /\
  (forall (s : Scene3D (option AppJs.HeroFields)) (g : Globals) (c : Canvas)
          (f : AppJs.HeroFields),
     canvas s = Some c -> ext s = Some f ->
     exists f',
       AppJs.HeroScene_update s g = Normal (Some f', g) /\
       length (AppJs.particles f') = length (AppJs.particles f) /\
       AppJs.shapes f' = AppJs.updateShape <$> AppJs.shapes f /\
       forall i p, AppJs.particles f !! i = Some p ->
         exists p', AppJs.particles f' !! i = Some p' /\
           AppJs.p_size p' = AppJs.p_size p /\
           AppJs.p_speed p' = AppJs.p_speed p /\
           AppJs.p_opacity p' = AppJs.p_opacity p).
Proof.
  split.
  - intros s g c f Hc Hf. unfold Part000.HeroScene_update. rewrite Hc, Hf.
    eexists. split; [reflexivity |]. cbn [Part000.particles Part000.shapes].
    split; [apply updateParticles_length |]. split; [done |].
    intros i p Hp. rewrite updateParticles_lookup, Hp. simpl.
    eexists. split; [reflexivity |].
    apply Part000_move_keeps.
  - intros s g c f Hc Hf. unfold AppJs.HeroScene_update. rewrite Hc, Hf.
    eexists. split; [reflexivity |]. cbn [AppJs.particles AppJs.shapes].
    unfold AppJs.updateParticles.
    split; [by rewrite length_map |]. split; [done |].
    intros i p Hp. exists (AppJs.move (clientWidth c) (clientHeight c) p).
    split; [| apply AppJs_move_keeps].
    change (map ?f ?l) with (f <$> l). by rewrite list_lookup_fmap, Hp.
Qed.

Lemma X13_update_frame_conditions_witness :
  exists f',
    Part000.HeroScene_update (scene Sample.heroWorld) (globals Sample.heroWorld)
    = Normal (Some f', globals Sample.heroWorld) /\
    length (Part000.particles f') = 1%nat.
Proof.
  destruct (proj1 X13_update_frame_conditions (scene Sample.heroWorld)
              (globals Sample.heroWorld) Sample.surface
              {| Part000.particles := [Sample.drifting]; Part000.shapes := [] |}
              eq_refl eq_refl)
    as (f' & Hu & Hl & _).
  exists f'. split; [exact Hu | exact Hl].
Defined.




End HeroMotion.

(** ** One loop per scene *)

Section LoopFacts.
Context {X : Type}.
Variable copy : Copy.
Variables update render : Hook X.

#[local] Abbreviation animate' := (animate copy update render).
#[local] Abbreviation start' := (start copy update render).
#[local] Abbreviation frame' := (frame copy update render).

Lemma start_running (w : World X) :
  let w' := settle (start' w) in
  isRunning (scene w') = true /\
  animationId (scene w') = Some (nextHandle w) /\
  frameCallbacks w' = frameCallbacks w ++ [nextHandle w] /\
  nextHandle w' = Pos.succ (nextHandle w).
Proof.
  unfold start.
  destruct (animate_running copy update render
              (set_scene w (set_isRunning (scene w) true)) eq_refl)
    as (? & ? & ? & ? & _).
  done.
Qed.

Lemma running_start (w : World X) :
  isRunning (scene w) = true -> start' w = animate' w.
Proof.
  intros Hr. unfold start. f_equal. destruct w as [[] ? ? ?]. simpl in *. by subst.
Qed.

(** A refresh of a single loop is one run of [animate]. *)
Lemma frame_single_start (w : World X) :
  single_loop w -> frame' w = settle (start' (set_frameCallbacks w [])).
Proof.
  intros (Hr & h & Hid & Hcb). rewrite frame_iter, Hcb. simpl.
  by rewrite running_start.
Qed.

Lemma frame_single (w : World X) :
  single_loop w ->
  single_loop (frame' w) /\
  time (scene (frame' w)) = timeAfter copy (time (scene w)) 1.
Proof.
  intros (Hr & h & Hid & Hcb).
  destruct (frame_running copy update render w Hr) as (_ & _ & Ht).
  rewrite Hcb in Ht. split; [| exact Ht].
  rewrite frame_iter, Hcb. simpl.
  destruct (animate_running copy update render (set_frameCallbacks w []) Hr)
    as (Hr' & Hid' & Hcb' & _).
  split; [done |]. eexists. split; [exact Hid' | exact Hcb'].
Qed.

Lemma stop_single (w : World X) :
  single_loop w -> frameCallbacks (stop w) = [].
Proof.
  intros (_ & h & Hid & Hcb). unfold stop. simpl. rewrite Hid.
  unfold cancelAnimationFrame. simpl. rewrite Hcb.
  rewrite filter_cons_False by (intros Hne; by apply Hne). done.
Qed.

Lemma start_from_rest (w : World X) :
  frameCallbacks w = [] -> single_loop (settle (start' w)).
Proof.
  intros Hcb. destruct (start_running w) as (Hr & Hid & Hcb' & _).
  split; [done |]. eexists. split; [exact Hid |]. by rewrite Hcb', Hcb.
Qed.

Lemma frames_at_rest (n : nat) (w : World X) :
  isRunning (scene w) = false -> frameCallbacks w = [] ->
  frameCallbacks (Nat.iter n frame' w) = [].
Proof.
  intros Hr Hcb. destruct n as [| n]; [done |].
  by destruct (frames_stopped copy update render (S n) w Hr) as (_ & _ & _ & ->);
    [| lia].
Qed.

(** X15.  A scene with one frame callback pending, its handle stored,
    keeps exactly that shape across display refreshes, each of which
    runs [animate] once (the time of [part_000] grows by 0.016 per
    refresh); [stop()] then cancels the pending callback, so none is
    left; and [start()] after [stop()], with any number of refreshes in
    between, leaves one callback pending again.  Pausing and resuming
    never multiplies the loop. *)
Theorem X15_pause_resume_keeps_one_loop (w : World X) (n : nat) :
  single_loop w ->
  single_loop (Nat.iter n frame' w) /\
  time (scene (Nat.iter n frame' w)) = timeAfter copy (time (scene w)) n /\
  frameCallbacks (stop w) = [] /\
  single_loop (settle (start' (Nat.iter n frame' (stop w)))).
Proof.
  intros Hw.
  assert (single_loop (Nat.iter n frame' w) /\
          time (scene (Nat.iter n frame' w))
          = timeAfter copy (time (scene w)) n) as [Hn Htime].
  { induction n as [| n [IH Ht]].
    - split; [done |]. unfold timeAfter. destruct copy; simpl; lra.
    - rewrite Nat.iter_succ. destruct (frame_single _ IH) as [Hs Ht'].
      split; [done |]. rewrite Ht', Ht. unfold timeAfter.
      destruct copy; [done |]. rewrite (S_INR n). change (INR 1) with 1. lra. }
  split; [done |]. split; [done |]. split.
  - by apply stop_single.
  - apply start_from_rest. apply frames_at_rest.
    + apply stop_not_running.
    + by apply stop_single.
Qed.

(** X16.  After a second [start()] on a running scene, [stop()] cancels
    only the callback requested last; the older one stays pending.  If
    [start()] follows before the next display refresh, two callbacks
    are pending and stay so on every later refresh: pausing and
    resuming at once does not cure the doubled loop.  If at least one
    refresh passes while the scene is stopped, the stale callback
    returns at the guard and [start()] leaves a single loop. *)
Theorem X16_doubled_loop_survives_quick_resume (w : World X) (h : positive) :
  isRunning (scene w) = true ->
  animationId (scene w) = Some h ->
  frameCallbacks w = [h] ->
  (h < nextHandle w)%positive ->
  let w2 := settle (start' w) in
  frameCallbacks (stop w2) = [h] /\
  (forall n,
     length (frameCallbacks
               (Nat.iter n frame' (settle (start' (stop w2))))) = 2%nat) /\
  (forall k, (0 < k)%nat ->
     single_loop (settle (start' (Nat.iter k frame' (stop w2))))).
Proof.
  intros Hr Hid Hcb Hfresh w2.
  destruct (start_running w) as (Hr2 & Hid2 & Hcb2 & Hn2).
  fold w2 in Hr2, Hid2, Hcb2, Hn2.
  assert (Hstop : frameCallbacks (stop w2) = [h]).
  { unfold stop. simpl. rewrite Hid2. unfold cancelAnimationFrame. simpl.
    rewrite Hcb2, Hcb. simpl.
    rewrite filter_cons_True by lia.
    rewrite filter_cons_False by (intros Hne; by apply Hne). done. }
  split; [done |]. split.
  - intros n.
    destruct (start_running (stop w2)) as (Hr3 & _ & Hcb3 & _).
    destruct (frames_running copy update render n _ Hr3) as (_ & ->).
    by rewrite Hcb3, Hstop.
  - intros k Hk. apply start_from_rest.
    by destruct (frames_stopped copy update render k (stop w2)
                   (stop_not_running w2)) as (_ & _ & _ & ->).
Qed.

(** The base constructor on a canvas with a 2D context: the canvas is
    sized, the context scaled, and [start()] runs. *)
Lemma construct_with_context (cv : Canvas) (particleCount : nat)
    (type : string) (x0 : X) (g : Globals) (next : positive) :
  context2d cv = true ->
  exists (w0 : World X) (cv' : Canvas),
    construct copy update render (Some cv) particleCount type x0 g next
      = start' w0 /\
    scene w0 = {| canvas := Some cv'; ctx := true; isRunning := false;
                  animationId := None; time := 0;
                  options_particleCount := particleCount;
                  options_type := type; ext := x0 |} /\
    boundingClientRect cv' = boundingClientRect cv /\
    globals w0 = appended g [Scale (pixelRatio g) (pixelRatio g)] /\
    frameCallbacks w0 = [] /\ nextHandle w0 = next.
Proof.
  intros Hctx. unfold construct, init. cbn [scene canvas set_scene set_ctx ctx negb].
  rewrite Hctx. cbn [negb]. unfold setupCanvas.
  cbn [scene canvas set_scene set_ctx ctx globals set_canvas]. cbn [andThen].
  eexists _, _. split; [reflexivity |].
  split; [reflexivity |]. cbn.
  unfold pixelRatio, JS.or_else. by repeat split.
Qed.

(** [start()] when [update()] throws. *)
Lemma start_update_thrown (w : World X) (x1 : X) (g1 : Globals) :
  let s1 :=
    set_time
      (set_animationId (set_isRunning (scene w) true) (Some (nextHandle w)))
      (match copy with
       | app_js => time (scene w)
       | part_000 => time (scene w) + 0.016
       end) in
  update s1 (globals w) = Thrown (x1, g1) ->
  start' w =
    Thrown {| scene := set_ext s1 x1; globals := g1;
              frameCallbacks := frameCallbacks w ++ [nextHandle w];
              nextHandle := Pos.succ (nextHandle w) |}.
Proof.
  intros s1 Hu. unfold start, animate. simpl. subst s1.
  destruct copy;
    cbv [call set_time set_animationId set_isRunning set_scene set_globals
         set_ext monitor] in *;
    cbn [scene globals canvas ctx isRunning animationId time
         options_particleCount options_type ext frameCallbacks nextHandle
         negb andThen] in *;
    rewrite Hu; reflexivity.
Qed.

(** [start()] when [update()] returns and [render()] throws. *)
Lemma start_render_thrown (w : World X) (x1 x2 : X) (g1 g2 : Globals) :
  let s1 :=
    set_time
      (set_animationId (set_isRunning (scene w) true) (Some (nextHandle w)))
      (match copy with
       | app_js => time (scene w)
       | part_000 => time (scene w) + 0.016
       end) in
  update s1 (globals w) = Normal (x1, g1) ->
  render (set_ext s1 x1) g1 = Thrown (x2, g2) ->
  start' w =
    Thrown {| scene := set_ext s1 x2; globals := g2;
              frameCallbacks := frameCallbacks w ++ [nextHandle w];
              nextHandle := Pos.succ (nextHandle w) |}.
Proof.
  intros s1 Hu Hr. unfold start, animate. simpl. subst s1.
  destruct copy;
    cbv [call set_time set_animationId set_isRunning set_scene set_globals
         set_ext monitor] in *;
    cbn [scene globals canvas ctx isRunning animationId time
         options_particleCount options_type ext frameCallbacks nextHandle
         negb andThen] in *;
    rewrite Hu; cbn [andThen scene globals canvas ctx isRunning animationId
                     time options_particleCount options_type ext
                     frameCallbacks nextHandle];
    rewrite Hr; reflexivity.
Qed.

(** [construct] on a canvas with a context when the hooks return on the
    scene the base constructor has built; [Q] relates the globals before
    and after [render]. *)
Lemma construct_starts (Q : Globals -> Globals -> Prop)
    (cv : Canvas) (particleCount : nat) (type : string) (x0 : X)
    (g : Globals) (next : positive) :
  context2d cv = true ->
  (forall s g0, ext s = x0 -> update s g0 = Normal (ext s, g0)) ->
  (forall s g0, ctx s = true -> is_Some (canvas s) -> options_type s = type ->
                ext s = x0 ->
     exists g2, render s g0 = Normal (ext s, g2) /\ Q g0 g2) ->
  exists w g2,
    construct copy update render (Some cv) particleCount type x0 g next
      = Normal w /\
    single_loop w /\ animationId (scene w) = Some next /\
    ext (scene w) = x0 /\
    time (scene w) = match copy with app_js => 0 | part_000 => 0.016 end /\
    Q (appended g [Scale (pixelRatio g) (pixelRatio g)]) g2 /\
    globals w = match copy with app_js => g2 | part_000 => monitorTick g2 end.
Proof.
  intros Hctx Hupdate Hrender.
  destruct (construct_with_context cv particleCount type x0 g next Hctx)
    as (w0 & cv' & -> & Hs0 & _ & Hg0 & Hcb0 & Hn0).
  set (s1 := set_time
               (set_animationId (set_isRunning (scene w0) true)
                  (Some (nextHandle w0)))
               (match copy with
                | app_js => time (scene w0)
                | part_000 => time (scene w0) + 0.016
                end)).
  assert (ext s1 = x0) as He1 by (subst s1; by rewrite Hs0).
  pose proof (Hupdate s1 (globals w0) He1) as Hu.
  destruct (Hrender (set_ext s1 (ext s1)) (globals w0)) as (g2 & Hr & HQ).
  { subst s1. by rewrite Hs0. }
  { subst s1. rewrite Hs0. simpl. eauto. }
  { subst s1. by rewrite Hs0. }
  { done. }
  eexists _, g2. split.
  - apply (start_normal copy update render w0 _ _ _ _ Hu Hr).
  - cbn [scene globals frameCallbacks nextHandle].
    split; [split; [by subst s1 | eexists; split; [by subst s1 |]] |].
    { rewrite Hcb0. reflexivity. }
    rewrite <- Hg0. split; [| split; [| split; [| done]]].
    + subst s1. by rewrite Hn0.
    + done.
    + subst s1. rewrite Hs0. cbn. destruct copy; [done | lra].
Qed.

End LoopFacts.

Lemma single_loop_heroWorld : single_loop Sample.heroWorld.
Proof. split; [reflexivity |]. exists 1%positive. split; reflexivity. Qed.

Lemma X15_pause_resume_keeps_one_loop_witness :
  single_loop Sample.heroWorld /\
  frameCallbacks (stop Sample.heroWorld) = [] /\
  single_loop
    (settle (start part_000 Part000.HeroScene_update Part000.HeroScene_render
               (Nat.iter 1 (frame part_000 Part000.HeroScene_update
                              Part000.HeroScene_render)
                  (stop Sample.heroWorld)))).
Proof.
  split; [exact single_loop_heroWorld |].
  destruct (X15_pause_resume_keeps_one_loop part_000 Part000.HeroScene_update
              Part000.HeroScene_render Sample.heroWorld 1 single_loop_heroWorld)
    as (_ & _ & Hstop & Hstart).
  split; [exact Hstop | exact Hstart].
Defined.

Lemma X16_doubled_loop_survives_quick_resume_witness :
  (1 < nextHandle Sample.heroWorld)%positive /\
  frameCallbacks
    (stop (settle (start part_000 Part000.HeroScene_update
                     Part000.HeroScene_render Sample.heroWorld)))
  = [1%positive].
Proof.
  assert (1 < nextHandle Sample.heroWorld)%positive as H by (simpl; lia).
  split; [exact H |].
  apply (X16_doubled_loop_survives_quick_resume part_000
           Part000.HeroScene_update Part000.HeroScene_render
           Sample.heroWorld 1%positive eq_refl eq_refl eq_refl H).
Defined.

(** ** Construction on a canvas with a 2D context *)

Section BrokenLoop.
Context {F : Type}.
Variable copy : Copy.
Variables update render : Hook (option F).

#[local] Abbreviation animate' := (animate copy update render).
#[local] Abbreviation start' := (start copy update render).
#[local] Abbreviation frame' := (frame copy update render).

Hypothesis update_unassigned :
  forall s g, is_Some (canvas s) -> ext s = None -> update s g = Thrown (None, g).

Lemma start_throws_in_update (w : World (option F)) :
  is_Some (canvas (scene w)) -> ext (scene w) = None ->
  exists w',
    start' w = Thrown w' /\
    isRunning (scene w') = true /\
    animationId (scene w') = Some (nextHandle w) /\
    frameCallbacks w' = frameCallbacks w ++ [nextHandle w] /\
    canvas (scene w') = canvas (scene w) /\ ext (scene w') = None /\
    globals w' = globals w.
Proof using update_unassigned.
  intros Hc He. eexists. split.
  - apply start_update_thrown. apply update_unassigned; done.
  - done.
Qed.

(** A single loop whose scene lacks the subclass fields throws on every
    refresh and changes nothing outside the scene. *)
Lemma unassigned_refreshes (w : World (option F)) (n : nat) :
  single_loop w -> is_Some (canvas (scene w)) -> ext (scene w) = None ->
  let wn := Nat.iter n frame' w in
  single_loop wn /\ is_Some (canvas (scene wn)) /\ ext (scene wn) = None /\
  globals wn = globals w /\
  exists w', animate' (set_frameCallbacks wn []) = Thrown w' /\
             globals w' = globals w.
Proof using update_unassigned.
  intros Hs Hc He.
  assert (forall v, single_loop v -> is_Some (canvas (scene v)) ->
                    ext (scene v) = None ->
            exists v', animate' (set_frameCallbacks v []) = Thrown v' /\
                       frame' v = v' /\ single_loop v' /\
                       is_Some (canvas (scene v')) /\ ext (scene v') = None /\
                       globals v' = globals v) as Hstep.
  { intros v Hv Hcv Hev.
    destruct (start_throws_in_update (set_frameCallbacks v []) Hcv Hev)
      as (v' & Hst & Hr' & Hid' & Hcb' & Hc' & He' & Hg').
    exists v'. rewrite <- running_start by apply Hv.
    split; [done |]. split; [by rewrite frame_single_start, Hst |].
    split; [split; [done | eexists; split; [exact Hid' | exact Hcb']] |].
    split; [by rewrite Hc' |]. done. }
  induction n as [| n IH]; cbv zeta.
  - simpl. split; [done |]. split; [done |]. split; [done |]. split; [done |].
    destruct (Hstep w Hs Hc He) as (w' & Ha & _ & _ & _ & _ & Hg). eauto.
  - cbv zeta in IH. destruct IH as (Hsn & Hcn & Hen & Hgn & _).
    rewrite Nat.iter_succ.
    destruct (Hstep _ Hsn Hcn Hen) as (v' & _ & Hf & Hs' & Hc' & He' & Hg').
    rewrite Hf.
    split; [done |]. split; [done |]. split; [done |].
    split; [by rewrite Hg' |].
    destruct (Hstep v' Hs' Hc' He') as (w' & Ha & _ & _ & _ & _ & Hg).
    exists w'. split; [done |]. by rewrite Hg, Hg'.
Qed.

(** Constructing such a scene on a canvas with a context. *)
Lemma construct_throws (cv : Canvas) (particleCount : nat) (type : string)
    (g : Globals) (next : positive) :
  context2d cv = true ->
  exists w,
    construct copy update render (Some cv) particleCount type None g next
      = Thrown w /\
    single_loop w /\ is_Some (canvas (scene w)) /\ ext (scene w) = None /\
    globals w = appended g [Scale (pixelRatio g) (pixelRatio g)].
Proof using update_unassigned.
  intros Hctx.
  destruct (construct_with_context copy update render cv particleCount type
              None g next Hctx)
    as (w0 & cv' & -> & Hs0 & _ & Hg0 & Hcb0 & Hn0).
  destruct (start_throws_in_update w0) as (w & Hst & Hr & Hid & Hcb & Hc & He & Hg).
  { rewrite Hs0. simpl. eauto. }
  { by rewrite Hs0. }
  exists w. split; [done |].
  split; [split; [done | eexists; split; [exact Hid | by rewrite Hcb, Hcb0]] |].
  split; [rewrite Hc, Hs0; simpl; eauto |].
  split; [done |]. by rewrite Hg.
Qed.

End BrokenLoop.

Section ConstructionFacts.

Lemma Part000_hero_update_unassigned (s : Scene3D (option Part000.HeroFields)) g :
  is_Some (canvas s) -> ext s = None ->
  Part000.HeroScene_update s g = Thrown (None, g).
Proof. intros [c Hc] He. unfold Part000.HeroScene_update. by rewrite Hc, He. Qed.

Lemma AppJs_hero_update_unassigned (s : Scene3D (option AppJs.HeroFields)) g :
  is_Some (canvas s) -> ext s = None ->
  AppJs.HeroScene_update s g = Thrown (None, g).
Proof. intros [c Hc] He. unfold AppJs.HeroScene_update. by rewrite Hc, He. Qed.

(** X17.  [new HeroScene(canvas)] on a canvas that yields a 2D context
    does not return, in either copy: the base constructor starts the
    loop, and the first [update()] reads [this.particles] before the
    subclass constructor has assigned it.  The [TypeError] leaves the
    scene running with one frame callback pending and no particle
    created; the only call the context has received is [scale], and
    every later refresh throws in the same way and draws nothing. *)
Theorem X17_hero_constructor_throws (cv : Canvas) (g : Globals) (next : positive) :
  context2d cv = true ->
  (exists w,
     Part000.new_HeroScene (Some cv) g next = Thrown w /\
     single_loop w /\ ext (scene w) = None /\
     globals w = appended g [Scale (pixelRatio g) (pixelRatio g)] /\
     forall n, exists w',
       animate part_000 Part000.HeroScene_update Part000.HeroScene_render
         (set_frameCallbacks
            (Nat.iter n (frame part_000 Part000.HeroScene_update
                           Part000.HeroScene_render) w) [])
       = Thrown w' /\ globals w' = globals w) /\
  (exists w,
     AppJs.new_HeroScene (Some cv) g next = Thrown w /\
     single_loop w /\ ext (scene w) = None /\
     globals w = appended g [Scale (pixelRatio g) (pixelRatio g)] /\
     forall n, exists w',
       animate app_js AppJs.HeroScene_update AppJs.HeroScene_render
         (set_frameCallbacks
            (Nat.iter n (frame app_js AppJs.HeroScene_update
                           AppJs.HeroScene_render) w) [])
       = Thrown w' /\ globals w' = globals w).
Proof.
  intros Hctx. split.
  - destruct (construct_throws part_000 Part000.HeroScene_update
                Part000.HeroScene_render Part000_hero_update_unassigned
                cv (if isMobile g then 80%nat else 150%nat) "default" g next Hctx)
      as (w & Hw & Hs & Hc & He & Hg).
    exists w. unfold Part000.new_HeroScene. rewrite Hw.
    split; [done |]. split; [done |]. split; [done |]. split; [done |].
    intros n.
    by destruct (unassigned_refreshes part_000 Part000.HeroScene_update
                Part000.HeroScene_render Part000_hero_update_unassigned
                w n Hs Hc He) as (_ & _ & _ & _ & Hex).
  - destruct (construct_throws app_js AppJs.HeroScene_update
                AppJs.HeroScene_render AppJs_hero_update_unassigned
                cv 0%nat "" g next Hctx)
      as (w & Hw & Hs & Hc & He & Hg).
    exists w. unfold AppJs.new_HeroScene. rewrite Hw.
    split; [done |]. split; [done |]. split; [done |]. split; [done |].
    intros n.
    by destruct (unassigned_refreshes app_js AppJs.HeroScene_update
                AppJs.HeroScene_render AppJs_hero_update_unassigned
                w n Hs Hc He) as (_ & _ & _ & _ & Hex).
Qed.

Lemma X17_hero_constructor_throws_witness :
  context2d Sample.surface = true /\
  (exists w,
     Part000.new_HeroScene (Some Sample.surface) Example.page 1%positive
     = Thrown w /\ single_loop w) /\
  (exists w,
     AppJs.new_HeroScene (Some Sample.surface) Example.page 1%positive
     = Thrown w /\ single_loop w).
Proof.
  split; [reflexivity |].
  destruct (X17_hero_constructor_throws Sample.surface Example.page 1%positive
              eq_refl)
    as [(w & Hw & Hs & _) (v & Hv & Hsv & _)].
  split; [exists w | exists v]; split; assumption.
Defined.

#[local] Abbreviation canvasAnimate :=
  (animate part_000 (@Part000.Scene3D_update (option (list Part000.Element)))
     Part000.CanvasScene_render).
#[local] Abbreviation canvasStart :=
  (start part_000 (@Part000.Scene3D_update (option (list Part000.Element)))
     Part000.CanvasScene_render).
#[local] Abbreviation canvasFrame :=
  (frame part_000 (@Part000.Scene3D_update (option (list Part000.Element)))
     Part000.CanvasScene_render).

Lemma Part000_particle_render_unassigned
    (s : Scene3D (option (list Part000.Element))) (g : Globals) (cv : Canvas) :
  ctx s = true -> canvas s = Some cv -> options_type s = "particle" ->
  ext s = None ->
  Part000.CanvasScene_render s g
  = Thrown (None, appended g (prologue (boundingClientRect cv))).
Proof.
  intros Hctx Hc Ht He. unfold Part000.CanvasScene_render.
  rewrite Hctx, Hc, Ht, He. cbn [negb].
  rewrite decide_False by done. rewrite decide_False by done.
  rewrite decide_True by done.
  rewrite !run_ctx_do_then, run_ctx_do. cbn [snd].
  by rewrite !appended_app.
Qed.

Lemma unassigned_start (rect : DOMRect)
    (w : World (option (list Part000.Element))) :
  ctx (scene w) = true ->
  (exists cv, canvas (scene w) = Some cv /\ boundingClientRect cv = rect) ->
  options_type (scene w) = "particle" -> ext (scene w) = None ->
  frameCallbacks w = [] ->
  exists w',
    canvasStart w = Thrown w' /\ unassigned rect w' /\
    globals w' = appended (globals w) (prologue rect).
Proof.
  intros Hctx (cv & Hc & Hrect) Ht He Hcb.
  eexists. split.
  - eapply start_render_thrown; [reflexivity |].
    by apply (Part000_particle_render_unassigned _ _ cv).
  - split; [| by rewrite Hrect].
    split; [split; [done | eexists; split; [reflexivity | by rewrite Hcb]] |].
    split; [done |]. split; [by exists cv |]. done.
Qed.

Lemma unassigned_frame (rect : DOMRect)
    (w : World (option (list Part000.Element))) :
  unassigned rect w ->
  exists w',
    canvasAnimate (set_frameCallbacks w []) = Thrown w' /\
    canvasFrame w = w' /\ unassigned rect w' /\
    globals w' = appended (globals w) (prologue rect).
Proof.
  intros (Hs & Hctx & Hc & Ht & He).
  destruct (unassigned_start rect (set_frameCallbacks w []) Hctx Hc Ht He eq_refl)
    as (w' & Hst & Hu & Hg).
  exists w'. split; [| split; [| done]].
  - rewrite <- Hst. symmetry. apply running_start. apply Hs.
  - by rewrite frame_single_start, Hst.
Qed.

(** X18.  In [part_000], [new CanvasScene(canvas, 'particle')] on a
    canvas that yields a 2D context does not return: the first
    [render()], run by the base constructor, reads [this.elements]
    before it is assigned.  The [TypeError] escapes after [clearRect],
    [save] and [translate], so [restore] is not called; the scene stays
    running with one callback pending, and every later refresh throws
    at the same place after the same three calls. *)
Theorem X18_particle_canvas_constructor_throws
    (cv : Canvas) (g : Globals) (next : positive) :
  context2d cv = true ->
  let calls := prologue (boundingClientRect cv) in
  exists w,
    Part000.new_CanvasScene (Some cv) "particle" g next = Thrown w /\
    single_loop w /\ ext (scene w) = None /\
    globals w = appended g (Scale (pixelRatio g) (pixelRatio g) :: calls) /\
    forall n,
      let wn := Nat.iter n canvasFrame w in
      exists w',
        canvasAnimate (set_frameCallbacks wn []) = Thrown w' /\
        globals w' = appended (globals wn) calls.
Proof.
  intros Hctx calls. unfold Part000.new_CanvasScene.
  destruct (construct_with_context part_000 Part000.Scene3D_update
              Part000.CanvasScene_render cv 50%nat "particle" None g next Hctx)
    as (w0 & cv' & -> & Hs0 & Hrect & Hg0 & Hcb0 & Hn0).
  destruct (unassigned_start (boundingClientRect cv) w0)
    as (w & Hst & Hu & Hg).
  { by rewrite Hs0. }
  { rewrite Hs0. by exists cv'. }
  { by rewrite Hs0. }
  { by rewrite Hs0. }
  { done. }
  exists w. rewrite Hst. split; [done |].
  split; [apply Hu |]. split; [apply Hu |].
  split; [by rewrite Hg, Hg0, appended_app |].
  intros n. set (wn := Nat.iter n canvasFrame w).
  assert (unassigned (boundingClientRect cv) wn) as Hn.
  { subst wn. induction n as [| n IH]; [done |].
    rewrite Nat.iter_succ.
    by destruct (unassigned_frame _ _ IH) as (v & _ & -> & Hv & _). }
  destruct (unassigned_frame _ _ Hn) as (w' & Ha & _ & _ & Hg').
  by exists w'.
Qed.

Lemma X18_particle_canvas_constructor_throws_witness :
  context2d Sample.surface = true /\
  exists w,
    Part000.new_CanvasScene (Some Sample.surface) "particle" Example.page
      1%positive = Thrown w /\
    single_loop w /\ ext (scene w) = None.
Proof.
  split; [reflexivity |].
  destruct (X18_particle_canvas_constructor_throws Sample.surface Example.page
              1%positive eq_refl)
    as (w & Hw & Hs & He & _).
  exists w. split; [exact Hw |]. split; [exact Hs | exact He].
Defined.

Lemma Part000_canvas_render_returns
    (s : Scene3D (option (list Part000.Element))) (g : Globals) :
  ctx s = true -> is_Some (canvas s) -> options_type s <> "particle" ->
  exists cmds, Part000.CanvasScene_render s g = Normal (ext s, appended g cmds).
Proof.
  intros Hctx [cv Hc] Ht.
  assert (exists g2, Part000.CanvasScene_render s g = Normal (ext s, g2))
    as [g2 Hn].
  { unfold Part000.CanvasScene_render. rewrite Hctx, Hc. cbn [negb].
    repeat case_decide; try done; eauto. }
  destruct (Part000_CanvasScene_render_deterministic s)
    as (thrown & x & cmds & Hd).
  specialize (Hd g). rewrite Hn in Hd.
  destruct thrown; [done |]. injection Hd as Hx Hg. exists cmds. by rewrite Hn, Hg.
Qed.

Lemma AppJs_canvas_render_returns
    (s : Scene3D (option AppJs.CanvasFields)) (g : Globals) :
  ctx s = true -> is_Some (canvas s) ->
  exists g2, AppJs.CanvasScene_render s g = Normal (ext s, g2).
Proof.
  intros Hctx [cv Hc]. unfold AppJs.CanvasScene_render.
  rewrite Hctx, Hc. cbn [negb]. eauto.
Qed.

Lemma Part000_base_render_returns {X} (s : Scene3D X) (g : Globals) :
  ctx s = true -> is_Some (canvas s) ->
  exists g2, Part000.Scene3D_render s g = Normal (ext s, g2).
Proof.
  intros Hctx [cv Hc]. unfold Part000.Scene3D_render.
  rewrite Hctx, Hc. cbn [negb]. eauto.
Qed.

Lemma AppJs_base_render_returns {X} (s : Scene3D X) (g : Globals) :
  ctx s = true -> is_Some (canvas s) ->
  exists g2, AppJs.Scene3D_render s g = Normal (ext s, g2).
Proof.
  intros Hctx [cv Hc]. unfold AppJs.Scene3D_render.
  rewrite Hctx, Hc. cbn [negb]. eauto.
Qed.

Lemma initElements_length (g : Globals) :
  length (fst (Part000.initElements g)) = if isMobile g then 15%nat else 25%nat.
Proof.
  unfold Part000.initElements. rewrite forEachCollect_length, length_seq. done.
Qed.

(** X19.  The other constructions on a canvas that yields a 2D context
    return with the loop started: [new Scene3D(canvas)] in both copies,
    [new CanvasScene(canvas, type)] of [app_js] for every type, and of
    [part_000] for every type but ['particle'].  One frame callback is
    pending, its handle stored; one [animate] has already run (the time
    of [part_000] stands at 0.016); the [part_000] canvas scene then
    holds 25 elements, 15 on a narrow viewport. *)
Theorem X19_constructors_that_start
    (cv : Canvas) (type : string) (g : Globals) (next : positive) :
  context2d cv = true ->
  (exists w, Part000.new_Scene3D (Some cv) g next = Normal w /\
             single_loop w /\ animationId (scene w) = Some next /\
             time (scene w) = 0.016) /\
  (type <> "particle" ->
   exists w elements,
     Part000.new_CanvasScene (Some cv) type g next = Normal w /\
     single_loop w /\ animationId (scene w) = Some next /\
     time (scene w) = 0.016 /\ ext (scene w) = Some elements /\
     length elements = if isMobile g then 15%nat else 25%nat) /\
  (exists w, AppJs.new_Scene3D (Some cv) g next = Normal w /\
             single_loop w /\ animationId (scene w) = Some next) /\
  (exists w, AppJs.new_CanvasScene (Some cv) type g next = Normal w /\
             single_loop w /\ animationId (scene w) = Some next /\
             ext (scene w) = Some {| AppJs.cs_type := type; AppJs.cs_time := 0 |}).
Proof.
  intros Hctx. split; [| split; [| split]].
  - destruct (construct_starts part_000 Part000.Scene3D_update
                Part000.Scene3D_render (fun _ _ => True)
                cv 50%nat "default" tt g next Hctx)
      as (w & g2 & Hw & Hs & Hid & _ & Ht & _).
    { done. }
    { intros s g0 Hc Hcv _ _.
      destruct (Part000_base_render_returns s g0 Hc Hcv) as (g2 & ->). eauto. }
    exists w. done.
  - intros Htype.
    destruct (construct_starts part_000 Part000.Scene3D_update
                Part000.CanvasScene_render
                (fun g0 g2 => isMobile g2 = isMobile g0)
                cv 50%nat type None g next Hctx)
      as (w & g2 & Hw & Hs & Hid & _ & Ht & Hm & Hg).
    { done. }
    { intros s g0 Hc Hcv Hty _.
      destruct (Part000_canvas_render_returns s g0 Hc Hcv) as (cmds & ->).
      { by rewrite Hty. }
      eauto. }
    unfold Part000.new_CanvasScene. rewrite Hw. cbv [andThen].
    pose proof (initElements_length (globals w)) as Hlen.
    destruct (Part000.initElements (globals w)) as [elements g1].
    eexists _, elements. split; [reflexivity |].
    rewrite Hg in Hlen. cbn in *. by rewrite <- Hm.
  - destruct (construct_starts app_js AppJs.Scene3D_update
                AppJs.Scene3D_render (fun _ _ => True)
                cv 0%nat "" tt g next Hctx)
      as (w & g2 & Hw & Hs & Hid & _).
    { done. }
    { intros s g0 Hc Hcv _ _.
      destruct (AppJs_base_render_returns s g0 Hc Hcv) as (g2 & ->). eauto. }
    exists w. done.
  - destruct (construct_starts app_js AppJs.CanvasScene_update
                AppJs.CanvasScene_render (fun _ _ => True)
                cv 0%nat "" None g next Hctx)
      as (w & g2 & Hw & Hs & Hid & _).
    { intros s g0 He. unfold AppJs.CanvasScene_update. by rewrite He. }
    { intros s g0 Hc Hcv _ _.
      destruct (AppJs_canvas_render_returns s g0 Hc Hcv) as (g2 & ->). eauto. }
    unfold AppJs.new_CanvasScene. rewrite Hw. cbv [andThen].
    eexists. split; [reflexivity |]. done.
Qed.

Lemma X19_constructors_that_start_witness :
  context2d Sample.surface = true /\
  exists w,
    Part000.new_Scene3D (Some Sample.surface) Example.page 1%positive
    = Normal w /\
    single_loop w.
Proof.
  split; [reflexivity |].
  destruct (X19_constructors_that_start Sample.surface "hologram" Example.page
              1%positive eq_refl)
    as ((w & Hw & Hs & _) & _).
  exists w. split; [exact Hw | exact Hs].
Defined.

End ConstructionFacts.

(** ** What the constructors create from random numbers *)

Section Creation.

#[local] Abbreviation drawn := (costs unit_source randomUsed).

Lemma costs_random : drawn Math_random (fun r => 0 <= r < 1) 1.
Proof. intros g Hg. simpl. split; [apply Hg |]. split; [exact Hg | lia]. Qed.

Lemma costs_weaken {A} (P : Globals -> Prop) (mu : Globals -> nat)
    (m : Script A) (V W : A -> Prop) (n n' : nat) :
  costs P mu m V n -> (forall a, V a -> W a) -> n = n' -> costs P mu m W n'.
Proof.
  intros Hm HVW <- g Hg. destruct (Hm g Hg) as (? & ? & ?). auto.
Qed.

Lemma costs_collect {A B} (P : Globals -> Prop) (mu : Globals -> nat)
    (l : list A) (f : A -> Script B) (V : B -> Prop) (n : nat) :
  (forall a, costs P mu (f a) V n) ->
  costs P mu (forEachCollect l f)
    (fun bs => length bs = length l /\ Forall V bs) (length l * n).
Proof.
  intros Hf. induction l as [| a l IH]; simpl.
  - apply costs_ret. by split.
  - apply (costs_bind _ _ _ _ V); [apply Hf | intros b Hb].
    replace (length l * n)%nat with (length l * n + 0)%nat by lia.
    apply (costs_bind _ _ _ _ (fun bs => length bs = length l /\ Forall V bs));
      [apply IH |].
    intros bs [Hbs HV]. apply costs_ret. simpl. split; [by rewrite Hbs |].
    by constructor.
Qed.

(** Follows a script that draws one random number after the other. *)
Ltac draw_all :=
  repeat (eapply costs_bind; [apply costs_random | intros ? ?]);
  apply costs_ret; cbv beta in *.

Lemma Part000_newParticle_fresh (w h : R) :
  0 <= w -> 0 <= h ->
  drawn (Part000.newParticle w h) (Part000_fresh_particle w h) 8.
Proof.
  intros Hw Hh. pose proof PI_RGT_0 as Hpi.
  eapply costs_weaken; [unfold Part000.newParticle; draw_all | done | done].
  unfold Part000_fresh_particle; simpl. repeat split; nra.
Qed.

Lemma Part000_newShape_fresh (w h : R) :
  0 <= w -> 0 <= h ->
  drawn (Part000.newShape w h) (Part000_fresh_shape w h) 8.
Proof.
  intros Hw Hh. pose proof PI_RGT_0 as Hpi.
  eapply costs_weaken; [unfold Part000.newShape; draw_all | done | done].
  unfold Part000_fresh_shape; simpl.
  match goal with
  | |- context [JS.Math_floor ?x] =>
      assert (0 <= JS.Math_floor x < 4)%Z by (apply floor_range; simpl; lra)
  end.
  repeat split; try nra; lia.
Qed.

Lemma AppJs_newParticle_fresh (w h : R) :
  0 <= w -> 0 <= h ->
  drawn (AppJs.newParticle w h) (AppJs_fresh_particle w h) 6.
Proof.
  intros Hw Hh. pose proof PI_RGT_0 as Hpi.
  eapply costs_weaken; [unfold AppJs.newParticle; draw_all | done | done].
  unfold AppJs_fresh_particle; simpl. repeat split; nra.
Qed.

Lemma AppJs_newShape_fresh (w h : R) :
  0 <= w -> 0 <= h ->
  drawn (AppJs.newShape w h) (AppJs_fresh_shape w h) 6.
Proof.
  intros Hw Hh. pose proof PI_RGT_0 as Hpi.
  eapply costs_weaken; [unfold AppJs.newShape; draw_all | done | done].
  unfold AppJs_fresh_shape; simpl.
  match goal with
  | |- context [JS.Math_floor ?x] =>
      assert (0 <= JS.Math_floor x < 3)%Z by (apply floor_range; simpl; lra)
  end.
  repeat split; try nra; lia.
Qed.

Lemma Part000_initializeElements_fresh {X} (s : Scene3D X) :
  0 <= (Part000_box s).1 -> 0 <= (Part000_box s).2 ->
  drawn (Part000.initializeElements s)
    (fun f =>
       length (Part000.particles f) = options_particleCount s /\
       length (Part000.shapes f) = 8%nat /\
       Forall (Part000_fresh_particle (Part000_box s).1 (Part000_box s).2)
         (Part000.particles f) /\
       Forall (Part000_fresh_shape (Part000_box s).1 (Part000_box s).2)
         (Part000.shapes f))
    (8 * (options_particleCount s + 8)).
Proof.
  unfold Part000.initializeElements, Part000_box.
  destruct (match canvas s with
            | Some c => (rect_width (boundingClientRect c),
                         rect_height (boundingClientRect c))
            | None => (800, 600)
            end) as [w h].
  cbn [fst snd]. intros Hw Hh.
  apply (costs_weaken _ _ _
           (fun f =>
              (length (Part000.particles f)
               = length (seq 0 (options_particleCount s)) /\
               Forall (Part000_fresh_particle w h) (Part000.particles f)) /\
              (length (Part000.shapes f) = length (seq 0 8) /\
               Forall (Part000_fresh_shape w h) (Part000.shapes f)))
           _ (length (seq 0 (options_particleCount s)) * 8
              + (length (seq 0 8) * 8 + 0))).
  - eapply costs_bind.
    + apply costs_collect. intros _. by apply Part000_newParticle_fresh.
    + intros ps Hps. eapply costs_bind.
      * apply costs_collect. intros _. by apply Part000_newShape_fresh.
      * intros ss Hss. apply costs_ret. exact (conj Hps Hss).
  - intros f [[Hlp Hfp] [Hls Hfs]]. rewrite length_seq in *. done.
  - rewrite !length_seq. lia.
Qed.

Lemma AppJs_initializeElements_fresh {X} (s : Scene3D X) (g : Globals) :
  0 <= (AppJs_box s).1 -> 0 <= (AppJs_box s).2 -> unit_source g ->
  let count := if isMobile g then 50%nat else 100%nat in
  let f := (AppJs.initializeElements s g).1 in
  length (AppJs.particles f) = count /\
  length (AppJs.shapes f) = 5%nat /\
  Forall (AppJs_fresh_particle (AppJs_box s).1 (AppJs_box s).2)
    (AppJs.particles f) /\
  Forall (AppJs_fresh_shape (AppJs_box s).1 (AppJs_box s).2) (AppJs.shapes f) /\
  randomUsed (AppJs.initializeElements s g).2
  = (randomUsed g + 6 * (count + 5))%nat.
Proof.
  intros Hw Hh Hg count f. subst f. unfold AppJs.initializeElements. fold count.
  set (w := match canvas s with
            | Some c => JS.or_else (clientWidth c) 800 | None => 800 end).
  set (h := match canvas s with
            | Some c => JS.or_else (clientHeight c) 600 | None => 600 end).
  assert (Hbox : AppJs_box s = (w, h)).
  { unfold AppJs_box, w, h. by destruct (canvas s). }
  rewrite Hbox in *. cbn [fst snd] in Hw, Hh |- *.
  assert (drawn
            (ps ← forEachCollect (seq 0 count) (fun _ => AppJs.newParticle w h);
             ss ← forEachCollect (seq 0 5) (fun _ => AppJs.newShape w h);
             mret {| AppJs.particles := ps; AppJs.shapes := ss |})
            (fun f =>
               (length (AppJs.particles f) = length (seq 0 count) /\
                Forall (AppJs_fresh_particle w h) (AppJs.particles f)) /\
               (length (AppJs.shapes f) = length (seq 0 5) /\
                Forall (AppJs_fresh_shape w h) (AppJs.shapes f)))
            (length (seq 0 count) * 6 + (length (seq 0 5) * 6 + 0))) as Hc.
  { eapply costs_bind.
    - apply costs_collect. intros _. by apply AppJs_newParticle_fresh.
    - intros ps Hps. eapply costs_bind.
      + apply costs_collect. intros _. by apply AppJs_newShape_fresh.
      + intros ss Hss. apply costs_ret. exact (conj Hps Hss). }
  destruct (Hc g Hg) as ([[Hlp Hfp] [Hls Hfs]] & Hg' & Hmu).
  rewrite !length_seq in *.
  split; [done |]. split; [done |]. split; [done |]. split; [done |].
  rewrite Hmu. lia.
Qed.

(** X20.  With [Math.random()] in [[0, 1)], [initializeElements] of a
    hero scene creates [options.particleCount] particles and 8 shapes in
    [part_000] (100 particles, 50 on a narrow viewport, and 5 shapes in
    [app_js]), drawing 8 (6) random numbers for each.  Every particle
    and shape lies in the box the elements are spread over (the canvas
    box, 800 by 600 without canvas and, in [app_js], for a side of
    length 0), every speed is in [[0.1, 0.6)], every size in [[1, 4)],
    and every shape type is one the renderer draws: 0..3 in [part_000],
    0..2 in [app_js]. *)
Theorem X20_hero_elements_created :
  (forall (X : Type) (s : Scene3D X) (g : Globals),
     unit_source g ->
     0 <= (Part000_box s).1 -> 0 <= (Part000_box s).2 ->
     let f := (Part000.initializeElements s g).1 in
     length (Part000.particles f) = options_particleCount s /\
     length (Part000.shapes f) = 8%nat /\
     Forall (Part000_fresh_particle (Part000_box s).1 (Part000_box s).2)
       (Part000.particles f) /\
     Forall (Part000_fresh_shape (Part000_box s).1 (Part000_box s).2)
       (Part000.shapes f) /\
     randomUsed (Part000.initializeElements s g).2
     = (randomUsed g + 8 * (options_particleCount s + 8))%nat) /\
  (forall (X : Type) (s : Scene3D X) (g : Globals),
     unit_source g ->
     0 <= (AppJs_box s).1 -> 0 <= (AppJs_box s).2 ->
     let count := if isMobile g then 50%nat else 100%nat in
     let f := (AppJs.initializeElements s g).1 in
     length (AppJs.particles f) = count /\
     length (AppJs.shapes f) = 5%nat /\
     Forall (AppJs_fresh_particle (AppJs_box s).1 (AppJs_box s).2)
       (AppJs.particles f) /\
     Forall (AppJs_fresh_shape (AppJs_box s).1 (AppJs_box s).2)
       (AppJs.shapes f) /\
     randomUsed (AppJs.initializeElements s g).2
     = (randomUsed g + 6 * (count + 5))%nat).
Proof.
  split.
  - intros X s g Hg Hw Hh.
    destruct (Part000_initializeElements_fresh s Hw Hh g Hg)
      as ((? & ? & ? & ?) & _ & ?).
    done.
  - intros X s g Hg Hw Hh. by apply AppJs_initializeElements_fresh.
Qed.

Lemma unit_source_page : unit_source Example.page.
Proof. intros n. simpl. lra. Qed.

Lemma X20_hero_elements_created_witness :
  unit_source Example.page /\
  length (Part000.particles
            (Part000.initializeElements (scene Sample.heroWorld) Example.page).1)
  = 1%nat /\
  length (AppJs.shapes
            (AppJs.initializeElements (scene Sample.heroWorldV1) Example.page).1)
  = 5%nat.
Proof.
  split; [exact unit_source_page |]. split.
  - apply (proj1 X20_hero_elements_created _ (scene Sample.heroWorld)
             Example.page unit_source_page); simpl; lra.
  - apply (proj2 X20_hero_elements_created _ (scene Sample.heroWorldV1)
             Example.page unit_source_page);
      unfold AppJs_box, JS.or_else; simpl; case_decide; lra.
Defined.

Lemma costs_Utils_random (min max : R) :
  min < max -> drawn (Loading.random min max) (fun v => min <= v < max) 1.
Proof.
  intros Hlt. unfold Loading.random.
  eapply costs_weaken.
  - eapply costs_bind; [apply costs_random |].
    intros r Hr. apply (costs_ret _ _ _ (fun v => min <= v < max)).
    cbv beta in Hr. split; nra.
  - done.
  - done.
Qed.

Lemma newLoadingParticle_fresh :
  drawn Loading.newLoadingParticle fresh_loading_particle 7.
Proof.
  unfold Loading.newLoadingParticle.
  eapply costs_weaken;
    [repeat (eapply costs_bind; [apply costs_Utils_random; lra | intros ? ?]);
     apply costs_ret; cbv beta in * | done | done].
  unfold fresh_loading_particle. simpl. done.
Qed.

(** X21.  Without the reduced-motion preference and with
    [Math.random()] in [[0, 1)], [initParticles] appends to the
    container, behind the children it had, 60 particles (30 on a narrow
    viewport) whose sizes lie in [[2, 6)], positions in [[0, 100)]
    percent, opacities in [[0.3, 0.8)], durations in [[3, 8)] and delays
    in [[0, 2)]; it appends one style element and consumes seven random
    numbers per particle.  Without the container it changes nothing. *)
Theorem X21_loading_particles_created (doc : Loading.Document) (g : Globals) :
  isReducedMotion g = false -> unit_source g ->
  let count := if isMobile g then 30%nat else 60%nat in
  match Loading.loadingParticles doc with
  | None => Loading.initParticles doc g = (doc, g)
  | Some children =>
      exists created,
        Loading.loadingParticles (Loading.initParticles doc g).1
        = Some (children ++ created) /\
        length created = count /\
        Forall fresh_loading_particle created /\
        Loading.headStyles (Loading.initParticles doc g).1
        = S (Loading.headStyles doc) /\
        randomUsed (Loading.initParticles doc g).2
        = (randomUsed g + 7 * count)%nat
  end.
Proof.
  intros Hr Hg count. unfold Loading.initParticles. rewrite Hr.
  destruct (Loading.loadingParticles doc) as [children |] eqn:Hc; [| done].
  rewrite bool_decide_eq_true_2 by done. cbn [negb orb].
  fold count. unfold mbind, Script_bind.
  destruct (costs_collect unit_source randomUsed (seq 0 count)
              (fun _ => Loading.newLoadingParticle) fresh_loading_particle 7
              (fun _ => newLoadingParticle_fresh) g Hg)
    as ((Hlen & Hall) & _ & Hmu).
  destruct (forEachCollect (seq 0 count) _ g) as [created g1].
  unfold mret, Script_ret.
  cbn [fst snd Loading.loadingParticles Loading.headStyles default] in *.
  exists created.
  rewrite length_seq in *. split; [done |]. split; [done |]. split; [done |].
  split; [done |]. rewrite Hmu. lia.
Qed.

Lemma X21_loading_particles_created_witness :
  isReducedMotion Example.page = false /\ unit_source Example.page /\
  exists created,
    Loading.loadingParticles
      (Loading.initParticles Example.emptyScreen Example.page).1
    = Some ([] ++ created) /\
    length created = 60%nat.
Proof.
  split; [reflexivity |]. split; [exact unit_source_page |].
  destruct (X21_loading_particles_created Example.emptyScreen Example.page
              eq_refl unit_source_page)
    as (created & Hc & Hl & _).
  exists created. split; [exact Hc | exact Hl].
Defined.

End Creation.

(** ** The counter of [AnimationManager.animateCounter] *)

Section RoundingFacts.

Lemma roundoff_small : 0 < / 2 ^ 53 <= / 1000000.
Proof.
  assert (1000000 <= 2 ^ 53) as H.
  { apply Rle_trans with (2 ^ 20); [simpl; lra |].
    apply Rle_pow; [lra | lia]. }
  split.
  - apply Rinv_0_lt_compat. lra.
  - apply Rinv_le_contravar; lra.
Qed.

Lemma tiny_small : 0 < / 2 ^ 1022 <= / 128.
Proof.
  assert (128 <= 2 ^ 1022) as H.
  { apply Rle_trans with (2 ^ 7); [simpl; lra |].
    apply Rle_pow; [lra | lia]. }
  split.
  - apply Rinv_0_lt_compat. lra.
  - apply Rinv_le_contravar; lra.
Qed.

Lemma huge_large : 0 < 2 ^ 1000 /\ 4 * 2 ^ 1000 <= 2 ^ 1023.
Proof.
  split; [apply pow_lt; lra |].
  change (4 * 2 ^ 1000) with (2 * 2 * 2 ^ 1000).
  replace (2 * 2 * 2 ^ 1000) with (2 ^ 1002) by (simpl; ring).
  apply Rle_pow; [lra | lia].
Qed.

Lemma rounds_bounds (fl : R -> R) (x : R) :
  JS.rounds fl -> / 128 <= x <= 4 * 2 ^ 1000 ->
  x * (1 - / 2 ^ 53) <= fl x <= x * (1 + / 2 ^ 53).
Proof.
  intros [_ Hfl] [Hlo Hhi].
  pose proof tiny_small as [_ Ht]. pose proof huge_large as [_ Hh].
  assert (JS.normal x) as Hn.
  { unfold JS.normal. rewrite Rabs_right by lra. lra. }
  specialize (Hfl x Hn). rewrite (Rabs_right x) in Hfl by lra.
  unfold Rabs, Rdiv in Hfl. destruct Rcase_abs; lra.
Qed.

End RoundingFacts.

Section CounterFacts.
Import Counter.

Lemma sum_above (K a u c s c1 : R) :
  0 <= K <= 125 -> 0 < a -> 0 < u <= / 1000000 ->
  c <= K * a * (1 + 2 * (K + 1) * u) -> s <= a * (1 + u) ->
  0 <= c + s -> c1 <= (c + s) * (1 + u) ->
  c1 <= (K + 1) * a * (1 + 2 * (K + 1 + 1) * u).
Proof.
  intros [HK0 HK] Ha [Hu0 Hu] Hc Hs Hcs Hc1.
  assert ((c + s) * (1 + u)
          <= (K * a * (1 + 2 * (K + 1) * u) + a * (1 + u)) * (1 + u)) as H1.
  { apply Rmult_le_compat_r; lra. }
  assert (0 <= a * u * ((3 * K + 2) - u * (2 * K * K + 2 * K + 1))) as H2.
  { assert (0 <= 2 * K * K + 2 * K + 1 <= 31501) as [Hq0 Hq] by nra.
    assert (u * (2 * K * K + 2 * K + 1) <= / 1000000 * 31501) as Hq1.
    { apply Rmult_le_compat; lra. }
    apply Rmult_le_pos; [apply Rmult_le_pos; lra | lra]. }
  replace ((K + 1) * a * (1 + 2 * (K + 1 + 1) * u))
    with ((K * a * (1 + 2 * (K + 1) * u) + a * (1 + u)) * (1 + u)
          + a * u * ((3 * K + 2) - u * (2 * K * K + 2 * K + 1))) by ring.
  lra.
Qed.

Lemma sum_below (K a u c s c1 : R) :
  0 <= K <= 125 -> 0 < a -> 0 < u <= / 1000000 ->
  K * a * (1 - (K + 1) * u) <= c -> a * (1 - u) <= s ->
  (c + s) * (1 - u) <= c1 ->
  (K + 1) * a * (1 - (K + 1 + 1) * u) <= c1.
Proof.
  intros [HK0 HK] Ha [Hu0 Hu] Hc Hs Hc1.
  assert ((K * a * (1 - (K + 1) * u) + a * (1 - u)) * (1 - u)
          <= (c + s) * (1 - u)) as H1.
  { apply Rmult_le_compat_r; lra. }
  assert (0 <= a * u * (K + u * (K * K + K + 1))) as H2.
  { assert (0 <= K * K + K + 1) by nra.
    apply Rmult_le_pos; [apply Rmult_le_pos; lra |].
    assert (0 <= u * (K * K + K + 1)) by (apply Rmult_le_pos; lra). lra. }
  replace ((K + 1) * a * (1 - (K + 1 + 1) * u))
    with ((K * a * (1 - (K + 1) * u) + a * (1 - u)) * (1 - u)
          - a * u * (K + u * (K * K + K + 1))) by ring.
  lra.
Qed.

Lemma sum_short (K a u : R) :
  0 <= K + 1 <= 124 -> 0 < a -> 0 < u <= / 1000000 ->
  (K + 1) * a * (1 + 2 * (K + 1 + 1) * u) < 125 * a.
Proof.
  intros [HK0 HK] Ha [Hu0 Hu].
  assert (0 <= (K + 1) * a <= 124 * a) as [HX0 HX].
  { split; [apply Rmult_le_pos; lra | apply Rmult_le_compat_r; lra]. }
  assert (0 <= 2 * (K + 1 + 1) * u <= 252 * / 1000000) as [HY0 HY].
  { split; [apply Rmult_le_pos; lra | apply Rmult_le_compat; lra]. }
  assert ((K + 1) * a * (1 + 2 * (K + 1 + 1) * u)
          <= 124 * a * (1 + 252 * / 1000000)); [| lra].
  apply Rmult_le_compat; lra.
Qed.

Variable fl : R -> R.
Hypothesis fl_rounds : JS.rounds fl.
Variable t : Z.
Hypothesis t_pos : (0 < t)%Z.
Hypothesis t_max : IZR t <= 2 ^ 1000.

Lemma step_bounds :
  IZR t / 125 * (1 - / 2 ^ 53) <= step fl t <= IZR t / 125 * (1 + / 2 ^ 53).
Proof.
  unfold step, duration.
  replace (IZR t / (2000 / 16)) with (IZR t / 125) by field.
  apply rounds_bounds; [exact fl_rounds |].
  assert (1 <= IZR t) by (apply IZR_le; lia).
  pose proof huge_large as [Hh _]. lra.
Qed.

Lemma tick_counting (k : nat) (c : State) :
  counting t k c -> (k <= 125)%nat ->
  ((k < 124)%nat -> counting t (S k) (tick fl c)) /\
  ((k = 124)%nat ->
   counting t 125 (tick fl c) \/ tick fl c = counted t) /\
  ((k = 125)%nat -> tick fl c = counted t).
Proof.
  intros (Htg & Htm & Hlo & Hhi & _) Hk.
  pose proof roundoff_small as [Hu0 Hu].
  pose proof step_bounds as [Hslo Hshi].
  pose proof huge_large as [Hh _].
  assert (1 <= IZR t) as Ht1 by (apply IZR_le; lia).
  set (u := / 2 ^ 53) in *. set (a := IZR t / 125) in *.
  set (s := step fl t) in *. set (K := INR k) in *.
  assert (0 <= K <= 125) as HK.
  { split; [apply pos_INR |].
    replace 125 with (INR 125) by (simpl; lra). by apply le_INR. }
  assert (0 < a) as Ha by (unfold a; lra).
  unfold Rdiv in Hlo, Hhi. fold u in Hlo, Hhi.
  assert (0 <= K * a) as HKa by (apply Rmult_le_pos; lra).
  assert (0 <= current c) as Hc0.
  { assert (0 <= K * a * (1 - (K + 1) * u)); [| lra].
    apply Rmult_le_pos; [done |].
    assert ((K + 1) * u <= 126 * / 1000000); [| lra].
    apply Rmult_le_compat; lra. }
  assert (current c <= 126 * a) as Hc1.
  { assert (K * a * (1 + 2 * (K + 1) * u)
            <= K * a * (1 + 252 * / 1000000)) as H1.
    { apply Rmult_le_compat_l; [done |].
      assert (2 * (K + 1) * u <= 252 * / 1000000); [| lra].
      apply Rmult_le_compat; lra. }
    assert (K * a <= 125 * a) by (apply Rmult_le_compat_r; lra).
    lra. }
  assert (0 <= a * u <= a * / 1000000) as Hau.
  { split; [apply Rmult_le_pos; lra | apply Rmult_le_compat_l; lra]. }
  assert (/ 128 <= current c + s <= 4 * 2 ^ 1000) as Hn.
  { clear Hlo Hhi. split.
    - assert (/ 125 <= a) by (unfold a; lra). lra.
    - assert (a <= 2 ^ 1000 / 125) by (unfold a; lra). lra. }
  pose proof (rounds_bounds fl (current c + s) fl_rounds Hn) as [Hrlo Hrhi].
  fold u in Hrlo, Hrhi.
  set (c1 := fl (current c + s)) in *.
  assert (c1 <= (K + 1) * a * (1 + 2 * (K + 1 + 1) * u)) as Hup.
  { apply (sum_above K a u (current c) s c1); try done; lra. }
  assert ((K + 1) * a * (1 - (K + 1 + 1) * u) <= c1) as Hdown.
  { apply (sum_below K a u (current c) s c1); try done; lra. }
  assert (tick fl c
          = if decide (c1 >= IZR t) then counted t
            else {| target := t; current := c1; timer := true;
                    textContent := Some (JS.Math_floor c1) |}) as Htick.
  { unfold tick. rewrite Htm, Htg. fold s c1.
    case_decide; [| done]. unfold counted. by rewrite floor_IZR. }
  assert (c1 < IZR t ->
          counting t (S k)
            {| target := t; current := c1; timer := true;
               textContent := Some (JS.Math_floor c1) |}) as Hnext.
  { intros Hlt. unfold counting. cbn [target timer current textContent].
    rewrite S_INR. fold K. unfold Rdiv. fold u.
    change (IZR t * / 125) with a.
    split; [done |]. split; [done |].
    split; [lra |]. split; [lra |]. done. }
  assert (IZR t = 125 * a) as Hta by (unfold a; field).
  rewrite Htick. split; [| split].
  - intros Hlt. assert (K + 1 <= 124) as HK1.
    { assert (INR 124 = 124) as H124 by (simpl; lra).
      pose proof (le_INR (S k) 124 ltac:(lia)) as Hle.
      rewrite S_INR, H124 in Hle. exact Hle. }
    pose proof (sum_short K a u ltac:(lra) Ha (conj Hu0 Hu)).
    rewrite decide_False; [apply Hnext |]; lra.
  - intros ->. case_decide; [by right | left]. apply Hnext. lra.
  - intros ->. rewrite decide_True; [done |].
    assert (K = 125) as HK125 by (unfold K; simpl; lra).
    rewrite HK125 in Hdown.
    assert (127 * u <= 127 * / 1000000) by lra.
    assert (126 * a * (1 - 127 * / 1000000) <= 126 * a * (1 - 127 * u)).
    { apply Rmult_le_compat_l; lra. }
    replace (125 + 1 + 1) with 127 in Hdown by lra.
    replace (125 + 1) with 126 in Hdown by lra. lra.
Qed.

End CounterFacts.

Section CounterRuns.
Import Counter.

Lemma rounds_bounds_neg (fl : R -> R) (x : R) :
  JS.rounds fl -> - (4 * 2 ^ 1000) <= x <= - / 128 ->
  x * (1 + / 2 ^ 53) <= fl x <= x * (1 - / 2 ^ 53).
Proof.
  intros [_ Hfl] [Hlo Hhi].
  pose proof tiny_small as [_ Ht]. pose proof huge_large as [_ Hh].
  assert (JS.normal x) as Hn.
  { unfold JS.normal. rewrite Rabs_left by lra. lra. }
  specialize (Hfl x Hn). rewrite (Rabs_left x) in Hfl by lra.
  unfold Rabs, Rdiv in Hfl. destruct Rcase_abs; lra.
Qed.

Lemma iter_one {A} (f : A -> A) (x : A) : Nat.iter 1 f x = f x.
Proof. reflexivity. Qed.

Lemma counted_stays (fl : R -> R) (t : Z) (n : nat) :
  Nat.iter n (tick fl) (counted t) = counted t.
Proof. induction n as [| n IH]; [done |]. by rewrite Nat.iter_succ, IH. Qed.

Lemma counter_counting (fl : R -> R) (t : Z) (k : nat) :
  JS.rounds fl -> (0 < t)%Z -> IZR t <= 2 ^ 1000 -> (k <= 124)%nat ->
  counting t k (Nat.iter k (tick fl) (animateCounter t)).
Proof.
  intros Hfl Ht Hmax. induction k as [| k IH]; intros Hk.
  - unfold counting.
    change (Nat.iter 0 (tick fl) (animateCounter t)) with (animateCounter t).
    cbn [animateCounter target timer current textContent INR].
    split; [reflexivity |]. split; [reflexivity |].
    split; [lra |]. split; [lra |]. intros H. lia.
  - rewrite Nat.iter_succ.
    assert (k <= 124)%nat as Hk1 by lia.
    assert (k <= 125)%nat as Hk2 by lia.
    pose proof (IH Hk1) as IH1.
    pose proof (tick_counting fl Hfl t Ht Hmax k _ IH1 Hk2) as (Hnext & _).
    apply Hnext. lia.
Qed.

Lemma counter_positive (fl : R -> R) (t : Z) :
  JS.rounds fl -> (0 < t)%Z -> IZR t <= 2 ^ 1000 ->
  (counting t 125 (Nat.iter 125 (tick fl) (animateCounter t)) \/
   Nat.iter 125 (tick fl) (animateCounter t) = counted t) /\
  forall k, (126 <= k)%nat ->
    Nat.iter k (tick fl) (animateCounter t) = counted t.
Proof.
  intros Hfl Ht Hmax.
  assert (124 <= 125)%nat as Hle by lia.
  pose proof (counter_counting fl t 124 Hfl Ht Hmax (le_n 124)) as H124.
  pose proof (tick_counting fl Hfl t Ht Hmax 124 _ H124 Hle)
    as (_ & H125 & _).
  specialize (H125 eq_refl).
  rewrite <- (Nat.iter_succ 124 (tick fl) (animateCounter t)) in H125.
  split; [exact H125 |].
  intros k Hk. replace k with ((k - 126) + 1 + 125)%nat by lia.
  rewrite (Nat.iter_add (k - 126 + 1) 125).
  remember (Nat.iter 125 (tick fl) (animateCounter t)) as c eqn:Hceq.
  clear Hceq. rewrite (Nat.iter_add (k - 126) 1).
  rewrite (iter_one (tick fl) c).
  assert (tick fl c = counted t) as ->; [| apply counted_stays].
  destruct H125 as [Hc | ->]; [| done].
  pose proof (tick_counting fl Hfl t Ht Hmax 125 c Hc (le_n 125))
    as (_ & _ & Hend).
  by apply Hend.
Qed.

Lemma counter_not_positive (fl : R -> R) (t : Z) :
  JS.rounds fl -> (t <= 0)%Z -> - (2 ^ 1000) <= IZR t ->
  tick fl (animateCounter t) = counted t.
Proof.
  intros Hfl Ht Hmin.
  assert (tick fl (animateCounter t)
          = if decide (fl (0 + step fl t) >= IZR t) then counted t
            else {| target := t; current := fl (0 + step fl t);
                    timer := true;
                    textContent :=
                      Some (JS.Math_floor (fl (0 + step fl t))) |}) as ->.
  { unfold tick, animateCounter. cbn [timer target current].
    case_decide; [| done]. unfold counted. by rewrite floor_IZR. }
  rewrite decide_True; [done |].
  rewrite Rplus_0_l. unfold step, duration.
  replace (IZR t / (2000 / 16)) with (IZR t / 125) by field.
  destruct (decide (t = 0%Z)) as [-> | Hne].
  - replace (0 / 125) with 0 by field. destruct Hfl as [H0 _].
    rewrite !H0. lra.
  - assert (IZR t <= -1) as Ht1 by (apply IZR_le; lia).
    pose proof roundoff_small as [Hu0 Hu].
    pose proof huge_large as [Hh _].
    set (u := / 2 ^ 53) in *. set (x := IZR t / 125).
    assert (x <= - / 125) as Hx by (unfold x; lra).
    assert (- (2 ^ 1000) / 125 <= x) as Hx' by (unfold x; lra).
    destruct (rounds_bounds_neg fl x Hfl) as [Hslo Hshi]; [lra |].
    fold u in Hslo, Hshi.
    assert (0 <= - x * u <= - x * / 1000000) as [Hxu0 Hxu].
    { split; [apply Rmult_le_pos; lra | apply Rmult_le_compat_l; lra]. }
    destruct (rounds_bounds_neg fl (fl x) Hfl) as [Hclo _]; [lra |].
    fold u in Hclo.
    assert (0 <= - fl x * u <= - fl x * / 1000000) as [Hfu0 Hfu].
    { split; [apply Rmult_le_pos; lra | apply Rmult_le_compat_l; lra]. }
    unfold x in *. lra.
Qed.

(** X22.  The counter of [animateCounter] in double arithmetic, for
    any rounding [fl] with a relative error of at most 2^-53 and a
    target [t] of at most 2^1000 in size.  For [t > 0]: after
    [0 < k < 125] runs the interval is still set, the running value
    differs from [k * t / 125] by at most [t * 252 / 2^53], and the
    element shows its integer part, which is below the target; from
    the 126th run on the interval is cleared and the element shows the
    target exactly; the 125th run either clears it or shows a number
    below the target once more, depending on the rounding.  For
    [t <= 0] the first run clears the interval and shows the target. *)
Theorem X22_counter_reaches_target (fl : R -> R) (t : Z) (k : nat) :
  JS.rounds fl ->
  let c := Nat.iter k (tick fl) (animateCounter t) in
  ((0 < t)%Z -> IZR t <= 2 ^ 1000 ->
   ((0 < k < 125)%nat ->
    timer c = true /\
    Rabs (current c - INR k * IZR t / 125) <= IZR t * 252 / 2 ^ 53 /\
    exists shown,
      textContent c = Some shown /\ shown = JS.Math_floor (current c) /\
      (0 <= shown < t)%Z) /\
   (k = 125%nat ->
    (timer c = false /\ current c = IZR t /\ textContent c = Some t) \/
    (timer c = true /\
     exists shown, textContent c = Some shown /\ (0 <= shown < t)%Z)) /\
   ((126 <= k)%nat ->
    timer c = false /\ current c = IZR t /\ textContent c = Some t)) /\
  ((t <= 0)%Z -> - (2 ^ 1000) <= IZR t -> (1 <= k)%nat ->
   timer c = false /\ current c = IZR t /\ textContent c = Some t).
Proof.
  intros Hfl. cbv zeta.
  assert (forall c0 : State, (0 < t)%Z -> 0 <= current c0 < IZR t ->
            (0 <= JS.Math_floor (current c0) < t)%Z) as Hshown.
  { intros c0 Ht [H0 Hlt]. split.
    - apply (floor_range (current c0) t). lra.
    - by apply floor_below. }
  split.
  - intros Ht Hmax. split; [| split].
    + intros [Hk0 Hk].
      assert (k <= 124)%nat as Hk124 by lia.
      destruct (counter_counting fl t k Hfl Ht Hmax Hk124)
        as (_ & Htm & Hlo & Hhi & Hrun).
      remember (Nat.iter k (tick fl) (animateCounter t)) as c eqn:Hceq.
      clear Hceq. destruct (Hrun Hk0) as [Hlt Htx].
      pose proof roundoff_small as [Hu0 Hu].
      assert (1 <= IZR t) as Ht1 by (apply IZR_le; lia).
      assert (1 <= INR k <= 124) as [HK1 HK].
      { assert (INR 124 = 124) as H124 by (simpl; lra).
        assert (1 <= k)%nat as Hk1 by lia.
        pose proof (le_INR 1 k Hk1) as H1.
        pose proof (le_INR k 124 Hk124) as H2.
        rewrite H124 in H2. simpl in H1. lra. }
      set (u := / 2 ^ 53) in *. set (K := INR k) in *.
      set (a := IZR t / 125) in *.
      unfold Rdiv in Hlo, Hhi. fold u in Hlo, Hhi.
      change (IZR t * / 125) with a in Hlo, Hhi.
      assert (0 < a) as Ha by (unfold a; lra).
      assert (0 <= K * a <= 125 * a) as [HKa0 HKa].
      { split; [apply Rmult_le_pos; lra | apply Rmult_le_compat_r; lra]. }
      assert (1 * a <= K * a) as HKa1 by (apply Rmult_le_compat_r; lra).
      assert (0 <= (K + 1) * u <= 126 * u) as [HKu0 HKu].
      { split; [apply Rmult_le_pos; lra | apply Rmult_le_compat_r; lra]. }
      assert (K * a * ((K + 1) * u) <= 125 * a * (126 * u)) as Hprod.
      { apply Rmult_le_compat; lra. }
      assert (0 <= K * a * ((K + 1) * u)) as Hprod0.
      { apply Rmult_le_pos; lra. }
      assert (0 <= current c) as Hc0.
      { assert (125 * a * (126 * u) <= 125 * a * (126 * / 1000000)).
        { apply Rmult_le_compat_l; lra. }
        lra. }
      split; [done |]. split.
      * assert (K * IZR t / 125 = K * a) as -> by (unfold a; field).
        replace (IZR t * 252 / 2 ^ 53) with (125 * a * (252 * u))
          by (unfold a, u; field).
        assert (0 <= a * u) by (apply Rmult_le_pos; lra).
        unfold Rabs. destruct Rcase_abs; lra.
      * eexists. split; [exact Htx |]. split; [done |].
        apply Hshown; [done | lra].
    + intros Hk. rewrite Hk.
      destruct (counter_positive fl t Hfl Ht Hmax) as [[Hc | ->] _].
      * right. destruct Hc as (_ & Htm & Hlo & _ & Hrun).
        assert (0 < 125)%nat as Hpos by lia.
        destruct (Hrun Hpos) as [Hlt Htx].
        split; [done |]. eexists. split; [exact Htx |].
        apply Hshown; [done |]. split; [| done].
        pose proof roundoff_small as [Hu0 Hu].
        assert (1 <= IZR t) as Ht1 by (apply IZR_le; lia).
        assert (INR 125 = 125) as H125 by (simpl; lra).
        rewrite H125 in Hlo.
        assert (0 <= 125 * (IZR t / 125) * (1 - (125 + 1) / 2 ^ 53));
          [| lra].
        apply Rmult_le_pos; [lra |]. unfold Rdiv. lra.
      * by left.
    + intros Hk.
      rewrite (proj2 (counter_positive fl t Hfl Ht Hmax) k Hk). done.
  - intros Ht Hmin Hk.
    replace k with ((k - 1) + 1)%nat by lia. rewrite Nat.iter_add.
    rewrite (iter_one (tick fl) (animateCounter t)).
    rewrite (counter_not_positive fl t Hfl Ht Hmin), counted_stays. done.
Qed.

Lemma rounds_exact : JS.rounds (fun x => x).
Proof.
  split; [done |]. intros x _.
  replace (x - x) with 0 by ring. rewrite Rabs_R0.
  pose proof roundoff_small as [Hu0 _].
  unfold Rdiv. apply Rmult_le_pos; [apply Rabs_pos | lra].
Qed.

Lemma X22_counter_reaches_target_witness :
  JS.rounds (fun x => x) /\ (0 < 250)%Z /\ IZR 250 <= 2 ^ 1000 /\
  timer (Nat.iter 126 (tick (fun x => x)) (animateCounter 250)) = false /\
  textContent (Nat.iter 126 (tick (fun x => x)) (animateCounter 250))
  = Some 250%Z.
Proof.
  assert (IZR 250 <= 2 ^ 1000) as Hmax.
  { apply Rle_trans with (2 ^ 8); [simpl; lra |].
    apply Rle_pow; [lra | lia]. }
  split; [exact rounds_exact |]. split; [lia |]. split; [exact Hmax |].
  assert (0 < 250)%Z as Hpos by lia.
  destruct (proj1 (X22_counter_reaches_target (fun x => x) 250 126 rounds_exact) Hpos Hmax)
    as (_ & _ & Hend).
  destruct (Hend (le_n 126)) as (Htm & _ & Htx).
  split; [exact Htm | exact Htx].
Defined.

End CounterRuns.

(** ** The loading manager and the loading simulation *)

Section LoadingFacts.
Import Loading.

Lemma updateProgress_stage (t : R) (m : Manager) :
  loading_stage m -> loading_stage (updateProgress t m).
Proof.
  intros [Hp Hs]. unfold updateProgress. cbv zeta.
  assert (JS.Math_min t 100 <= 100) as Hmin by apply Rmin_r.
  destruct (isComplete m) eqn:Hc; cbn [isComplete negb].
  - rewrite andb_false_r. split; [done |]. cbn.
    destruct Hs as [(? & _) | Hs]; [congruence |]. right. exact Hs.
  - rewrite andb_true_r.
    destruct Hs as [(_ & Ht & Hi & Ho) | [(? & _) | [(? & _) | [(? & _) | (? & _)]]]];
      try congruence.
    case_bool_decide.
    + split; [done |]. right. left. cbn. rewrite Ht. done.
    + split; [done |]. left. done.
Qed.

Lemma runTimeout_stage (i : nat) (m : Manager) :
  loading_stage m -> loading_stage (runTimeout i m).
Proof.
  intros [Hp Hs]. unfold runTimeout.
  destruct (timeouts m !! i) as [t |] eqn:Hi; [| exact (conj Hp Hs)].
  destruct Hs as [(_ & Ht & _) | [(Hc & Ht & Hn & Ho) | [(_ & Ht & _) |
                 [(Hc & Ht & Hn & Ho & Hscr & Hl) | (_ & Ht & _)]]]];
    rewrite Ht in Hi; try done.
  - destruct i as [| i]; [| done]. injection Hi as <-.
    unfold fire. cbn [loadingScreen].
    destruct (loadingScreen m) eqn:Hscr.
    + split; [done |]. do 3 right. left. cbn. rewrite Ht. done.
    + split; [done |]. do 2 right. left. cbn. rewrite Ht. done.
  - destruct i as [| i]; [| done]. injection Hi as <-.
    unfold fire. split; [done |]. do 4 right. cbn. rewrite Ht, Hn, Hc, Hscr, Hl. done.
Qed.

(** X23.  Whatever calls of [updateProgress] and whatever timers
    follow the construction of the loading manager, in any order: the
    progress never exceeds 100, [complete()] takes effect at most once,
    and [App.init()] is called at most once; it is called only after
    the page was revealed, and never when the page has no
    [#loading-screen] element, in which case scrolling stays locked.
    With that element, a progress of 100 or more followed by the two
    timers starts the application. *)
Theorem X23_loading_completes_once
    (screen bar text : bool) (events : list Event) (t : R) :
  let m := foldl handle (newManager screen bar text) events in
  progress m <= 100 /\
  (length (timeouts m) + appInits m <= 1)%nat /\
  (appInits m = 1%nat ->
   isComplete m = true /\ isLoaded m = true /\ screenHidden m = true /\
   bodyOverflow m = "auto") /\
  (screen = false -> appInits m = 0%nat /\ bodyOverflow m = "hidden") /\
  (100 <= t ->
   appInits (foldl handle (newManager true bar text)
               [Progress t; Timer 0; Timer 0]) = 1%nat).
Proof.
  intros m.
  assert (loading_stage m /\ loadingScreen m = screen) as [[Hp Hs] Hscr].
  { subst m. induction events as [| e events IH] using rev_ind.
    - split; [| done]. split; [simpl; lra |]. left. done.
    - rewrite foldl_app. simpl. destruct IH as [IH Hscr]. destruct e as [t' | i].
      + split; [by apply updateProgress_stage |].
        simpl. unfold updateProgress. cbv zeta. by case_match.
      + split; [by apply runTimeout_stage |].
        simpl. unfold runTimeout. destruct (timeouts _ !! i) as [[] |]; [| | done].
        * unfold fire. cbn. by case_match.
        * done. }
  split; [done |].
  split; [| split; [| split]].
  - destruct Hs as [(_ & -> & -> & _) | [(_ & -> & -> & _) | [(_ & -> & -> & _) |
                   [(_ & -> & -> & _) | (_ & -> & -> & _)]]]]; simpl; lia.
  - intros Hone.
    destruct Hs as [(_ & _ & Hn & _) | [(_ & _ & Hn & _) | [(_ & _ & Hn & _) |
                   [(_ & _ & Hn & _) | (? & _ & _ & ? & _ & ? & ?)]]]];
      try (rewrite Hn in Hone; done).
    done.
  - intros ->.
    destruct Hs as [(_ & _ & ? & ?) | [(_ & _ & ? & ?) | [(_ & _ & ? & ? & _) |
                   [(_ & _ & _ & _ & ? & _) | (_ & _ & _ & _ & ? & _)]]]];
      try done; congruence.
  - intros Ht. simpl. unfold updateProgress. cbv zeta. cbn [isComplete newManager negb].
    rewrite bool_decide_eq_true_2.
    + done.
    + unfold JS.Math_min, Rmin. destruct Rle_dec; lra.
Qed.

Lemma updateProgress_progress (t : R) (m : Manager) :
  progress (updateProgress t m) = JS.Math_min t 100.
Proof. unfold updateProgress. cbv zeta. by case_match. Qed.

Lemma updateProgress_isComplete (t : R) (m : Manager) :
  isComplete (updateProgress t m)
  = isComplete m || bool_decide (JS.Math_min t 100 >= 100).
Proof.
  unfold updateProgress. cbv zeta. cbn [isComplete].
  destruct (isComplete m), (bool_decide (JS.Math_min t 100 >= 100)); done.
Qed.

Lemma simulate_step (g0 : Globals) (k : nat) (s : Simulation) (g : Globals) :
  simulated g0 k s g ->
  if loadingInterval s
  then simulated g0 (S k) (simulate s g).1 (simulate s g).2
  else simulate s g = (s, g).
Proof.
  intros (Hg & Hu & H20 & Hk & Hi).
  unfold simulate. destruct (loadingInterval s) eqn:Hint; [| done].
  destruct Hi as [Hlt Hc].
  unfold mbind, Script_bind, Math_random, mret, Script_ret. cbn [fst snd].
  set (r := randomSource g (randomUsed g)).
  assert (0 <= r < 1) as [Hr0 Hr1] by apply Hg.
  set (p := sim_progress s + (r * 15 + 5)).
  assert (5 * INR (S k) <= p < 20 * INR (S k)) as Hp.
  { rewrite S_INR. unfold p.
    destruct Hk as [[-> ->] | [Hk _]]; [simpl |]; lra. }
  split; [exact Hg |]. split; [simpl; lia |].
  split.
  { destruct Hk as [[-> _] | [[Hk _] _]]; [lia |].
    assert (INR k < 20) as Hlt20 by lra.
    assert (k < 20)%nat; [| lia]. apply INR_lt. simpl. lra. }
  cbn [sim_progress loadingInterval loadingManager].
  assert (JS.Math_min (JS.Math_min p 100) 100 = Rmin p 100) as Hmin.
  { unfold JS.Math_min, Rmin. repeat destruct Rle_dec; lra. }
  split.
  - right. split; [done |]. by rewrite updateProgress_progress.
  - rewrite updateProgress_isComplete, Hc, Hmin. cbn [orb].
    assert (Rmin p 100 >= 100 <-> p >= 100) as Hiff.
    { unfold Rmin. destruct Rle_dec; lra. }
    destruct (bool_decide (p >= 100)) eqn:Hb; cbn [negb].
    + apply bool_decide_eq_true_1 in Hb.
      rewrite bool_decide_eq_true_2 by (by apply Hiff). split; [lra | done].
    + apply bool_decide_eq_false_1 in Hb.
      rewrite bool_decide_eq_false_2 by (by rewrite Hiff). split; [lra | done].
Qed.

Lemma simulation_runs (g0 : Globals) (n k : nat) (s : Simulation) (g : Globals) :
  simulated g0 k s g ->
  exists k',
    (k <= k' <= k + n)%nat /\
    simulated g0 k' (simulation n s g).1 (simulation n s g).2 /\
    (loadingInterval (simulation n s g).1 = true -> k' = (k + n)%nat).
Proof.
  revert k s g. induction n as [| n IH]; intros k s g Hs.
  - exists k. simpl. split; [lia |]. split; [done | intros; lia].
  - pose proof (simulate_step g0 k s g Hs) as Hstep.
    cbn [simulation]. unfold mbind, Script_bind.
    destruct (loadingInterval s) eqn:Hint.
    + destruct (simulate s g) as [s1 g1]. cbn [fst snd] in Hstep.
      destruct (IH (S k) s1 g1 Hstep) as (k' & Hk' & Hs' & Hrun).
      exists k'. split; [lia |]. split; [done |]. intros Hr. rewrite Hrun by done. lia.
    + rewrite Hstep.
      destruct (IH k s g Hs) as (k' & Hk' & Hs' & Hrun).
      exists k'. split; [lia |]. split; [done |]. intros Hr.
      assert (loadingInterval (simulation n s g).1 = false); [| congruence].
      clear -Hint. revert g. induction n as [| n IHn]; intros g; [done |].
      cbn [simulation]. unfold mbind, Script_bind, simulate. rewrite Hint.
      unfold mret, Script_ret. apply IHn.
Qed.

(** X24.  The loading simulation of the [DOMContentLoaded] handler,
    with [Math.random()] in [[0, 1)]: each run of the interval adds
    between 5 and 20 to the progress and shows the smaller of the sum
    and 100, so the interval is still set after 5 runs and has been
    cleared, with the loading manager complete at 100, after 20 runs
    (4 seconds) at the latest; a cleared interval draws no further
    random number. *)
Theorem X24_loading_simulation_ends (m : Manager) (g : Globals) (n : nat) :
  unit_source g -> isComplete m = false ->
  let s := (simulation n (newSimulation m) g).1 in
  let g' := (simulation n (newSimulation m) g).2 in
  ((n <= 5)%nat ->
   loadingInterval s = true /\ isComplete (loadingManager s) = false /\
   randomUsed g' = (randomUsed g + n)%nat) /\
  ((20 <= n)%nat ->
   loadingInterval s = false /\ isComplete (loadingManager s) = true /\
   progress (loadingManager s) = 100 /\
   (randomUsed g + 6 <= randomUsed g' <= randomUsed g + 20)%nat) /\
  ((0 < n)%nat ->
   progress (loadingManager s) = Rmin (sim_progress s) 100 /\
   5 <= sim_progress s).
Proof.
  intros Hg Hm s g'.
  assert (simulated g 0 (newSimulation m) g) as H0.
  { split; [done |]. split; [lia |]. split; [lia |]. split; [by left |].
    simpl. split; [lra | done]. }
  destruct (simulation_runs g n 0 _ g H0)
    as (k & Hk & (Hg' & Hu & H20 & Hp & Hi) & Hrun).
  fold s in Hp, Hi, Hrun. fold g' in Hg', Hu.
  assert (INR k <= INR n) as Hkn by (apply le_INR; lia).
  split; [| split].
  - intros Hn. assert (INR n <= 5) as Hn5.
    { replace 5 with (INR 5) by (simpl; lra). by apply le_INR. }
    destruct (loadingInterval s) eqn:Hint.
    + destruct Hi as [_ Hc]. rewrite Hu, Hrun by done. done.
    + destruct Hi as [Hge _]. destruct Hp as [[_ Hz] | [Hr _]]; lra.
  - intros Hn. assert (20 <= INR n) as Hn20.
    { replace 20 with (INR 20) by (simpl; lra). by apply le_INR. }
    destruct (loadingInterval s) eqn:Hint.
    + destruct Hi as [Hlt _]. rewrite Hrun in Hp by done. simpl in Hp.
      destruct Hp as [[Hz _] | [Hr _]]; [lia | lra].
    + destruct Hi as [Hge Hc].
      destruct Hp as [[_ Hz] | [Hr Hpr]]; [lra |].
      split; [done |]. split; [done |]. split.
      * rewrite Hpr. unfold Rmin. destruct Rle_dec; lra.
      * rewrite Hu. split; [| lia].
        assert (5 < INR k) as H5 by lra.
        assert (5 < k)%nat; [| lia].
        apply INR_lt. simpl. lra.
  - intros Hn.
    destruct (loadingInterval s) eqn:Hint.
    + rewrite Hrun in Hp by done. simpl in Hp.
      destruct Hp as [[Hz _] | [Hr Hpr]]; [lia |]. split; [done |].
      assert (1 <= INR n); [| lra].
      replace 1 with (INR 1) by done. apply le_INR. lia.
    + destruct Hi as [Hge _].
      destruct Hp as [[_ Hz] | [Hr Hpr]]; [lra |]. split; [done | lra].
Qed.

Lemma X24_loading_simulation_ends_witness :
  unit_source Example.page /\
  isComplete (newManager true true true) = false /\
  loadingInterval
    (simulation 20 (newSimulation (newManager true true true)) Example.page).1
  = false /\
  progress
    (loadingManager
       (simulation 20 (newSimulation (newManager true true true))
          Example.page).1)
  = 100.
Proof.
  split; [exact unit_source_page |]. split; [reflexivity |].
  destruct (X24_loading_simulation_ends (newManager true true true)
              Example.page 20 unit_source_page eq_refl)
    as (_ & Hend & _).
  destruct (Hend (le_n 20)) as (Hint & _ & Hp & _).
  split; [exact Hint | exact Hp].
Defined.

End LoadingFacts.

(** ** The navigation manager *)

Section NavigationFacts.
Import Navigation.

(** X25.  [toggleMenu], [closeMenu] and the click on a navigation link
    of [part_000] keep the menu flag, the ['active'] classes of menu and
    toggle button and the scroll lock of the page in step; two toggles
    restore the state, and [closeMenu] leaves the menu closed however
    often it is called. *)
Theorem X25_menu_stays_in_step (n : Nav) (targetId : string) :
  menu_in_step n ->
  menu_in_step (toggleMenu n) /\ menu_in_step (closeMenu n) /\
  menu_in_step (clickLink targetId n) /\
  isMenuOpen (clickLink targetId n) = false /\
  toggleMenu (toggleMenu n) = n /\
  closeMenu (closeMenu n) = closeMenu n.
Proof.
  intros (Hm & Ht & Ho).
  assert (menu_in_step (toggleMenu n)) as H1.
  { unfold menu_in_step, toggleMenu. cbn. split; [| split; [| done]].
    - intros a Ha. destruct (navMenu n) as [b |]; [| done].
      injection Ha as <-. by rewrite (Hm b).
    - intros a Ha. destruct (navToggle n) as [b |]; [| done].
      injection Ha as <-. by rewrite (Ht b). }
  assert (forall n0, menu_in_step (closeMenu n0)) as H2.
  { intros n0. unfold menu_in_step, closeMenu. cbn. split; [| split; [| done]].
    - intros a Ha. by destruct (navMenu n0); simplify_eq/=.
    - intros a Ha. by destruct (navToggle n0); simplify_eq/=. }
  split_and!; [done | done | apply H2 | done | |].
  - destruct n as [ss ls m t c o b st ac]. unfold toggleMenu. cbn in *.
    rewrite negb_involutive. f_equal.
    + by destruct m as [[] |].
    + by destruct t as [[] |].
    + rewrite Ho. by destruct o.
  - unfold closeMenu. cbn. f_equal.
    + by destruct (navMenu n).
    + by destruct (navToggle n).
Qed.

(** X26.  The global function [scrollToSection] of [part_000] closes an
    open menu on the elements only: the flag [isMenuOpen] of the
    navigation manager stays set.  The next [toggleMenu] therefore
    clears the flag while it shows the menu again, with scrolling
    unlocked. *)
Theorem X26_global_scroll_leaves_menu_flag (n : Nav) (sectionId : string) :
  menu_in_step n -> isMenuOpen n = true -> is_Some (navMenu n) ->
  is_Some (getSection n sectionId) ->
  let n1 := globalScrollToSection sectionId n in
  navMenu n1 = Some false /\ bodyOverflow n1 = "auto" /\
  isMenuOpen n1 = true /\ ~ menu_in_step n1 /\
  navMenu (toggleMenu n1) = Some true /\
  isMenuOpen (toggleMenu n1) = false /\
  bodyOverflow (toggleMenu n1) = "auto".
Proof.
  intros (Hm & Ht & Ho) Hopen [a Ha] [s Hs] n1.
  assert (navMenu n = Some true) as Hshown.
  { rewrite Ha. f_equal. rewrite (Hm a Ha). done. }
  assert (n1 = {| sections := sections n; navLinks := navLinks n;
                  navMenu := Some false;
                  navToggle := (fun _ => false) <$> navToggle n;
                  currentSection := currentSection n;
                  isMenuOpen := isMenuOpen n; bodyOverflow := "auto";
                  scrollTarget := Some (offsetTop s - 80);
                  appCurrentSection := sectionId |}) as ->.
  { unfold n1, globalScrollToSection. rewrite Hs. cbv zeta.
    by rewrite bool_decide_eq_true_2. }
  cbn. rewrite Hopen. split_and!; try done.
  intros (Hm' & _). cbn in Hm'. by specialize (Hm' false eq_refl).
Qed.

Lemma locate_snoc (scrollY : R) (ss : list Section_) (s : Section_) :
  locate scrollY (ss ++ [s])
  = if bool_decide (scrollY >= offsetTop s - 150)
       && bool_decide (scrollY < offsetTop s - 150 + offsetHeight s)
    then sec_id s else locate scrollY ss.
Proof. unfold locate. by rewrite foldl_app. Qed.

Lemma locate_spec (scrollY : R) (ss : list Section_) :
  (locate scrollY ss = "home" /\ forall s, s ∈ ss -> ~ holds scrollY s) \/
  (exists i s,
     ss !! i = Some s /\ holds scrollY s /\ locate scrollY ss = sec_id s /\
     forall j s', (i < j)%nat -> ss !! j = Some s' -> ~ holds scrollY s').
Proof.
  induction ss as [| s ss IH] using rev_ind.
  - left. split; [done |]. intros s Hs. by apply elem_of_nil in Hs.
  - rewrite locate_snoc.
    destruct (bool_decide (scrollY >= offsetTop s - 150)) eqn:H1;
      [destruct (bool_decide (scrollY < offsetTop s - 150 + offsetHeight s)) eqn:H2 |];
      cbn [andb].
    + right. exists (length ss), s.
      apply bool_decide_eq_true_1 in H1, H2.
      split; [by rewrite lookup_app_r, Nat.sub_diag by lia |].
      split; [unfold holds; lra |]. split; [done |].
      intros j s' Hj Hs'. apply lookup_lt_Some in Hs'.
      rewrite length_app in Hs'. simpl in Hs'. lia.
    + apply bool_decide_eq_false_1 in H2.
      assert (~ holds scrollY s) as Hn by (unfold holds; lra).
      destruct IH as [[Hh Hall] | (i & s0 & Hi & Hh & Hl & Hlast)].
      * left. split; [done |]. intros s' Hs'.
        apply elem_of_app in Hs' as [Hs' | Hs']; [by apply Hall |].
        apply list_elem_of_singleton in Hs'. by subst.
      * right. exists i, s0. split; [by apply lookup_app_l_Some |].
        split; [done |]. split; [done |].
        intros j s' Hj Hs'.
        destruct (decide (j < length ss)%nat) as [Hlt | Hge].
        -- rewrite lookup_app_l in Hs' by done. by apply (Hlast j).
        -- rewrite lookup_app_r in Hs' by lia.
           destruct (j - length ss)%nat; [| done]. by simplify_eq/=.
    + apply bool_decide_eq_false_1 in H1.
      assert (~ holds scrollY s) as Hn by (unfold holds; lra).
      destruct IH as [[Hh Hall] | (i & s0 & Hi & Hh & Hl & Hlast)].
      * left. split; [done |]. intros s' Hs'.
        apply elem_of_app in Hs' as [Hs' | Hs']; [by apply Hall |].
        apply list_elem_of_singleton in Hs'. by subst.
      * right. exists i, s0. split; [by apply lookup_app_l_Some |].
        split; [done |]. split; [done |].
        intros j s' Hj Hs'.
        destruct (decide (j < length ss)%nat) as [Hlt | Hge].
        -- rewrite lookup_app_l in Hs' by done. by apply (Hlast j).
        -- rewrite lookup_app_r in Hs' by lia.
           destruct (j - length ss)%nat; [| done]. by simplify_eq/=.
Qed.

(** X27.  [updateActiveLink] finds the last section, in document
    order, whose band [[offsetTop - 150, offsetTop - 150 + offsetHeight)]
    holds the scroll position, and ['home'] when no band holds it.
    When that is the section the manager already has, nothing is
    written, the links included; otherwise the manager and the
    application state take it over and exactly the links whose [href]
    is ['#'] followed by its id carry the class ['active']. *)
Theorem X27_active_link_follows_scroll (scrollY : R) (n : Nav) :
  let found := locate scrollY (sections n) in
  let n' := updateActiveLink scrollY n in
  ((found = "home" /\ forall s, s ∈ sections n -> ~ holds scrollY s) \/
   (exists i s,
      sections n !! i = Some s /\ holds scrollY s /\ found = sec_id s /\
      forall j s', (i < j)%nat -> sections n !! j = Some s' ->
                   ~ holds scrollY s')) /\
  currentSection n' = found /\
  (found = currentSection n -> n' = n) /\
  (found <> currentSection n ->
   appCurrentSection n' = found /\
   length (navLinks n') = length (navLinks n) /\
   forall i l, navLinks n !! i = Some l ->
     exists l', navLinks n' !! i = Some l' /\ href l' = href l /\
       (active l' = true <-> href l = "#" +:+ found)).
Proof.
  intros found n'. split; [apply locate_spec |].
  unfold n', updateActiveLink. cbv zeta. fold found.
  case_decide as Hd.
  - cbn. split; [done |]. split; [done |]. intros _.
    split; [done |]. split; [by rewrite length_fmap |].
    intros i l Hl. eexists. rewrite list_lookup_fmap, Hl. split; [done |].
    cbn. split; [done |]. by rewrite bool_decide_eq_true.
  - split; [done |]. split; [done |]. done.
Qed.

Lemma closedNav_in_step : menu_in_step Example.closedNav.
Proof.
  split; [| split]; [intros a Ha | intros a Ha | reflexivity];
    injection Ha as <-; reflexivity.
Qed.

Lemma openNav_in_step : menu_in_step Example.openNav.
Proof.
  split; [| split]; [intros a Ha | intros a Ha | reflexivity];
    injection Ha as <-; reflexivity.
Qed.

Lemma X25_menu_stays_in_step_witness :
  menu_in_step Example.closedNav /\
  menu_in_step (toggleMenu Example.closedNav) /\
  toggleMenu (toggleMenu Example.closedNav) = Example.closedNav.
Proof.
  split; [exact closedNav_in_step |].
  destruct (X25_menu_stays_in_step Example.closedNav "about" closedNav_in_step)
    as (Ht & _ & _ & _ & Htt & _).
  split; [exact Ht | exact Htt].
Defined.

Lemma X26_global_scroll_leaves_menu_flag_witness :
  menu_in_step Example.openNav /\
  isMenuOpen Example.openNav = true /\
  is_Some (navMenu Example.openNav) /\
  is_Some (getSection Example.openNav "about") /\
  isMenuOpen (globalScrollToSection "about" Example.openNav) = true /\
  ~ menu_in_step (globalScrollToSection "about" Example.openNav).
Proof.
  assert (is_Some (navMenu Example.openNav)) as Hm by (eexists; reflexivity).
  assert (is_Some (getSection Example.openNav "about")) as Hs
    by (eexists; reflexivity).
  split; [exact openNav_in_step |]. split; [reflexivity |].
  split; [exact Hm |]. split; [exact Hs |].
  destruct (X26_global_scroll_leaves_menu_flag Example.openNav "about"
              openNav_in_step eq_refl Hm Hs)
    as (_ & _ & Ho & Hn & _).
  split; [exact Ho | exact Hn].
Defined.

End NavigationFacts.

(** ** The state stack of the 2D context *)

Section StackFacts.

Lemma saveDepth_appended (g : Globals) (cmds : list Cmd) :
  saveDepth (appended g cmds)
  = (saveDepth g + foldr (fun c d => (stackEffect c + d)%Z) 0%Z cmds)%Z.
Proof.
  unfold saveDepth, appended, set_canvasLog. cbn [canvasLog].
  induction (canvasLog g) as [| c l IH]; simpl; [lia |]. rewrite IH. lia.
Qed.

Lemma shifts_ret {A} (a : A) : shifts (mret a) 0.
Proof. intros g. unfold mret, Script_ret. simpl. lia. Qed.

Lemma shifts_ctx_do (c : Cmd) : shifts (ctx_do c) (stackEffect c).
Proof.
  intros g. rewrite run_ctx_do. cbn [snd]. rewrite saveDepth_appended. simpl. lia.
Qed.

Lemma shifts_random : shifts Math_random 0.
Proof. intros g. unfold Math_random, saveDepth. simpl. lia. Qed.

Lemma shifts_now : shifts Date_now 0.
Proof. intros g. unfold Date_now. simpl. lia. Qed.

Lemma shifts_bind {A B} (m : Script A) (f : A -> Script B) (j k : Z) :
  shifts m j -> (forall a, shifts (f a) k) -> shifts (m ≫= f) (j + k).
Proof.
  intros Hm Hf g. unfold mbind, Script_bind.
  specialize (Hm g). destruct (m g) as [a g1]. simpl in *.
  rewrite (Hf a g1), Hm. lia.
Qed.

Lemma shifts_weaken {A} (m : Script A) (j k : Z) :
  shifts m j -> j = k -> shifts m k.
Proof. by intros Hm <-. Qed.

Lemma shifts_forEach {A} (l : list A) (f : A -> Script unit) :
  (forall a, shifts (f a) 0) -> shifts (forEach l f) 0.
Proof.
  intros Hf. induction l as [| a l IH]; simpl.
  - apply shifts_ret.
  - apply (shifts_bind _ _ 0 0); [apply Hf | intros _; apply IH].
Qed.

Lemma shifts_for_upto (n : nat) (f : nat -> Script unit) :
  (forall i, shifts (f i) 0) -> shifts (for_upto n f) 0.
Proof. intros Hf. by apply shifts_forEach. Qed.

Lemma shifts_forEachCollect {A B} (l : list A) (f : A -> Script B) :
  (forall a, shifts (f a) 0) -> shifts (forEachCollect l f) 0.
Proof.
  intros Hf. induction l as [| a l IH]; simpl.
  - apply shifts_ret.
  - apply (shifts_bind _ _ 0 0); [apply Hf | intros b].
    apply (shifts_bind _ _ 0 0); [apply IH | intros bs; apply shifts_ret].
Qed.

End StackFacts.

(** Finds the shift of a script by following its shape. *)
Ltac balance :=
  cbv zeta;
  lazymatch goal with
  | |- shifts (mret _) _ =>
      eapply shifts_weaken; [apply shifts_ret | reflexivity]
  | |- shifts (ctx_do _) _ =>
      eapply shifts_weaken; [apply shifts_ctx_do | cbv [stackEffect]; reflexivity]
  | |- shifts Math_random _ =>
      eapply shifts_weaken; [apply shifts_random | reflexivity]
  | |- shifts Date_now _ =>
      eapply shifts_weaken; [apply shifts_now | reflexivity]
  | |- shifts (for_upto _ _) _ =>
      eapply shifts_weaken;
      [apply shifts_for_upto; intros; balance | reflexivity]
  | |- shifts (forEach _ _) _ =>
      eapply shifts_weaken;
      [apply shifts_forEach; intros; balance | reflexivity]
  | |- shifts (forEachCollect _ _) _ =>
      eapply shifts_weaken;
      [apply shifts_forEachCollect; intros; balance | reflexivity]
  | |- shifts (mbind _ _) _ =>
      eapply shifts_weaken;
      [eapply shifts_bind; [balance | intros; balance] | reflexivity]
  | |- shifts (if decide _ then _ else _) _ => case_decide; balance
  | |- shifts (match ?p with (_, _) => _ end) _ => destruct p; balance
  | |- shifts (match ?o with Some _ => _ | None => _ end) _ =>
      destruct o; balance
  end.

Section Balance.

Lemma Part000_renderDefault_shift (rect : DOMRect) (t : R) :
  shifts (Part000.renderDefault rect t) 0.
Proof. unfold Part000.renderDefault. balance. Qed.

Lemma Part000_renderHologram_shift (t : R) : shifts (Part000.renderHologram t) 0.
Proof. unfold Part000.renderHologram. balance. Qed.

Lemma Part000_renderNetwork_shift (t : R) : shifts (Part000.renderNetwork t) 0.
Proof. unfold Part000.renderNetwork, Part000.drawLink. balance. Qed.

Lemma Part000_renderParticleSystem_shift (t : R) (elements : list Part000.Element) :
  shifts (Part000.renderParticleSystem t elements) 0.
Proof. unfold Part000.renderParticleSystem, Part000.drawElement. balance. Qed.

Lemma Part000_renderNeuralNetwork_shift (t : R) :
  shifts (Part000.renderNeuralNetwork t) 0.
Proof. unfold Part000.renderNeuralNetwork. balance. Qed.

Lemma Part000_hero_shift (f : Part000.HeroFields) :
  shifts (forEach (Part000.particles f) (fun particle =>
            forEach (Part000.p_connections particle)
              (Part000.drawConnection (Part000.particles f) particle));;
          forEach (Part000.particles f) Part000.drawParticle;;
          forEach (Part000.shapes f) Part000.drawShape) 0.
Proof.
  unfold Part000.drawConnection, Part000.drawParticle, Part000.drawShape.
  balance.
Qed.

Lemma AppJs_renderDefault_shift (rect : DOMRect) :
  shifts (AppJs.renderDefault rect) 0.
Proof. unfold AppJs.renderDefault. balance. Qed.

Lemma AppJs_renderHologram_shift (t : R) : shifts (AppJs.renderHologram t) 0.
Proof. unfold AppJs.renderHologram. balance. Qed.

Lemma AppJs_renderNetwork_shift (t : R) : shifts (AppJs.renderNetwork t) 0.
Proof. unfold AppJs.renderNetwork, AppJs.drawLink. balance. Qed.

Lemma AppJs_renderParticleSystem_shift (t : R) :
  shifts (AppJs.renderParticleSystem t) 0.
Proof. unfold AppJs.renderParticleSystem. balance. Qed.

Lemma AppJs_hero_shift (f : AppJs.HeroFields) :
  shifts (forEach (AppJs.particles f) AppJs.drawParticle;;
          forEach (AppJs.shapes f) AppJs.drawShape) 0.
Proof. unfold AppJs.drawParticle, AppJs.drawShape. balance. Qed.

End Balance.

(** Replaces the depth after the script at the head of the goal by the
    depth before it plus the shift [k], which [tac] establishes. *)
Ltac shift_by k tac :=
  lazymatch goal with
  | |- context [saveDepth (snd (?m ?g1))] =>
      let H := fresh "Hshift" in
      assert (H : shifts m k) by tac;
      rewrite (H g1); clear H
  end.

Section BalancedHooks.

Lemma shifts_then_restore {A} (m : Script A) :
  shifts m 0 -> shifts (m;; ctx_do Restore) (-1).
Proof.
  intros Hm. eapply shifts_weaken.
  - eapply shifts_bind; [exact Hm | intros _; apply shifts_ctx_do].
  - reflexivity.
Qed.

Lemma Part000_base_render_level {X} (s : Scene3D X) (g : Globals) :
  returns_level Part000.Scene3D_render s g.
Proof.
  unfold returns_level, Part000.Scene3D_render.
  destruct (ctx s); cbn [negb]; [| done].
  destruct (canvas s) as [c |]; [| done]. cbv beta iota zeta.
  shift_by 0%Z ltac:(eapply shifts_weaken;
                     [eapply shifts_bind;
                        [apply shifts_ctx_do
                        | intros _; apply Part000_renderDefault_shift]
                     | reflexivity]).
  lia.
Qed.

Lemma AppJs_base_render_level {X} (s : Scene3D X) (g : Globals) :
  returns_level AppJs.Scene3D_render s g.
Proof.
  unfold returns_level, AppJs.Scene3D_render.
  destruct (ctx s); cbn [negb]; [| done].
  destruct (canvas s) as [c |]; [| done]. cbv beta iota zeta.
  shift_by 0%Z ltac:(eapply shifts_weaken;
                     [eapply shifts_bind;
                        [apply shifts_ctx_do
                        | intros _; apply AppJs_renderDefault_shift]
                     | reflexivity]).
  lia.
Qed.

Lemma Part000_hero_render_level (s : Scene3D (option Part000.HeroFields))
    (g : Globals) :
  returns_level Part000.HeroScene_render s g.
Proof.
  unfold returns_level, Part000.HeroScene_render.
  destruct (ctx s); cbn [negb]; [| done].
  destruct (canvas s) as [c |]; [| done].
  destruct (ext s) as [f |]; [| done]. cbv beta iota zeta.
  shift_by 0%Z ltac:(apply Part000_hero_shift).
  shift_by 0%Z ltac:(apply (shifts_ctx_do (ClearRect _ _ _ _))).
  lia.
Qed.

Lemma AppJs_hero_render_level (s : Scene3D (option AppJs.HeroFields))
    (g : Globals) :
  returns_level AppJs.HeroScene_render s g.
Proof.
  unfold returns_level, AppJs.HeroScene_render.
  destruct (ctx s); cbn [negb]; [| done].
  destruct (canvas s) as [c |]; [| done].
  destruct (ext s) as [f |]; [| done]. cbv beta iota zeta.
  shift_by 0%Z ltac:(apply AppJs_hero_shift).
  shift_by 0%Z ltac:(apply (shifts_ctx_do (ClearRect _ _ _ _))).
  lia.
Qed.

Lemma Part000_canvas_render_level (s : Scene3D (option (list Part000.Element)))
    (g : Globals) :
  returns_level Part000.CanvasScene_render s g.
Proof.
  unfold returns_level, Part000.CanvasScene_render.
  destruct (ctx s); cbn [negb]; [| done].
  destruct (canvas s) as [c |]; [| done]. cbv beta iota zeta.
  repeat case_decide.
  - shift_by (-1)%Z ltac:(apply shifts_then_restore, Part000_renderHologram_shift).
    shift_by 1%Z ltac:(balance). lia.
  - shift_by (-1)%Z ltac:(apply shifts_then_restore, Part000_renderNetwork_shift).
    shift_by 1%Z ltac:(balance). lia.
  - destruct (ext s) as [elements |]; [| done].
    lazymatch goal with
    | |- match (let '(_, _) := ?m ?g1 in _) with _ => _ end =>
        assert (shifts m (-1)) as Hs;
        [| specialize (Hs g1); destruct (m g1) as [es g2]]
    end.
    { eapply shifts_weaken.
      - eapply shifts_bind; [apply Part000_renderParticleSystem_shift |].
        intros es. eapply shifts_bind; [apply shifts_ctx_do |].
        intros _. apply shifts_ret.
      - reflexivity. }
    cbn [snd] in Hs. rewrite Hs.
    shift_by 1%Z ltac:(balance). lia.
  - shift_by (-1)%Z
      ltac:(apply shifts_then_restore, Part000_renderNeuralNetwork_shift).
    shift_by 1%Z ltac:(balance). lia.
  - shift_by (-1)%Z ltac:(apply shifts_then_restore, Part000_renderDefault_shift).
    shift_by 1%Z ltac:(balance). lia.
Qed.

Lemma AppJs_canvas_render_level (s : Scene3D (option AppJs.CanvasFields))
    (g : Globals) :
  returns_level AppJs.CanvasScene_render s g.
Proof.
  unfold returns_level, AppJs.CanvasScene_render.
  destruct (ctx s); cbn [negb]; [| done].
  destruct (canvas s) as [c |]; [| done]. cbv beta iota zeta.
  set (pattern := match ext s with Some _ => _ | None => _ end).
  assert (shifts pattern 0) as Hpat.
  { subst pattern. destruct (ext s) as [f |].
    - repeat case_decide.
      + apply AppJs_renderHologram_shift.
      + apply AppJs_renderNetwork_shift.
      + apply AppJs_renderParticleSystem_shift.
      + apply AppJs_renderDefault_shift.
    - apply AppJs_renderDefault_shift. }
  shift_by 0%Z ltac:(eapply shifts_weaken;
                     [eapply shifts_bind;
                        [balance | intros _; apply (shifts_then_restore _ Hpat)]
                     | reflexivity]).
  lia.
Qed.

(** X28.  Every [render()] of either copy that returns has called
    [restore] as often as [save]: the state stack of the 2D context is
    as deep after the call as before, whatever the scene holds and
    whatever was drawn before. *)
Theorem X28_render_restores_what_it_saves :
  (forall X, balanced (@Part000.Scene3D_render X)) /\
  balanced Part000.HeroScene_render /\
  balanced Part000.CanvasScene_render /\
  (forall X, balanced (@AppJs.Scene3D_render X)) /\
  balanced AppJs.HeroScene_render /\
  balanced AppJs.CanvasScene_render.
Proof.
  assert (forall X (h : Hook X),
            (forall s g, returns_level h s g) -> balanced h) as Hlevel.
  { intros X h Hh s g x g' Hr. specialize (Hh s g).
    unfold returns_level in Hh. by rewrite Hr in Hh. }
  split_and!.
  - intros X. apply Hlevel, @Part000_base_render_level.
  - apply Hlevel, Part000_hero_render_level.
  - apply Hlevel, Part000_canvas_render_level.
  - intros X. apply Hlevel, @AppJs_base_render_level.
  - apply Hlevel, AppJs_hero_render_level.
  - apply Hlevel, AppJs_canvas_render_level.
Qed.

Lemma X28_render_restores_what_it_saves_witness :
  exists g',
    Part000.Scene3D_render Example.particleScene Example.page
    = Normal (ext Example.particleScene, g') /\
    saveDepth g' = saveDepth Example.page.
Proof.
  destruct (Part000_base_render_returns Example.particleScene Example.page
              eq_refl (ex_intro _ Sample.surface eq_refl))
    as (g' & Hr).
  exists g'. split; [exact Hr |].
  exact (proj1 X28_render_restores_what_it_saves _ _ _ _ _ Hr).
Defined.

End BalancedHooks.

(** ** The elements of the particle pattern *)

Section ElementFacts.

Lemma drawElement_value (t : R) (ie : nat * Part000.Element) (g : Globals) :
  (Part000.drawElement t ie g).1 = advanced ie.2.
Proof. by destruct ie. Qed.

Lemma forEachCollect_values {A B} (f : A -> Script B) (v : A -> B)
    (l : list A) (g : Globals) :
  (forall a g0, (f a g0).1 = v a) -> (forEachCollect l f g).1 = v <$> l.
Proof.
  intros Hf. revert g. induction l as [| a l IH]; intros g; [done |].
  simpl. unfold mbind, Script_bind.
  specialize (Hf a g). destruct (f a g) as [b g1]. simpl in Hf. subst b.
  specialize (IH g1). destruct (forEachCollect l f g1) as [bs g2].
  simpl in *. by rewrite IH.
Qed.

Lemma indexed_values {A} (l : list A) : snd <$> indexed l = l.
Proof.
  unfold indexed. apply list_eq. intros i.
  rewrite list_lookup_fmap, list_lookup_imap. by destruct (l !! i).
Qed.

Lemma value_bind {A B} (m : Script A) (f : A -> Script B) (g : Globals) :
  ((m ≫= f) g).1 = (f (m g).1 (m g).2).1.
Proof. unfold mbind, Script_bind. by destruct (m g). Qed.

Lemma renderParticleSystem_value (t : R) (elements : list Part000.Element)
    (g : Globals) :
  (Part000.renderParticleSystem t elements g).1 = advanced <$> elements.
Proof.
  unfold Part000.renderParticleSystem.
  rewrite !value_bind. unfold mret, Script_ret. cbn [fst].
  rewrite (forEachCollect_values (Part000.drawElement t)
             (fun ie => advanced ie.2) (indexed elements) g
             (drawElement_value t)).
  change (fun ie : nat * Part000.Element => advanced ie.2)
    with (advanced ∘ (@snd nat Part000.Element)).
  by rewrite list_fmap_compose, indexed_values.
Qed.

(** X29.  In [part_000] the particle pattern moves its elements while
    it draws them: a [render()] of a canvas scene of type ['particle']
    that holds its elements returns with every element's angle advanced
    by its speed and nothing else of the elements changed; [update()]
    changes none of them.  This is a property of the method on a scene
    whose elements are assigned; the constructor assigns them only
    after the first [render()]. *)
Theorem X29_particle_pattern_advances_in_render
    (s : Scene3D (option (list Part000.Element))) (g : Globals)
    (cv : Canvas) (elements : list Part000.Element) :
  ctx s = true -> canvas s = Some cv -> options_type s = "particle" ->
  ext s = Some elements ->
  Part000.Scene3D_update s g = Normal (Some elements, g) /\
  exists g',
    Part000.CanvasScene_render s g
    = Normal (Some (advanced <$> elements), g') /\
    forall i e, elements !! i = Some e ->
      exists e', (advanced <$> elements) !! i = Some e' /\
        Part000.e_angle e' = Part000.e_angle e + Part000.e_speed e /\
        Part000.e_speed e' = Part000.e_speed e /\
        Part000.e_size e' = Part000.e_size e /\
        Part000.e_opacity e' = Part000.e_opacity e.
Proof.
  intros Hctx Hc Ht He. split.
  - unfold Part000.Scene3D_update. by rewrite He.
  - unfold Part000.CanvasScene_render. rewrite Hctx, Hc, Ht, He. cbn [negb].
    rewrite decide_False by done. rewrite decide_False by done.
    rewrite decide_True by done.
    lazymatch goal with
    | |- context [let '(_, _) := ?m ?g1 in _] =>
        assert ((m g1).1 = advanced <$> elements) as Hv;
        [| destruct (m g1) as [es g2]]
    end.
    { rewrite value_bind, value_bind. unfold mret, Script_ret. cbn [fst].
      apply renderParticleSystem_value. }
    cbn [fst] in Hv. subst es. exists g2. split; [done |].
    intros i e Hi. exists (advanced e).
    rewrite list_lookup_fmap, Hi. done.
Qed.

Lemma X29_particle_pattern_advances_in_render_witness :
  exists g',
    Part000.CanvasScene_render Example.particleScene Example.page
    = Normal (Some [advanced Example.element], g').
Proof.
  destruct (X29_particle_pattern_advances_in_render Example.particleScene
              Example.page Sample.surface [Example.element]
              eq_refl eq_refl eq_refl eq_refl)
    as (_ & g' & Hr & _).
  exists g'. exact Hr.
Defined.

End ElementFacts.
